(** * Recording and audio/video synchronisation core of the meeting bot

    A shallow embedding of [src/recording/ScreenRecorder.ts] (class
    [ScreenRecorder]), of the transcription word poster ([WordsPoster]) and
    of the cleanup state of the meeting state machine ([CleanupState]),
    with the properties of the specification proved about it, followed by
    further properties of the code.

    Conventions of the embedding.
    - Wall-clock values ([Date.now()], [recordingStartTime],
      [meetingStartTime]) are integers of milliseconds, [Z].
    - Quantities in seconds (tone offsets, durations) are JavaScript numbers;
      they are embedded as exact rationals [Q]: the arithmetic of the source
      is kept operation by operation, rounding of doubles is not modelled.
    - An [async] method is a computation in the monad [M]: it threads the
      recorder object and the outside world, and either returns or throws.
    - The media tools, the uploader, the offset calculator, the clock and the
      configuration singletons are collaborators of the class; they are the
      fields of [Externals] and every definition is parametric in them.
    - What the class does to the outside is kept, in order, in a trace:
      tool runs with their argument vectors, file-system calls, uploads,
      emitted events, and the lines of [console.error] and [console.warn].
      The progress lines of [console.log] are left out, and so are the
      pictographs that open the messages. *)

From Stdlib Require Import ZArith QArith Qminmax Qabs Qround Lia Lqa.
From stdpp Require Import base gmap strings list pretty.

Open Scope Z_scope.

(** ** Constants (top of ScreenRecorder.ts) *)

Definition TRANSCRIPTION_CHUNK_DURATION : Z := 3600.
Definition GRACE_PERIOD_SECONDS : Z := 3.
Definition STREAMING_SAMPLE_RATE : Z := 24000.
Definition AUDIO_SAMPLE_RATE : Z := 44100.
Definition AUDIO_BITRATE : string := "192k".
Definition FLASH_SCREEN_SLEEP_TIME : Z := 6000.

(** ** Strings and argument vectors *)

(** One entry of an argument vector, or one logged line: the pieces of a
    template string in order. [Int] and [Num] stand for the [toString] of an
    integer and of a number. *)
Inductive piece :=
| Lit (s : string)
| Int (z : Z)
| Num (q : Q).

Abbreviation arg := (list piece).

Definition lit (s : string) : arg := [Lit s].
Definition int (z : Z) : arg := [Int z].
Definition num (q : Q) : arg := [Num q].

(** [path.join(dir, name)] for the plain segments the recorder uses. *)
Definition path_join (dir name : string) : string := dir +:+ "/" +:+ name.

(** [path.resolve(p)]: the path manager hands out absolute paths. *)
Definition path_resolve (p : string) : string := p.

(** [s.startsWith(p)] *)
Definition startsWith (p s : string) : bool := String.prefix p s.

(** [s.endsWith(p)] *)
Definition endsWith (p s : string) : bool :=
  (String.length p <=? String.length s)%nat
  && String.eqb (String.substring (String.length s - String.length p)%nat
                                  (String.length p) s) p.

(** ** Configuration singletons *)

(** [GLOBAL.get()] and [GLOBAL.isServerless()]. *)
Record Global := {
  recording_mode : string;
  speech_to_text_provider : option string;
  bot_uuid : string;
  aws_s3_temporary_audio_bucket : string;
  aws_s3_video_bucket : string;
  isServerless : bool;
}.

(** [PathManager.getInstance()]. *)
Record PathManager := {
  getOutputPath : string;
  getTempPath : string;
  getAudioTmpPath : string;
  getIdentifier : string;
}.

(** JavaScript truthiness of an optional string. *)
Definition truthy (o : option string) : bool :=
  match o with
  | Some s => negb (String.eqb s "")
  | None => false
  end.

(** ** Errors *)

Inductive JoinErrorCode := BotRemovedTooEarly.

Inductive error :=
| JoinError (c : JoinErrorCode)
| FFmpegFailed (code : Z)          (* Error(`FFmpeg failed with code ${code}`) *)
| FFprobeFailed (code : Z)         (* Error(`FFprobe failed with code ${code}`) *)
| SpawnFailed (tool : string)      (* the 'error' event of a child process *)
| OffsetFailed                     (* calculateVideoOffset rejected *)
| UploadFailed (path : string)     (* uploadFile rejected *)
| ENOENT (path : string)           (* fs call on a missing path *)
| TypeError (msg : string).

(** ** The outside world *)

(** How a child process ended: the code of its 'close' event, or an 'error'
    event. *)
Inductive proc_end :=
| Closed (code : Z)
| SpawnErr.

(** [syncResult] of [calculateVideoOffset]. *)
Record SyncResult := {
  offsetSeconds : Q;
  videoTimestamp : Q;
  audioTimestamp : Q;
}.

Inductive level := LError | LWarn.

Inductive emitted :=
| EvStopped
| EvError (e : error).

Inductive signal := SIGINT | SIGKILL.

(** What the recorder does to the outside, in order. *)
Inductive event :=
| EFfmpeg (args : list arg) (r : proc_end)
| EFfprobe (args : list arg) (r : proc_end) (out : Q)
| EOffset (audio video : string) (r : option SyncResult)
| ECopy (src dst : string)
| EUnlink (p : string)
| EWrite (p content : string)
| EMkdir (p : string)
| EUpload (p bucket key : string) (chunk ok : bool)
| EEmit (ev : emitted)
| EConsole (l : level) (msg : list piece)
| EKill (s : signal)
| ESetTimeout (ms : Z).

Record World := {
  files : gmap string string;   (* regular files: path to bytes *)
  dirs : gset string;           (* directories *)
  ticks : nat;                  (* calls of Date.now() so far *)
  trace : list event;
}.

Definition set_files (f : gmap string string) (w : World) : World :=
  {| files := f; dirs := dirs w; ticks := ticks w; trace := trace w |}.
Definition set_dirs (d : gset string) (w : World) : World :=
  {| files := files w; dirs := d; ticks := ticks w; trace := trace w |}.
Definition set_ticks (n : nat) (w : World) : World :=
  {| files := files w; dirs := dirs w; ticks := n; trace := trace w |}.
Definition record (e : event) (w : World) : World :=
  {| files := files w; dirs := dirs w; ticks := ticks w; trace := trace w ++ [e] |}.

(** The collaborators of the class. A child process is given by how it ends
    and by the files it leaves; [ffprobe] also by the number on its standard
    output, as [parseFloat] reads it. *)
Record Externals := {
  GLOBAL : Global;
  paths : PathManager;
  s3Uploader : bool;            (* S3Uploader.getInstance() is not null *)
  clock : nat -> Z;             (* the value of the n-th Date.now() *)
  ffmpeg : list arg -> World -> proc_end * gmap string string;
  ffprobe : list arg -> World -> proc_end * Q;
  calculateVideoOffset : string -> string -> World -> option SyncResult;
  uploadFile : string -> string -> string -> bool -> World -> bool;
}.

(** ** The recorder object *)

Record process := { killed : bool }.

Record Recorder := {
  ffmpegProcess : option process;
  outputPath : string;
  audioOutputPath : string;
  isRecording : bool;
  filesUploaded : bool;
  recordingStartTime : Z;
  meetingStartTime : Z;
  gracePeriodActive : bool;
  stopWaiters : nat;   (* once('stopped') listeners left by stopRecording *)
}.

Definition set_ffmpegProcess (p : option process) (r : Recorder) : Recorder :=
  {| ffmpegProcess := p; outputPath := outputPath r;
     audioOutputPath := audioOutputPath r; isRecording := isRecording r;
     filesUploaded := filesUploaded r; recordingStartTime := recordingStartTime r;
     meetingStartTime := meetingStartTime r;
     gracePeriodActive := gracePeriodActive r; stopWaiters := stopWaiters r |}.
Definition set_isRecording (b : bool) (r : Recorder) : Recorder :=
  {| ffmpegProcess := ffmpegProcess r; outputPath := outputPath r;
     audioOutputPath := audioOutputPath r; isRecording := b;
     filesUploaded := filesUploaded r; recordingStartTime := recordingStartTime r;
     meetingStartTime := meetingStartTime r;
     gracePeriodActive := gracePeriodActive r; stopWaiters := stopWaiters r |}.
Definition set_filesUploaded (b : bool) (r : Recorder) : Recorder :=
  {| ffmpegProcess := ffmpegProcess r; outputPath := outputPath r;
     audioOutputPath := audioOutputPath r; isRecording := isRecording r;
     filesUploaded := b; recordingStartTime := recordingStartTime r;
     meetingStartTime := meetingStartTime r;
     gracePeriodActive := gracePeriodActive r; stopWaiters := stopWaiters r |}.
Definition set_meetingStartTime (t : Z) (r : Recorder) : Recorder :=
  {| ffmpegProcess := ffmpegProcess r; outputPath := outputPath r;
     audioOutputPath := audioOutputPath r; isRecording := isRecording r;
     filesUploaded := filesUploaded r; recordingStartTime := recordingStartTime r;
     meetingStartTime := t;
     gracePeriodActive := gracePeriodActive r; stopWaiters := stopWaiters r |}.
Definition set_gracePeriodActive (b : bool) (r : Recorder) : Recorder :=
  {| ffmpegProcess := ffmpegProcess r; outputPath := outputPath r;
     audioOutputPath := audioOutputPath r; isRecording := isRecording r;
     filesUploaded := filesUploaded r; recordingStartTime := recordingStartTime r;
     meetingStartTime := meetingStartTime r;
     gracePeriodActive := b; stopWaiters := stopWaiters r |}.
Definition set_stopWaiters (n : nat) (r : Recorder) : Recorder :=
  {| ffmpegProcess := ffmpegProcess r; outputPath := outputPath r;
     audioOutputPath := audioOutputPath r; isRecording := isRecording r;
     filesUploaded := filesUploaded r; recordingStartTime := recordingStartTime r;
     meetingStartTime := meetingStartTime r;
     gracePeriodActive := gracePeriodActive r; stopWaiters := n |}.

Record St := { this : Recorder; world : World }.

Definition onThis (f : Recorder -> Recorder) (s : St) : St :=
  {| this := f (this s); world := world s |}.
Definition onWorld (f : World -> World) (s : St) : St :=
  {| this := this s; world := f (world s) |}.

(** ** Computations that may throw *)

Inductive res (A : Type) :=
| Ok (a : A)
| Throw (e : error).
Arguments Ok {A} a.
Arguments Throw {A} e.

Definition M (A : Type) : Type := St -> res A * St.

#[global] Instance M_ret : MRet M := fun A a s => (Ok a, s).
#[global] Instance M_bind : MBind M := fun A B f m s =>
  match m s with
  | (Ok a, s') => f a s'
  | (Throw e, s') => (Throw e, s')
  end.

Definition throw {A} (e : error) : M A := fun s => (Throw e, s).

(** [try { m } catch (error) { h error }] *)
Definition try_catch {A} (m : M A) (h : error -> M A) : M A := fun s =>
  match m s with
  | (Ok a, s') => (Ok a, s')
  | (Throw e, s') => h e s'
  end.

Definition get : M Recorder := fun s => (Ok (this s), s).
Definition update (f : Recorder -> Recorder) : M unit := fun s => (Ok tt, onThis f s).
Definition perform (e : event) : M unit := fun s => (Ok tt, onWorld (record e) s).

Definition when (b : bool) (m : M unit) : M unit := if b then m else mret tt.

(** [for (const x of l) { body x }] *)
Fixpoint for_of {A} (l : list A) (body : A -> M unit) : M unit :=
  match l with
  | [] => mret tt
  | x :: l' => body x;; for_of l' body
  end.

Definition console_error (msg : list piece) : M unit := perform (EConsole LError msg).
Definition console_warn (msg : list piece) : M unit := perform (EConsole LWarn msg).

(** ** The class ScreenRecorder *)

Section ScreenRecorder.

Variable E : Externals.

(** *** File system calls ([fs]) *)

Definition existsSync (p : string) : M bool := fun s =>
  (Ok (negb (String.eqb p "")
       && (bool_decide (is_Some (files (world s) !! p))
           || bool_decide (p ∈ dirs (world s)))), s).

Definition copyFileSync (src dst : string) : M unit := fun s =>
  match files (world s) !! src with
  | Some c =>
      (Ok tt, onWorld (fun w => record (ECopy src dst) (set_files (<[dst := c]> (files w)) w)) s)
  | None => (Throw (ENOENT src), s)
  end.

Definition unlinkSync (p : string) : M unit := fun s =>
  match files (world s) !! p with
  | Some _ =>
      (Ok tt, onWorld (fun w => record (EUnlink p) (set_files (delete p (files w)) w)) s)
  | None => (Throw (ENOENT p), s)
  end.

Definition writeFileSync (p content : string) : M unit := fun s =>
  (Ok tt, onWorld (fun w => record (EWrite p content) (set_files (<[p := content]> (files w)) w)) s).

(** [fs.mkdirSync(p, { recursive: true })] *)
Definition mkdirSync (p : string) : M unit := fun s =>
  (Ok tt, onWorld (fun w => record (EMkdir p) (set_dirs ({[p]} ∪ dirs w) w)) s).

(** The name of [p] as an entry of directory [dir], if it is one. *)
Definition entry_of (dir p : string) : option string :=
  let pre := dir +:+ "/" in
  if String.prefix pre p then
    let name := String.substring (String.length pre)
                  (String.length p - String.length pre)%nat p in
    match String.index 0 "/" name with
    | Some _ => None
    | None => Some name
    end
  else None.

Definition readdirSync (dir : string) : M (list string) := fun s =>
  if bool_decide (dir ∈ dirs (world s))
  then (Ok (omap (entry_of dir) (map_to_list (files (world s))).*1), s)
  else (Throw (ENOENT dir), s).

(** [fs.statSync(p).size] *)
Definition statSync_size (p : string) : M nat := fun s =>
  match files (world s) !! p with
  | Some c => (Ok (String.length c), s)
  | None => (Throw (ENOENT p), s)
  end.

Definition Date_now : M Z := fun s =>
  (Ok (clock E (ticks (world s))), onWorld (fun w => set_ticks (S (ticks w)) w) s).

(** *** runFFmpeg, runFFprobe, getDuration *)

Definition runFFmpeg (args : list arg) : M unit := fun s =>
  let '(r, fs') := ffmpeg E args (world s) in
  let s' := onWorld (fun w => record (EFfmpeg args r) (set_files fs' w)) s in
  match r with
  | Closed code => if code =? 0 then (Ok tt, s') else (Throw (FFmpegFailed code), s')
  | SpawnErr => (Throw (SpawnFailed "ffmpeg"), s')
  end.

Definition runFFprobe (args : list arg) : M Q := fun s =>
  let '(r, out) := ffprobe E args (world s) in
  let s' := onWorld (record (EFfprobe args r out)) s in
  match r with
  | Closed code => if code =? 0 then (Ok out, s') else (Throw (FFprobeFailed code), s')
  | SpawnErr => (Throw (SpawnFailed "ffprobe"), s')
  end.

Definition getDuration_args (filePath : string) : list arg :=
  [lit "-v"; lit "quiet"; lit "-show_entries"; lit "format=duration";
   lit "-of"; lit "csv=p=0"; lit filePath].

Definition getDuration (filePath : string) : M Q :=
  runFFprobe (getDuration_args filePath).

(** *** The uploader *)

Definition S3_uploadFile (p bucket key : string) (chunk : bool) : M unit := fun s =>
  let ok := uploadFile E p bucket key chunk (world s) in
  let s' := onWorld (record (EUpload p bucket key chunk ok)) s in
  if ok then (Ok tt, s') else (Throw (UploadFailed p), s').

(** *** uploadAudioChunks *)

Definition isChunkFile (botUuid file : string) : bool :=
  startsWith (botUuid +:+ "-") file && endsWith ".wav" file.

(** The body of the [for] loop over the chunk files. *)
Definition uploadChunk (chunksDir botUuid filename : string) : M unit :=
  let chunkPath := path_join chunksDir filename in
  ex ← existsSync chunkPath;
  if negb ex then console_warn [Lit "Chunk file not found: "; Lit chunkPath]
  else
    try_catch
      (size ← statSync_size chunkPath;
       if (size =? 0)%nat then console_warn [Lit "Chunk file is empty: "; Lit filename]
       else
         let s3Key := botUuid +:+ "/" +:+ filename in
         S3_uploadFile chunkPath (aws_s3_temporary_audio_bucket (GLOBAL E)) s3Key true)
      (fun error => console_error [Lit "Failed to upload chunk "; Lit filename; Lit ":"]).

Definition uploadAudioChunks (chunksDir botUuid : string) : M unit :=
  if negb (s3Uploader E) then mret tt
  else
    files ← readdirSync chunksDir;
    let chunkFiles := filter (fun file => isChunkFile botUuid file = true) files in
    for_of chunkFiles (uploadChunk chunksDir botUuid).

(** *** uploadToS3 *)

Definition uploadToS3 : M unit :=
  r ← get;
  if filesUploaded r || negb (s3Uploader E) then mret tt
  else
    let identifier := getIdentifier (paths E) in
    a ← existsSync (audioOutputPath r);
    when a (S3_uploadFile (audioOutputPath r) (aws_s3_video_bucket (GLOBAL E))
                          (identifier +:+ ".wav") false;;
            unlinkSync (audioOutputPath r));;
    v ← existsSync (outputPath r);
    when v (S3_uploadFile (outputPath r) (aws_s3_video_bucket (GLOBAL E))
                          (identifier +:+ ".mp4") false;;
            unlinkSync (outputPath r));;
    update (set_filesUploaded true).

(** *** createAudioChunks *)

Definition segment_args (audioPath : string) (chunkDuration : Q)
    (chunkPattern : string) : list arg :=
  [lit "-i"; lit audioPath; lit "-acodec"; lit "pcm_s16le"; lit "-ac"; lit "1";
   lit "-ar"; int AUDIO_SAMPLE_RATE; lit "-f"; lit "segment";
   lit "-segment_time"; num chunkDuration; lit "-segment_format"; lit "wav";
   lit "-y"; lit chunkPattern].

Definition chunkPattern (chunksDir botUuid : string) : string :=
  path_join chunksDir (botUuid +:+ "-%d.wav").

Definition createAudioChunks (audioPath : string) : M unit :=
  if negb (truthy (speech_to_text_provider (GLOBAL E))) then mret tt
  else
    let chunksDir := getAudioTmpPath (paths E) in
    ex ← existsSync chunksDir;
    when (negb ex) (mkdirSync chunksDir);;
    duration ← getDuration audioPath;
    let botUuid := bot_uuid (GLOBAL E) in
    let chunkDuration := Qmin duration (inject_Z TRANSCRIPTION_CHUNK_DURATION) in
    runFFmpeg (segment_args audioPath chunkDuration (chunkPattern chunksDir botUuid));;
    uploadAudioChunks chunksDir botUuid.

(** *** The media-tool stages of post-processing *)

Definition silence_args (paddingSeconds : Q) (silenceFile : string) : list arg :=
  [lit "-f"; lit "lavfi"; lit "-i";
   [Lit "anullsrc=channel_layout=mono:sample_rate="; Int AUDIO_SAMPLE_RATE;
    Lit ":duration="; Num paddingSeconds];
   lit "-c:a"; lit "pcm_s16le"; lit "-ar"; int AUDIO_SAMPLE_RATE;
   lit "-ac"; lit "1"; lit "-y"; lit silenceFile].

Definition concat_args (concatListFile outputAudioPath : string) : list arg :=
  [lit "-f"; lit "concat"; lit "-safe"; lit "0"; lit "-i"; lit concatListFile;
   lit "-c:a"; lit "pcm_s16le"; lit "-ar"; int AUDIO_SAMPLE_RATE;
   lit "-ac"; lit "1"; lit "-y"; lit outputAudioPath].

Definition concatContent (absoluteSilencePath absoluteInputPath : string) : string :=
  "file '" +:+ absoluteSilencePath +:+ "'
file '" +:+ absoluteInputPath +:+ "'".

Definition silenceFile : string := path_join (getTempPath (paths E)) "silence.wav".
Definition concatListFile : string := path_join (getTempPath (paths E)) "concat_list.txt".

Definition addSilencePadding (inputAudioPath outputAudioPath : string)
    (paddingSeconds : Q) : M unit :=
  runFFmpeg (silence_args paddingSeconds silenceFile);;
  let absoluteSilencePath := path_resolve silenceFile in
  let absoluteInputPath := path_resolve inputAudioPath in
  writeFileSync concatListFile (concatContent absoluteSilencePath absoluteInputPath);;
  runFFmpeg (concat_args concatListFile outputAudioPath);;
  s ← existsSync silenceFile;
  when s (unlinkSync silenceFile);;
  c ← existsSync concatListFile;
  when c (unlinkSync concatListFile).

Definition trim_args (inputAudioPath outputAudioPath : string) (trimSeconds : Q)
    : list arg :=
  [lit "-i"; lit inputAudioPath; lit "-ss"; num trimSeconds;
   lit "-c:a"; lit "pcm_s16le"; lit "-ar"; int AUDIO_SAMPLE_RATE;
   lit "-ac"; lit "1"; lit "-avoid_negative_ts"; lit "make_zero";
   lit "-y"; lit outputAudioPath].

Definition trimAudioStart (inputAudioPath outputAudioPath : string)
    (trimSeconds : Q) : M unit :=
  runFFmpeg (trim_args inputAudioPath outputAudioPath trimSeconds).

Definition merge_args (videoPath audioPath outPath : string) : list arg :=
  [lit "-i"; lit videoPath; lit "-i"; lit audioPath; lit "-c:v"; lit "copy";
   lit "-c:a"; lit "aac"; lit "-b:a"; lit AUDIO_BITRATE; lit "-shortest";
   lit "-avoid_negative_ts"; lit "make_zero"; lit "-y"; lit outPath].

Definition mergeWithSync (videoPath audioPath outPath : string) : M unit :=
  runFFmpeg (merge_args videoPath audioPath outPath).

Definition finalTrim_args (inputPath outPath : string) (calcOffset duration : Q)
    : list arg :=
  [lit "-i"; lit inputPath; lit "-ss"; num calcOffset; lit "-t"; num duration;
   lit "-c:v"; lit "copy"; lit "-c:a"; lit "copy";
   lit "-movflags"; lit "+faststart";
   lit "-avoid_negative_ts"; lit "make_zero"; lit "-y"; lit outPath].

Definition finalTrimFromOffset (inputPath outPath : string)
    (calcOffset duration : Q) : M unit :=
  runFFmpeg (finalTrim_args inputPath outPath calcOffset duration).

Definition extract_args (videoPath audioPath : string) : list arg :=
  [lit "-i"; lit videoPath; lit "-vn"; lit "-c:a"; lit "pcm_s16le";
   lit "-ar"; int AUDIO_SAMPLE_RATE; lit "-ac"; lit "1"; lit "-y"; lit audioPath].

Definition extractAudioFromVideo (videoPath audioPath : string) : M unit :=
  runFFmpeg (extract_args videoPath audioPath).

(** The body of the method is commented out in the source. *)
Definition cleanupTempFiles (filePaths : list string) : M unit := mret tt.

(** *** syncAndMergeFiles *)

Definition rawVideoPath : string := path_join (getTempPath (paths E)) "raw.mp4".
Definition rawAudioPath : string := path_join (getTempPath (paths E)) "raw.wav".
Definition processedAudioPath : string := path_join (getTempPath (paths E)) "processed.wav".
Definition mergedPath : string := path_join (getTempPath (paths E)) "merged.mp4".

Definition run_calculateVideoOffset (audio video : string) : M SyncResult := fun s =>
  let r := calculateVideoOffset E audio video (world s) in
  let s' := onWorld (record (EOffset audio video r)) s in
  match r with
  | Some sr => (Ok sr, s')
  | None => (Throw OffsetFailed, s')
  end.

(** Step 2 of the video branch: [meetingStartTime] not set. *)
Definition meetingTimeFallback : M unit :=
  r ← get;
  let hasMeetingStartTime := 0 <? meetingStartTime r in
  if negb hasMeetingStartTime then
    console_error [Lit "Bot removed too early - meetingStartTime not set (";
                   Int (meetingStartTime r); Lit ")"];;
    console_error [Lit "Timing debug:"];;
    console_error [Lit "   recordingStartTime: "; Int (recordingStartTime r)];;
    console_error [Lit "   meetingStartTime: "; Int (meetingStartTime r)];;
    t1 ← Date_now;
    console_error [Lit "   Current time: "; Int t1];;
    t2 ← Date_now;
    console_error [Lit "   Recording duration: "; Int (t2 - recordingStartTime r); Lit "ms"];;
    t3 ← Date_now;
    let recordingDuration := t3 - recordingStartTime r in
    if 10000 <? recordingDuration then
      console_warn [Lit "Setting meetingStartTime to 5s before bot removal to avoid showing pre-meeting phase"];;
      t4 ← Date_now;
      update (set_meetingStartTime (t4 - 5000))
    else throw (JoinError BotRemovedTooEarly)
  else mret tt.

(** Step 3: the offset into the merged file where the meeting starts. *)
Definition calcOffsetVideo (syncResult : SyncResult) (r : Recorder) : Q :=
  (videoTimestamp syncResult
   + inject_Z (meetingStartTime r - recordingStartTime r - FLASH_SCREEN_SLEEP_TIME)
     / inject_Z 1000)%Q.

Definition Qltb (x y : Q) : bool :=
  match Qcompare x y with
  | Lt => true
  | _ => false
  end.

(** Step 5: pad or trim the head of the audio. *)
Definition prepareAudio (audioPadding : Q) : M unit :=
  if Qltb 0 audioPadding then
    addSilencePadding rawAudioPath processedAudioPath audioPadding
  else if Qltb audioPadding 0 then
    trimAudioStart rawAudioPath processedAudioPath (audioPadding * inject_Z (-1))%Q
  else
    copyFileSync rawAudioPath processedAudioPath.

(** Steps 6 to 9. *)
Definition mergeAndTrim (calcOffset : Q) : M unit :=
  mergeWithSync rawVideoPath processedAudioPath mergedPath;;
  videoDuration ← getDuration rawVideoPath;
  audioDuration ← getDuration processedAudioPath;
  let finalDuration := Qmin (videoDuration - calcOffset)%Q audioDuration in
  r ← get;
  finalTrimFromOffset mergedPath (outputPath r) calcOffset finalDuration;;
  extractAudioFromVideo (outputPath r) (audioOutputPath r);;
  createAudioChunks (audioOutputPath r);;
  cleanupTempFiles [rawVideoPath; rawAudioPath; processedAudioPath; mergedPath].

Definition syncAndMergeFiles : M unit :=
  if String.eqb (recording_mode (GLOBAL E)) "audio_only" then
    ex ← existsSync rawAudioPath;
    if ex : bool then
      r ← get;
      copyFileSync rawAudioPath (audioOutputPath r);;
      createAudioChunks (audioOutputPath r)
    else console_error [Lit "Raw audio file not found:"; Lit rawAudioPath]
  else
    syncResult ← run_calculateVideoOffset rawAudioPath rawVideoPath;
    meetingTimeFallback;;
    r ← get;
    let calcOffset := calcOffsetVideo syncResult r in
    let audioPadding := (videoTimestamp syncResult - audioTimestamp syncResult)%Q in
    prepareAudio audioPadding;;
    mergeAndTrim calcOffset.

(** *** Events, exit of the capture subprocess, stop *)

(** [this.emit(ev)]. The only listener the class itself registers is the
    [once('stopped')] of [stopRecording]; it runs here. The listeners of the
    callers, among them the one for 'error' with which the state machine
    handles a failed post-processing, are outside the class: for them,
    emitting is recording the event. *)
Definition emit (ev : emitted) : M unit :=
  perform (EEmit ev);;
  match ev with
  | EvStopped =>
      r ← get;
      when (0 <? stopWaiters r)%nat
        (update (fun r => set_stopWaiters 0
                            (set_ffmpegProcess None (set_gracePeriodActive false r))))
  | EvError _ => mret tt
  end.

Definition handleSuccessfulRecording : M unit :=
  try_catch
    (syncAndMergeFiles;;
     when (negb (isServerless (GLOBAL E)))
       (try_catch uploadToS3 (fun error => console_error [Lit "Upload failed:"])))
    (fun error =>
       console_error [Lit "Error during recording processing:"];;
       emit (EvError error)).

(** [code === 0 || (gracePeriodActive && (code === 255 || code === 143))];
    [code] is [null] when the process was ended by a signal. *)
Definition isSuccessful (gracePeriodActive : bool) (code : option Z) : bool :=
  match code with
  | Some code => (code =? 0) || (gracePeriodActive && ((code =? 255) || (code =? 143)))
  | None => false
  end.

Definition render_code (code : option Z) : piece :=
  match code with
  | Some c => Int c
  | None => Lit "null"
  end.

(** The end of the 'exit' listener: clear the flag, emit 'stopped'. *)
Definition finish : M unit := update (set_isRecording false);; emit EvStopped.

(** The listener of the 'exit' event of the capture subprocess. *)
Definition onExit (code : option Z) : M unit :=
  r ← get;
  (if isSuccessful (gracePeriodActive r) code then handleSuccessfulRecording
   else console_warn [Lit "Recording failed - unexpected exit code: "; render_code code]);;
  finish.

Inductive stop_phase :=
| StopReturned     (* the guard returned at once *)
| StopGraceStarted. (* the grace period is running *)

(** [stopRecording] up to its first [await]. *)
Definition stopRecording : M stop_phase :=
  r ← get;
  if negb (isRecording r) || negb (bool_decide (is_Some (ffmpegProcess r)))
  then mret StopReturned
  else
    update (set_gracePeriodActive true);;
    perform (ESetTimeout (GRACE_PERIOD_SECONDS * 1000));;
    mret StopGraceStarted.

(** [stopRecording] after the grace period: wait for 'stopped', send SIGINT,
    arm the fallback. *)
Definition stopRecording_afterGrace : M unit :=
  update (fun r => set_stopWaiters (S (stopWaiters r)) r);;
  r ← get;
  match ffmpegProcess r with
  | Some p =>
      perform (EKill SIGINT);;
      update (set_ffmpegProcess (Some {| killed := true |}));;
      perform (ESetTimeout 8000)
  | None => throw (TypeError "Cannot read properties of null (reading 'kill')")
  end.

End ScreenRecorder.

(** *** The idealised segment muxer *)

(** Modelled from the spec: the media tool's segment muxer, which is not
    part of the repository. It cuts an input of [d] seconds into pieces of
    [segment_time] seconds and writes piece number [i], counted from 0, to
    the pattern with [%d] replaced by [i]. *)
Definition segment_count (d segment_time : Q) : nat :=
  Z.to_nat (Qceiling (d / segment_time)).

Definition segment_name (botUuid : string) (i : nat) : string :=
  botUuid +:+ "-" +:+ pretty i +:+ ".wav".

Definition segment_names (botUuid : string) (d segment_time : Q) : list string :=
  map (segment_name botUuid) (seq 0 (segment_count d segment_time)).

(** ** The stdout listener of setupStreamingAudio *)

Module Stream.

(** A Node [Buffer]: a view of [buf_length] bytes at [byteOffset] into the
    bytes of its [ArrayBuffer]. *)
Record Buffer := {
  buffer : list Byte.byte;
  byteOffset : nat;
  buf_length : nat;
}.

Definition wf_Buffer (data : Buffer) : Prop :=
  (byteOffset data + buf_length data <= length (buffer data))%nat.

(** The bytes of the chunk. *)
Definition bytes_of (data : Buffer) : list Byte.byte :=
  take (buf_length data) (drop (byteOffset data) (buffer data)).

(** One element of a [Float32Array]: the 32 bits of the float, read
    little-endian from four bytes. *)
Definition le32 (b0 b1 b2 b3 : Byte.byte) : Z :=
  Z.lor (Z.of_N (Byte.to_N b0))
    (Z.lor (Z.shiftl (Z.of_N (Byte.to_N b1)) 8)
       (Z.lor (Z.shiftl (Z.of_N (Byte.to_N b2)) 16)
              (Z.shiftl (Z.of_N (Byte.to_N b3)) 24))).

Fixpoint read_f32 (n : nat) (l : list Byte.byte) : list Z :=
  match n, l with
  | S n', b0 :: b1 :: b2 :: b3 :: rest => le32 b0 b1 b2 b3 :: read_f32 n' rest
  | _, _ => []
  end.

(** ECMAScript [ToIntegerOrInfinity] on a finite number: truncation. *)
Definition Qtruncate (q : Q) : Z :=
  if Qnum q <? 0 then Qceiling q else Qfloor q.

(** ECMAScript [ToIndex]. *)
Definition ToIndex (q : Q) : option nat :=
  let i := Qtruncate q in
  if i <? 0 then None else Some (Z.to_nat i).

Inductive outcome :=
| Delivered (float32Array : list Z)   (* processAudioChunk(float32Array) *)
| Ignored                             (* no Streaming.instance *)
| RangeError.                         (* the constructor threw *)

(** [new Float32Array(buffer, byteOffset, length)] on an [ArrayBuffer]. *)
Definition new_Float32Array (buf : list Byte.byte) (offset : nat) (len : Q)
    : option (list Z) :=
  if negb (offset mod 4 =? 0)%nat then None
  else
    match ToIndex len with
    | None => None
    | Some newLength =>
        if (length buf <? offset + newLength * 4)%nat then None
        else Some (read_f32 newLength (drop offset buf))
    end.

(** The listener of 'data' on the stdout of the capture subprocess. *)
Definition onData (streaming_instance : bool) (data : Buffer) : outcome :=
  if streaming_instance then
    match new_Float32Array (buffer data) (byteOffset data)
            (inject_Z (Z.of_nat (buf_length data)) / inject_Z 4)%Q with
    | Some float32Array => Delivered float32Array
    | None => RangeError
    end
  else Ignored.

End Stream.

(** ** The class WordsPoster *)

Module WordsPoster.

Record RecognizerWord := {
  text : string;
  start_time : Q;
  end_time : Q;
}.

(** The fields of a [TranscriptionResult] that the poster reads. *)
Abbreviation TranscriptionResult := RecognizerWord.

(** [startTime] and [endTime] are milliseconds. *)
Record TranscriptionSegment := {
  startTime : Z;
  endTime : Z;
}.

Inductive api_error :=
| GetBotFailed      (* the promise [bot_id] is rejected *)
| PostWordsFailed.  (* [api.postWords] rejected *)

(** A call of [api.postWords] and whether it resolved. *)
Record post := {
  post_words : list RecognizerWord;
  post_bot : Z;
  post_ok : bool;
}.

Record State := {
  processedSegments : gset string;
  bot_id : option Z;      (* how the promise settles: the id, or rejected *)
  posts : list post;      (* the calls of postWords so far *)
}.

Definition set_processedSegments (p : gset string) (s : State) : State :=
  {| processedSegments := p; bot_id := bot_id s; posts := posts s |}.
Definition add_post (p : post) (s : State) : State :=
  {| processedSegments := processedSegments s; bot_id := bot_id s;
     posts := posts s ++ [p] |}.

Section Poster.

(** Whether [api.postWords(words, bot)] resolves, given the earlier calls. *)
Variable postWords : list post -> list RecognizerWord -> Z -> bool.

Definition segmentKey (segment : TranscriptionSegment) : string :=
  pretty (startTime segment) +:+ "-" +:+ pretty (endTime segment).

Definition shift (segmentStartTime : Q) (result : TranscriptionResult) : RecognizerWord :=
  {| text := text result;
     start_time := (start_time result + segmentStartTime)%Q;
     end_time := (end_time result + segmentStartTime)%Q |}.

(** The body of the [try] block, after the key has been added. *)
Definition post_segment (results : list TranscriptionResult)
    (segment : TranscriptionSegment) (s : State) : (unit + api_error) * State :=
  let segmentStartTime := (inject_Z (startTime segment) / inject_Z 1000)%Q in
  let words := map (shift segmentStartTime) results in
  match bot_id s with
  | None => (inr GetBotFailed, s)
  | Some bot =>
      let ok := postWords (posts s) words bot in
      let s' := add_post {| post_words := words; post_bot := bot; post_ok := ok |} s in
      if ok then (inl tt, s') else (inr PostWordsFailed, s')
  end.

Definition saveToDatabase (results : list TranscriptionResult)
    (segment : TranscriptionSegment) (s : State) : (unit + api_error) * State :=
  let segmentKey := segmentKey segment in
  if bool_decide (segmentKey ∈ processedSegments s) then (inl tt, s)
  else
    match post_segment results segment
            (set_processedSegments ({[segmentKey]} ∪ processedSegments s) s) with
    | (inl tt, s') => (inl tt, s')
    | (inr error, s') =>
        (inr error, set_processedSegments (processedSegments s' ∖ {[segmentKey]}) s')
    end.

End Poster.

End WordsPoster.

(** ** Auxiliary definitions for the proofs *)

(** One block [if (fs.existsSync(p)) { await uploadFile(p, bucket, key);
    fs.unlinkSync(p) }] of [uploadToS3]. *)
Definition uploadArtifact (E : Externals) (p key : string) : M unit :=
  ex ← existsSync p;
  when ex (S3_uploadFile E p (aws_s3_video_bucket (GLOBAL E)) key false;;
           unlinkSync p).

(** A stretch of [uploadToS3] from [s] to [s'] with result [r]: the trace
    has grown by [t]; a file that is gone was unlinked right after its upload
    resolved; a rejected upload is what the stretch threw. *)
Definition upload_stretch (s : St) (r : res unit) (s' : St) (t : list event) : Prop :=
  trace (world s') = trace (world s) ++ t
  ∧ (∀ q, is_Some (files (world s) !! q) → files (world s') !! q = None →
       ∃ t1 t2 b k, t = t1 ++ [EUpload q b k false true; EUnlink q] ++ t2)
  ∧ (∀ p b k, EUpload p b k false false ∈ t → r = Throw (UploadFailed p)).

(** The offset and the duration of a tool run of the form
    [-i _ -ss x -t y ...]: the form of the final trim, and of no other run of
    the class. *)
Definition trim_shaped (args : list arg) : option (Q * Q) :=
  match args with
  | [Lit a] :: _ :: [Lit b] :: [Num x] :: [Lit c] :: [Num y] :: _ =>
      if String.eqb a "-i" && String.eqb b "-ss" && String.eqb c "-t"
      then Some (x, y) else None
  | _ => None
  end.

Definition not_trim (e : event) : Prop :=
  match e with
  | EFfmpeg args _ => trim_shaped args = None
  | _ => True
  end.

(** A computation that leaves the recorder object alone and adds to the
    trace, but no run of the form of the final trim. *)
Definition quiet {A} (m : M A) : Prop :=
  ∀ s r s', m s = (r, s') →
    this s' = this s
    ∧ ∃ t, trace (world s') = trace (world s) ++ t ∧ Forall not_trim t.

(** ** A concrete session, for the examples

    Scenario 1 of the specification: recording started at 1 000 000 ms, the
    meeting at 1 010 000 ms, the tone found at 7.20 s in the video and at
    7.05 s in the audio. The tools of this session always exit 0; [ffmpeg]
    leaves one file, the last entry of its argument vector. *)

Definition demo_global (mode : string) (provider : option string) : Global :=
  {| recording_mode := mode;
     speech_to_text_provider := provider;
     bot_uuid := "bot";
     aws_s3_temporary_audio_bucket := "audio-tmp";
     aws_s3_video_bucket := "video";
     isServerless := false |}.

Definition demo_paths : PathManager :=
  {| getOutputPath := "/out/id";
     getTempPath := "/tmp/rec";
     getAudioTmpPath := "/tmp/chunks";
     getIdentifier := "id" |}.

Definition demo_ffmpeg (args : list arg) (w : World) : proc_end * gmap string string :=
  (Closed 0,
   match last args with
   | Some [Lit out] => <[out := "media"]> (files w)
   | _ => files w
   end).

Definition demo_sync (videoTone audioTone : Q) : SyncResult :=
  {| offsetSeconds := (videoTone - audioTone)%Q;
     videoTimestamp := videoTone;
     audioTimestamp := audioTone |}.

(** [uploads p] tells whether the upload of the local file [p] resolves. *)
Definition demo_env (mode : string) (provider : option string) (now : nat -> Z)
    (videoTone audioTone : Q) (uploads : string -> bool) : Externals :=
  {| GLOBAL := demo_global mode provider;
     paths := demo_paths;
     s3Uploader := true;
     clock := now;
     ffmpeg := demo_ffmpeg;
     ffprobe := fun _ _ => (Closed 0, inject_Z 100);
     calculateVideoOffset := fun _ _ _ => Some (demo_sync videoTone audioTone);
     uploadFile := fun p _ _ _ _ => uploads p |}.

Definition demo_recorder (meetingStart : Z) (recording : bool) : Recorder :=
  {| ffmpegProcess := if recording then Some {| killed := false |} else None;
     outputPath := "/out/id.mp4";
     audioOutputPath := "/out/id.wav";
     isRecording := recording;
     filesUploaded := false;
     recordingStartTime := 1000000;
     meetingStartTime := meetingStart;
     gracePeriodActive := false;
     stopWaiters := 0 |}.

Definition demo_world : World :=
  {| files := {[ "/tmp/rec/raw.mp4" := "video"; "/tmp/rec/raw.wav" := "audio" ]};
     dirs := {[ "/tmp/rec"; "/out" ]};
     ticks := 0;
     trace := [] |}.

Definition demo_state (meetingStart : Z) (recording : bool) : St :=
  {| this := demo_recorder meetingStart recording; world := demo_world |}.

(** Scenario 1, video mode, no transcription provider. *)
Definition scenario1 : Externals :=
  demo_env "speaker_view" None (λ _, 1025000) (36 # 5) (141 # 20) (λ _, true).

(** Scenario 6: chunks waiting in the chunks directory, one of them empty,
    beside a file that is not a chunk; the upload of chunk 1 is rejected. *)
Definition scenario6 : Externals :=
  demo_env "audio_only" (Some "provider") (λ _, 1025000) (36 # 5) (141 # 20)
    (λ p, negb (String.eqb p "/tmp/chunks/bot-1.wav")).

Definition chunks_world : World :=
  {| files := {[ "/tmp/chunks/bot-0.wav" := "chunk 0";
                 "/tmp/chunks/bot-1.wav" := "chunk 1";
                 "/tmp/chunks/bot-2.wav" := "chunk 2";
                 "/tmp/chunks/bot-3.wav" := "";
                 "/tmp/chunks/notes.txt" := "notes" ]};
     dirs := {[ "/tmp/chunks" ]};
     ticks := 0;
     trace := [] |}.

Definition chunks_state : St :=
  {| this := demo_recorder 1010000 true; world := chunks_world |}.

(** The final artifacts are in place; the upload of the video is rejected. *)
Definition final_upload_env : Externals :=
  demo_env "speaker_view" None (λ _, 1025000) (36 # 5) (141 # 20)
    (λ p, negb (String.eqb p "/out/id.mp4")).

Definition final_world : World :=
  {| files := {[ "/out/id.wav" := "final audio"; "/out/id.mp4" := "final video" ]};
     dirs := {[ "/out" ]};
     ticks := 0;
     trace := [] |}.

Definition final_state : St :=
  {| this := demo_recorder 1010000 true; world := final_world |}.

(** A poster whose first call of [postWords] is rejected. *)
Definition flaky_postWords (earlier : list WordsPoster.post)
    (words : list WordsPoster.RecognizerWord) (bot : Z) : bool :=
  negb (length earlier =? 0)%nat.

Definition poster0 : WordsPoster.State :=
  {| WordsPoster.processedSegments := ∅;
     WordsPoster.bot_id := Some 7;
     WordsPoster.posts := [] |}.

Definition segment0 : WordsPoster.TranscriptionSegment :=
  {| WordsPoster.startTime := 5000; WordsPoster.endTime := 9000 |}.

Definition hello : WordsPoster.TranscriptionResult :=
  {| WordsPoster.text := "hello";
     WordsPoster.start_time := 1 # 2;
     WordsPoster.end_time := 1 |}.

(** A chunk of six bytes: the float 1.0 and half of the next sample. *)
Definition chunk6 : Stream.Buffer :=
  {| Stream.buffer := [Byte.x00; Byte.x00; Byte.x80; Byte.x3f; Byte.x00; Byte.x00];
     Stream.byteOffset := 0;
     Stream.buf_length := 6 |}.

(** Four bytes at offset 2 of a pooled [ArrayBuffer]. *)
Definition chunk_unaligned : Stream.Buffer :=
  {| Stream.buffer := [Byte.x00; Byte.x00; Byte.x00; Byte.x00; Byte.x80; Byte.x3f];
     Stream.byteOffset := 2;
     Stream.buf_length := 4 |}.

Definition is_console (e : event) : Prop :=
  match e with
  | EConsole _ _ => True
  | _ => False
  end.

(** ** The rest of the recorder's methods *)

Definition set_outputPath (p : string) (r : Recorder) : Recorder :=
  {| ffmpegProcess := ffmpegProcess r; outputPath := p;
     audioOutputPath := audioOutputPath r; isRecording := isRecording r;
     filesUploaded := filesUploaded r; recordingStartTime := recordingStartTime r;
     meetingStartTime := meetingStartTime r;
     gracePeriodActive := gracePeriodActive r; stopWaiters := stopWaiters r |}.
Definition set_audioOutputPath (p : string) (r : Recorder) : Recorder :=
  {| ffmpegProcess := ffmpegProcess r; outputPath := outputPath r;
     audioOutputPath := p; isRecording := isRecording r;
     filesUploaded := filesUploaded r; recordingStartTime := recordingStartTime r;
     meetingStartTime := meetingStartTime r;
     gracePeriodActive := gracePeriodActive r; stopWaiters := stopWaiters r |}.

Section ScreenRecorderMethods.

Variable E : Externals.

Definition generateOutputPaths : M unit :=
  if String.eqb (recording_mode (GLOBAL E)) "audio_only" then
    update (set_audioOutputPath (getOutputPath (paths E) +:+ ".wav"))
  else
    update (set_outputPath (getOutputPath (paths E) +:+ ".mp4"));;
    update (set_audioOutputPath (getOutputPath (paths E) +:+ ".wav")).

(** The callback of the 8 s timer that [stopRecording] arms after it has
    sent SIGINT. *)
Definition forceKillFallback : M unit :=
  r ← get;
  match ffmpegProcess r with
  | Some p =>
      if negb (killed p) then
        console_warn [Lit "Force killing FFmpeg process"];;
        perform (EKill SIGKILL);;
        update (set_ffmpegProcess (Some {| killed := true |}))
      else mret tt
  | None => mret tt
  end.

End ScreenRecorderMethods.

(** ** What a computation changes

    [r'] is [r] up to the meeting start time, which may have been set if it
    was not: what [syncAndMergeFiles] may do to the recorder. *)
Definition same_session (r r' : Recorder) : Prop :=
  ffmpegProcess r' = ffmpegProcess r
  ∧ outputPath r' = outputPath r
  ∧ audioOutputPath r' = audioOutputPath r
  ∧ isRecording r' = isRecording r
  ∧ filesUploaded r' = filesUploaded r
  ∧ recordingStartTime r' = recordingStartTime r
  ∧ gracePeriodActive r' = gracePeriodActive r
  ∧ stopWaiters r' = stopWaiters r
  ∧ (0 < meetingStartTime r → meetingStartTime r' = meetingStartTime r).

(** The same, but the flag [filesUploaded] may also have been raised: what
    post-processing as a whole may do. *)
Definition kept (r r' : Recorder) : Prop :=
  ffmpegProcess r' = ffmpegProcess r
  ∧ outputPath r' = outputPath r
  ∧ audioOutputPath r' = audioOutputPath r
  ∧ isRecording r' = isRecording r
  ∧ recordingStartTime r' = recordingStartTime r
  ∧ gracePeriodActive r' = gracePeriodActive r
  ∧ stopWaiters r' = stopWaiters r
  ∧ (0 < meetingStartTime r → meetingStartTime r' = meetingStartTime r)
  ∧ (filesUploaded r = true → filesUploaded r' = true).

(** Whatever its result, [m] takes the recorder to one related by [R] and
    adds to the trace only events that satisfy [P]. *)
Definition runs {A} (R : Recorder → Recorder → Prop) (P : event → Prop)
    (m : M A) : Prop :=
  ∀ s r s', m s = (r, s') →
    R (this s) (this s')
    ∧ ∃ t, trace (world s') = trace (world s) ++ t ∧ Forall P t.

(** The events of [createAudioChunks]: the chunk directory, the probe of
    the duration, the segmenter, the uploads of chunks to the temporary
    bucket. *)
Definition chunk_event (E : Externals) (e : event) : Prop :=
  match e with
  | EConsole _ _ | EMkdir _ | EFfprobe _ _ _ => True
  | EFfmpeg args _ =>
      ∃ a d, args = segment_args a d (chunkPattern (getAudioTmpPath (paths E))
                                                   (bot_uuid (GLOBAL E)))
  | EUpload _ b _ chunk _ =>
      chunk = true ∧ b = aws_s3_temporary_audio_bucket (GLOBAL E)
  | _ => False
  end.

(** The events of [syncAndMergeFiles] in audio-only mode. *)
Definition audio_only_event (E : Externals) (e : event) : Prop :=
  match e with
  | ECopy src _ => src = rawAudioPath E
  | _ => chunk_event E e
  end.

(** The events of [syncAndMergeFiles] in any mode: the only files unlinked
    are the two scratch files of the silence padding, the only uploads are
    those of chunks, nothing is emitted. *)
Definition sync_event (E : Externals) (e : event) : Prop :=
  match e with
  | EUnlink p => p = silenceFile E ∨ p = concatListFile E
  | EUpload _ b _ chunk _ =>
      chunk = true ∧ b = aws_s3_temporary_audio_bucket (GLOBAL E)
  | EEmit _ | EKill _ | ESetTimeout _ => False
  | _ => True
  end.

(** The events of [uploadToS3]: uploads to the video bucket, and the
    unlinking of what was uploaded. *)
Definition final_upload_event (E : Externals) (e : event) : Prop :=
  match e with
  | EUpload _ b _ chunk _ => chunk = false ∧ b = aws_s3_video_bucket (GLOBAL E)
  | EUnlink _ => True
  | _ => False
  end.

Definition is_emit (e : event) : Prop :=
  match e with
  | EEmit _ => True
  | _ => False
  end.

Definition is_final_upload (e : event) : Prop :=
  match e with
  | EUpload _ _ _ false _ => True
  | _ => False
  end.

(** ** The word poster over time *)

Module PosterRuns.

Import WordsPoster.

(** The field initialisers and the constructor of [WordsPoster]; [bot] is
    how the promise of [getBotId] settles. *)
Definition new_WordsPoster (bot : option Z) : State :=
  {| processedSegments := ∅; bot_id := bot; posts := [] |}.

Section Runs.

Variable postWords : list post -> list RecognizerWord -> Z -> bool.

(** The states a poster can be in: after the constructor, and after any
    call of [saveToDatabase] that has settled. *)
Inductive reachable (bot : option Z) : State -> Prop :=
| reach_new : reachable bot (new_WordsPoster bot)
| reach_save results segment s :
    reachable bot s →
    reachable bot (saveToDatabase postWords results segment s).2.

(** [saveToDatabase] up to its first [await]: the check of the key, and its
    insertion. *)
Inductive started :=
| Skipped                                   (* duplicate: returned at once *)
| InFlight (key : string) (words : list RecognizerWord).

Definition saveToDatabase_begin (results : list TranscriptionResult)
    (segment : TranscriptionSegment) (s : State) : started * State :=
  let segmentKey := segmentKey segment in
  if bool_decide (segmentKey ∈ processedSegments s) then (Skipped, s)
  else
    let s := set_processedSegments ({[segmentKey]} ∪ processedSegments s) s in
    let segmentStartTime := (inject_Z (startTime segment) / inject_Z 1000)%Q in
    (InFlight segmentKey (map (shift segmentStartTime) results), s).

(** The rest of a call in flight: the two [await]s and the [catch]. *)
Definition saveToDatabase_settle (key : string) (words : list RecognizerWord)
    (s : State) : (unit + api_error) * State :=
  match bot_id s with
  | None => (inr GetBotFailed, set_processedSegments (processedSegments s ∖ {[key]}) s)
  | Some bot =>
      let ok := postWords (posts s) words bot in
      let s' := add_post {| post_words := words; post_bot := bot; post_ok := ok |} s in
      if ok then (inl tt, s')
      else (inr PostWordsFailed,
            set_processedSegments (processedSegments s' ∖ {[key]}) s')
  end.

End Runs.

End PosterRuns.

(** The character [-]. *)
Definition dash : Ascii.ascii :=
  Ascii.Ascii true false true true false true false false.

(** A string without the character [-]. *)
Fixpoint dashless (s : string) : Prop :=
  match s with
  | EmptyString => True
  | String c s' => c ≠ dash ∧ dashless s'
  end.

(** ** Failures of the tools *)

(** The errors with which a run of a media tool, or the offset calculation,
    rejects. *)
Definition is_tool_error (e : error) : Prop :=
  match e with
  | FFmpegFailed _ | FFprobeFailed _ | SpawnFailed _ | OffsetFailed => True
  | _ => False
  end.

(** The event [ev] is the failed run that the error [e] reports. *)
Definition tool_failure (e : error) (ev : event) : Prop :=
  match e, ev with
  | FFmpegFailed c, EFfmpeg _ (Closed c') => c' = c ∧ c ≠ 0
  | FFprobeFailed c, EFfprobe _ (Closed c') _ => c' = c ∧ c ≠ 0
  | SpawnFailed tool, EFfmpeg _ SpawnErr => tool = "ffmpeg"
  | SpawnFailed tool, EFfprobe _ SpawnErr _ => tool = "ffprobe"
  | OffsetFailed, EOffset _ _ None => True
  | _, _ => False
  end.

(** [m] only adds to the trace, and when it throws the error of a tool, the
    failed run is the last thing it has done. *)
Definition failfast {A} (m : M A) : Prop :=
  ∀ s r s', m s = (r, s') →
    ∃ t, trace (world s') = trace (world s) ++ t
      ∧ ∀ e, r = Throw e → is_tool_error e →
          ∃ t0 ev, t = t0 ++ [ev] ∧ tool_failure e ev.

(** A session in which every run of [ffmpeg] exits with code 1. *)
Definition failing_env : Externals :=
  {| GLOBAL := demo_global "speaker_view" None;
     paths := demo_paths;
     s3Uploader := true;
     clock := λ _, 1025000;
     ffmpeg := λ _ w, (Closed 1, files w);
     ffprobe := λ _ _, (Closed 0, inject_Z 100);
     calculateVideoOffset := λ _ _ _, Some (demo_sync (36 # 5) (141 # 20));
     uploadFile := λ _ _ _ _ _, true |}.

(** The events of step 5 of the video branch, [prepareAudio]: the silence
    padding with its two scratch files, or the trim, or the plain copy, all
    from the raw audio to the processed audio. *)
Definition prepare_event (E : Externals) (e : event) : Prop :=
  match e with
  | EFfmpeg args _ =>
      (∃ pad, args = silence_args pad (silenceFile E))
      ∨ args = concat_args (concatListFile E) (processedAudioPath E)
      ∨ ∃ t, args = trim_args (rawAudioPath E) (processedAudioPath E) t
  | EWrite p _ => p = concatListFile E
  | EUnlink p => p = silenceFile E ∨ p = concatListFile E
  | ECopy src dst => src = rawAudioPath E ∧ dst = processedAudioPath E
  | _ => False
  end.

(** ** startRecording, waitForAudioDevices, buildNativeFFmpegArgs *)

Definition SCREENSHOT_PERIOD : Z := 5.
Definition SCREENSHOT_WIDTH : Z := 480.
Definition SCREENSHOT_HEIGHT : Z := 270.

Definition set_recordingStartTime (t : Z) (r : Recorder) : Recorder :=
  {| ffmpegProcess := ffmpegProcess r; outputPath := outputPath r;
     audioOutputPath := audioOutputPath r; isRecording := isRecording r;
     filesUploaded := filesUploaded r; recordingStartTime := t;
     meetingStartTime := meetingStartTime r;
     gracePeriodActive := gracePeriodActive r; stopWaiters := stopWaiters r |}.

(** [s.includes(sub)] *)
Definition includes (sub s : string) : bool :=
  match String.index 0 sub s with
  | Some _ => true
  | None => false
  end.

(** [s.replace(pat, rep)] for a string pattern: the first occurrence. *)
Fixpoint replace_first (pat rep s : string) : string :=
  if String.prefix pat s then
    rep +:+ String.substring (String.length pat)
              (String.length s - String.length pat)%nat s
  else
    match s with
    | EmptyString => EmptyString
    | String c s' => String c (replace_first pat rep s')
    end.

Module Start.

(** How one run of [pactl list sources short] goes: it closes with an exit
    code, having written [output]; or starting it throws. The 'error' event
    of the child process, to which the method does not listen, is not
    modelled. *)
Inductive probe :=
| Probed (exitCode : Z) (output : string)
| ProbeThrew.

Inductive start_error :=
| AlreadyInProgress     (* Error('Recording is already in progress') *)
| DevicesNotReady       (* Error('Audio devices not ready after maximum wait time ...') *)
| SpawnThrew            (* spawn('ffmpeg', ffmpegArgs, ...) threw *)
| SyncSignalFailed      (* generateSyncSignal rejected *)
| Inner (e : error).

(** What starting a recording does to the outside, in order. *)
Inductive start_event :=
| EPactl (r : probe)
| ESleep (ms : Z)
| ETest (args : list arg) (code : option Z)   (* the test run of ffmpeg *)
| ESpawn (args : list arg)                    (* the capture subprocess *)
| ESyncSignal (duration frequency : Z) (volume : Q) (ok : bool)
| EWarn (msg : list piece)
| EError (msg : list piece)
| EStarted (outputPath : string) (isAudioOnly : bool)
| EStartError (e : start_error).

(** The collaborators of [startRecording], beside those of the class. *)
Record Env := {
  ext : Externals;
  display : string;               (* this.config.display *)
  getScreenshotsPath : string;    (* PathManager.getInstance().getScreenshotsPath() *)
  pactl : nat -> probe;           (* the n-th run of pactl *)
  ffmpegTest : option Z;          (* exit code of the test run; None: spawn threw *)
  spawn_throws : bool;            (* spawn of the capture subprocess throws *)
  generateSyncSignal : bool;      (* the promise resolves *)
}.

Record state := {
  inner : St;
  log : list start_event;
  probes : nat;                   (* runs of pactl so far *)
}.

Definition onInner (f : St -> St) (s : state) : state :=
  {| inner := f (inner s); log := log s; probes := probes s |}.
Definition onRecorder (f : Recorder -> Recorder) : state -> state :=
  onInner (onThis f).
Definition say (e : start_event) (s : state) : state :=
  {| inner := inner s; log := log s ++ [e]; probes := probes s |}.
Definition set_probes (n : nat) (s : state) : state :=
  {| inner := inner s; log := log s; probes := n |}.

Inductive sres (A : Type) :=
| SOk (a : A)
| SThrow (e : start_error).
Arguments SOk {A} a.
Arguments SThrow {A} e.

Definition SM (A : Type) : Type := state -> sres A * state.

#[global] Instance SM_ret : MRet SM := fun A a s => (SOk a, s).
#[global] Instance SM_bind : MBind SM := fun A B f m s =>
  match m s with
  | (SOk a, s') => f a s'
  | (SThrow e, s') => (SThrow e, s')
  end.

Definition sthrow {A} (e : start_error) : SM A := fun s => (SThrow e, s).
Definition stry {A} (m : SM A) (h : start_error -> SM A) : SM A := fun s =>
  match m s with
  | (SOk a, s') => (SOk a, s')
  | (SThrow e, s') => h e s'
  end.
Definition tell (e : start_event) : SM unit := fun s => (SOk tt, say e s).
Definition modify (f : Recorder -> Recorder) : SM unit := fun s =>
  (SOk tt, onRecorder f s).
Definition read : SM Recorder := fun s => (SOk (this (inner s)), s).

(** A method of the class, run on the recorder inside. *)
Definition lift {A} (m : M A) : SM A := fun s =>
  match m (inner s) with
  | (Ok a, i) => (SOk a, onInner (fun _ => i) s)
  | (Throw e, i) => (SThrow (Inner e), onInner (fun _ => i) s)
  end.

(** [exitCode === 0 && output.includes('virtual_speaker.monitor')] *)
Definition device_ready (r : probe) : bool :=
  match r with
  | Probed exitCode output =>
      (exitCode =? 0) && includes "virtual_speaker.monitor" output
  | ProbeThrew => false
  end.

(** The time spent in [sleep]. *)
Fixpoint waited (t : list start_event) : Z :=
  match t with
  | [] => 0
  | ESleep ms :: t' => ms + waited t'
  | _ :: t' => waited t'
  end.

Definition is_ETest (e : start_event) : Prop :=
  match e with
  | ETest _ _ => True
  | _ => False
  end.

Definition is_ESpawn (e : start_event) : Prop :=
  match e with
  | ESpawn _ => True
  | _ => False
  end.

Section Methods.

Variable V : Env.

(** *** waitForAudioDevices *)

Definition maxAttempts : nat := 15.
Definition delayMs : Z := 1000.

Definition run_pactl : SM probe := fun s =>
  let r := pactl V (probes s) in
  (SOk r, say (EPactl r) (set_probes (S (probes s)) s)).

(** The [for] loop, with [n] attempts left; [true] when the device was
    seen. *)
Fixpoint probe_loop (n attempt : nat) : SM bool :=
  match n with
  | O => mret false
  | S n' =>
      r ← run_pactl;
      match r with
      | Probed exitCode output =>
          if (exitCode =? 0) && includes "virtual_speaker.monitor" output
          then mret true
          else tell (ESleep delayMs);; probe_loop n' (S attempt)
      | ProbeThrew =>
          tell (EWarn [Lit "Attempt "; Int (Z.of_nat attempt); Lit "/";
                        Int (Z.of_nat maxAttempts);
                        Lit ": Error checking audio device:"]);;
          tell (ESleep delayMs);;
          probe_loop n' (S attempt)
      end
  end.

Definition test_args : list arg :=
  [lit "-f"; lit "pulse"; lit "-i"; lit "virtual_speaker.monitor";
   lit "-t"; lit "0.1"; lit "-f"; lit "null"; lit "-"].

Definition waitForAudioDevices : SM unit :=
  ready ← probe_loop maxAttempts 1;
  if ready : bool then mret tt
  else
    tell (EWarn [Lit "Audio devices not confirmed ready after ";
                  Int (Z.of_nat maxAttempts); Lit " attempts, testing with FFmpeg..."]);;
    tell (ETest test_args (ffmpegTest V));;
    match ffmpegTest V with
    | Some testExitCode =>
        if testExitCode =? 0 then mret tt else sthrow DevicesNotReady
    | None =>
        tell (EError [Lit "FFmpeg audio test failed:"]);;
        sthrow DevicesNotReady
    end.

(** *** buildNativeFFmpegArgs *)

Definition screenshot_filter : arg :=
  [Lit "fps="; Num (1 / inject_Z SCREENSHOT_PERIOD);
   Lit ",crop=1280:720:0:160,scale="; Int SCREENSHOT_WIDTH; Lit ":";
   Int SCREENSHOT_HEIGHT].

Definition screenshotPattern (timestamp : Z) : string :=
  path_join (getScreenshotsPath V) (pretty timestamp +:+ "_%4d.png").

Definition streaming_output (map_ : string) : list arg :=
  [lit "-map"; lit map_; lit "-acodec"; lit "pcm_f32le"; lit "-ac"; lit "1";
   lit "-ar"; int STREAMING_SAMPLE_RATE; lit "-f"; lit "f32le"; lit "pipe:1"].

Definition screenshots_output (map_ : string) (timestamp : Z) : list arg :=
  [lit "-map"; lit map_; lit "-vf"; screenshot_filter; lit "-q:v"; lit "3";
   lit "-f"; lit "image2"; lit "-y";
   lit (replace_first ".png" ".jpg" (screenshotPattern timestamp))].

Definition video_input : list arg :=
  [lit "-f"; lit "x11grab"; lit "-video_size"; lit "1280x880";
   lit "-framerate"; lit "30"; lit "-i"; lit (display V)].

Definition audio_input : list arg :=
  [lit "-f"; lit "pulse"; lit "-i"; lit "virtual_speaker.monitor"].

Definition args_of (timestamp : Z) : list arg :=
  let tempDir := getTempPath (paths (ext V)) in
  if String.eqb (recording_mode (GLOBAL (ext V))) "audio_only" then
    let rawAudioPath := path_join tempDir "raw.wav" in
    audio_input ++ video_input
    ++ [lit "-map"; lit "0:a:0"; lit "-acodec"; lit "pcm_s16le"; lit "-ac"; lit "1";
        lit "-ar"; int AUDIO_SAMPLE_RATE; lit "-avoid_negative_ts"; lit "make_zero";
        lit "-f"; lit "wav"; lit "-y"; lit rawAudioPath]
    ++ screenshots_output "1:v:0" timestamp
    ++ streaming_output "0:a:0"
  else
    let rawVideoPath := path_join tempDir "raw.mp4" in
    let rawAudioPath := path_join tempDir "raw.wav" in
    video_input ++ audio_input
    ++ [lit "-map"; lit "0:v:0"; lit "-c:v"; lit "libx264"; lit "-preset"; lit "fast";
        lit "-crf"; lit "23"; lit "-profile:v"; lit "main"; lit "-level"; lit "4.0";
        lit "-pix_fmt"; lit "yuv420p"; lit "-g"; lit "30"; lit "-keyint_min"; lit "30";
        lit "-bf"; lit "0"; lit "-refs"; lit "1"; lit "-vf"; lit "crop=1280:720:0:160";
        lit "-avoid_negative_ts"; lit "make_zero"; lit "-f"; lit "mp4";
        lit "-y"; lit rawVideoPath]
    ++ [lit "-map"; lit "1:a:0"; lit "-vn"; lit "-acodec"; lit "pcm_s16le";
        lit "-ac"; lit "1"; lit "-ar"; int AUDIO_SAMPLE_RATE;
        lit "-avoid_negative_ts"; lit "make_zero"; lit "-f"; lit "wav";
        lit "-y"; lit rawAudioPath]
    ++ screenshots_output "0:v:0" timestamp
    ++ streaming_output "1:a:0".

Definition buildNativeFFmpegArgs : SM (list arg) :=
  timestamp ← lift (Date_now (ext V));
  mret (args_of timestamp).

(** *** startRecording *)

Definition startRecording : SM unit :=
  r ← read;
  if isRecording r then sthrow AlreadyInProgress
  else
    lift (generateOutputPaths (ext V));;
    stry
      (waitForAudioDevices;;
       ffmpegArgs ← buildNativeFFmpegArgs;
       (if spawn_throws V then sthrow SpawnThrew
        else tell (ESpawn ffmpegArgs);;
             modify (set_ffmpegProcess (Some {| killed := false |})));;
       modify (set_isRecording true);;
       now ← lift (Date_now (ext V));
       modify (set_recordingStartTime now);;
       modify (set_gracePeriodActive false);;
       tell (ESleep FLASH_SCREEN_SLEEP_TIME);;
       tell (ESyncSignal 800 1000 (95 # 100) (generateSyncSignal V));;
       (if generateSyncSignal V then mret tt else sthrow SyncSignalFailed);;
       r ← read;
       tell (EStarted (outputPath r)
                (String.eqb (recording_mode (GLOBAL (ext V))) "audio_only")))
      (fun error =>
         tell (EError [Lit "Failed to start native recording:"]);;
         modify (set_isRecording false);;
         tell (EStartError error);;
         sthrow error).

End Methods.

End Start.

(** ** The state CleanupState (state-machine/states/cleanup-state.ts)

    The state stops the collaborators of a meeting in a fixed order and then
    moves on to the final state. A synchronous call of a collaborator
    returns or throws; a promise resolves, rejects, or is still pending when
    the timer it is raced against fires. The lines of the console are left
    out; [transition], a method of the base class, is taken to return. *)

Module Cleanup.

(** What is thrown: an [Error] with its message, or some other value. *)
Inductive thrown :=
| Error (message : string)
| NotAnError.

Inductive call_outcome :=
| Returns
| Throws (e : thrown).

Inductive settle :=
| Resolves
| Rejects (e : thrown)
| Pending.

Inductive MeetingStateType := Terminated.

(** The calls that the state makes, in order. *)
Inductive call :=
| StopGlobalDialogObserver      (* context.dialogObserver.stopGlobalDialogObserver() *)
| StopRecording                 (* ScreenRecorderManager.getInstance().stopRecording() *)
| StopStreaming                 (* context.streamingService.stop() *)
| StopObserving                 (* context.speakersObserver.stopObserving() *)
| StopHtmlCleaner               (* context.htmlCleaner.stop() *)
| KillBranding                  (* context.brandingProcess.kill() *)
| StopVideoContext              (* VideoContext.instance?.stop() *)
| StopSoundContext              (* SoundContext.instance?.stop() *)
| ClosePage                     (* context.playwrightPage?.close() *)
| CloseBrowserContext           (* context.browserContext?.close() *)
| ClearMeetingTimeout           (* clearTimeout(context.meetingTimeoutInterval) *)
| Transition (next : MeetingStateType).

(** The fields of [this.context] that the state reads: whether each is
    set. *)
Record Context := {
  dialogObserver : bool;
  streamingService : bool;
  speakersObserver : bool;
  htmlCleaner : bool;
  brandingProcess : bool;
  playwrightPage : bool;
  browserContext : bool;
  meetingTimeoutInterval : bool;
}.

Definition set_speakersObserver (b : bool) (c : Context) : Context :=
  {| dialogObserver := dialogObserver c; streamingService := streamingService c;
     speakersObserver := b; htmlCleaner := htmlCleaner c;
     brandingProcess := brandingProcess c; playwrightPage := playwrightPage c;
     browserContext := browserContext c;
     meetingTimeoutInterval := meetingTimeoutInterval c |}.
Definition set_htmlCleaner (b : bool) (c : Context) : Context :=
  {| dialogObserver := dialogObserver c; streamingService := streamingService c;
     speakersObserver := speakersObserver c; htmlCleaner := b;
     brandingProcess := brandingProcess c; playwrightPage := playwrightPage c;
     browserContext := browserContext c;
     meetingTimeoutInterval := meetingTimeoutInterval c |}.

(** How the collaborators behave when called. *)
Record Env := {
  isCurrentlyRecording : bool;              (* of the recorder singleton *)
  stopRecording : settle;
  stopGlobalDialogObserver : call_outcome;
  streaming_stop : call_outcome;
  stopObserving : call_outcome;
  htmlCleaner_stop : settle;
  branding_kill : call_outcome;
  VideoContext_stop : option call_outcome;  (* None: no instance *)
  SoundContext_stop : option call_outcome;
  page_close : settle;
  browserContext_close : settle;
}.

Record state := {
  context : Context;
  calls : list call;
}.

Definition onContext (f : Context -> Context) (s : state) : state :=
  {| context := f (context s); calls := calls s |}.
Definition called (c : call) (s : state) : state :=
  {| context := context s; calls := calls s ++ [c] |}.

(** An [async] method: it returns, throws, or never settles. *)
Inductive cres (A : Type) :=
| Done (a : A)
| Thrown (e : thrown)
| Stuck.
Arguments Done {A} a.
Arguments Thrown {A} e.
Arguments Stuck {A}.

Definition CM (A : Type) : Type := state -> cres A * state.

#[global] Instance CM_ret : MRet CM := fun A a s => (Done a, s).
#[global] Instance CM_bind : MBind CM := fun A B f m s =>
  match m s with
  | (Done a, s') => f a s'
  | (Thrown e, s') => (Thrown e, s')
  | (Stuck, s') => (Stuck, s')
  end.

Definition cthrow {A} (e : thrown) : CM A := fun s => (Thrown e, s).
Definition ctry {A} (m : CM A) (h : thrown -> CM A) : CM A := fun s =>
  match m s with
  | (Thrown e, s') => h e s'
  | r => r
  end.
Definition getContext : CM Context := fun s => (Done (context s), s).
Definition setContext (f : Context -> Context) : CM unit := fun s =>
  (Done tt, onContext f s).
Definition cwhen (b : bool) (m : CM unit) : CM unit := if b then m else mret tt.

(** A synchronous call. *)
Definition invoke (c : call) (o : call_outcome) : CM unit := fun s =>
  match o with
  | Returns => (Done tt, called c s)
  | Throws e => (Thrown e, called c s)
  end.

(** [await] of the promise that a call returns. *)
Definition await (c : call) (o : settle) : CM unit := fun s =>
  match o with
  | Resolves => (Done tt, called c s)
  | Rejects e => (Thrown e, called c s)
  | Pending => (Stuck, called c s)
  end.

(** [await Promise.race([m, rejectAfter(ms, message)])]: what has not
    settled when the timer fires loses the race. *)
Definition race_timeout {A} (message : string) (m : CM A) : CM A := fun s =>
  match m s with
  | (Stuck, s') => (Thrown (Error message), s')
  | r => r
  end.

(** [error instanceof Error && error.message?.includes(sub)] *)
Definition message_includes (sub : string) (e : thrown) : bool :=
  match e with
  | Error message => includes sub message
  | NotAnError => false
  end.

(** [await Promise.allSettled(l)] for promises started in the order of [l]:
    all are started; a rejection is swallowed; it settles when all have. *)
Fixpoint allSettled (l : list (CM unit)) : CM unit :=
  match l with
  | [] => mret tt
  | m :: l' => fun s =>
      match m s with
      | (Stuck, s') =>
          match allSettled l' s' with
          | (_, s'') => (Stuck, s'')
          end
      | (_, s') => allSettled l' s'
      end
  end.

Section Methods.

Variable V : Env.

Definition stopDialogObserver : CM unit :=
  c ← getContext;
  cwhen (dialogObserver c) (invoke StopGlobalDialogObserver (stopGlobalDialogObserver V)).

Definition stopScreenRecorder : CM unit :=
  ctry
    (cwhen (isCurrentlyRecording V) (await StopRecording (stopRecording V)))
    (fun error =>
       if message_includes "not recording" error then mret tt else cthrow error).

Definition stopSpeakersObserver : CM unit :=
  ctry
    (c ← getContext;
     cwhen (speakersObserver c)
       (race_timeout "Speakers observer stop timeout"
          (invoke StopObserving (stopObserving V);;
           setContext (set_speakersObserver false))))
    (fun error =>
       cwhen (message_includes "timeout" error)
         (setContext (set_speakersObserver false))).

Definition stopHtmlCleaner : CM unit :=
  ctry
    (c ← getContext;
     cwhen (htmlCleaner c)
       (race_timeout "HTML cleaner stop timeout"
          (await StopHtmlCleaner (htmlCleaner_stop V));;
        setContext (set_htmlCleaner false)))
    (fun error =>
       cwhen (message_includes "timeout" error)
         (setContext (set_htmlCleaner false))).

(** [x?.close().catch(() => {})]: the call is made, a rejection is
    swallowed. *)
Definition close_quietly (present : bool) (c : call) (o : settle) : CM settle :=
  fun s =>
    if present then
      (Done match o with Rejects _ => Resolves | _ => o end, called c s)
    else (Done Resolves, s).

Definition optional_stop (c : call) (o : option call_outcome) : CM unit :=
  match o with
  | Some o => invoke c o
  | None => mret tt
  end.

Definition cleanupBrowserResources : CM unit :=
  ctry
    (c ← getContext;
     cwhen (brandingProcess c) (invoke KillBranding (branding_kill V));;
     optional_stop StopVideoContext (VideoContext_stop V);;
     optional_stop StopSoundContext (SoundContext_stop V);;
     p ← close_quietly (playwrightPage c) ClosePage (page_close V);
     b ← close_quietly (browserContext c) CloseBrowserContext (browserContext_close V);
     (match p, b with
      | Resolves, Resolves => mret tt
      | _, _ => fun s => (Stuck, s)
      end);;
     cwhen (meetingTimeoutInterval c)
       (fun s => (Done tt, called ClearMeetingTimeout s)))
    (fun error => mret tt).

(** The three promises of steps 2 to 4, in the order in which they are
    started. *)
Definition parallel_steps : list (CM unit) :=
  [(c ← getContext;
    cwhen (streamingService c) (invoke StopStreaming (streaming_stop V)));
   stopSpeakersObserver;
   stopHtmlCleaner].

Definition performCleanup : CM unit :=
  ctry
    (stopDialogObserver;;
     stopScreenRecorder;;
     allSettled parallel_steps;;
     cleanupBrowserResources)
    (fun error => mret tt).

Definition transition (next : MeetingStateType) : CM MeetingStateType := fun s =>
  (Done next, called (Transition next) s).

Definition execute : CM MeetingStateType :=
  ctry
    (ctry (race_timeout "Cleanup timeout" performCleanup) (fun error => mret tt);;
     transition Terminated)
    (fun error => transition Terminated).

End Methods.

(** [m] makes calls out of [allowed] only, each at most once and in the
    order of [allowed]. *)
Definition makes {A} (allowed : list call) (m : CM A) : Prop :=
  ∀ s r s', m s = (r, s') → ∃ t, calls s' = calls s ++ t ∧ sublist t allowed.

(** The calls of steps 2 to 5, in the order of the source. *)
Definition later_steps : list call :=
  [StopStreaming; StopObserving; StopHtmlCleaner; KillBranding; StopVideoContext;
   StopSoundContext; ClosePage; CloseBrowserContext; ClearMeetingTimeout].

(** The recorder has nothing to stop, or its stop has resolved, or was
    rejected because the recorder was not recording. *)
Definition recorder_settled (V : Env) : Prop :=
  isCurrentlyRecording V = false
  ∨ stopRecording V = Resolves
  ∨ ∃ e, stopRecording V = Rejects e ∧ message_includes "not recording" e = true.

(** [X.instance] is there. *)
Definition has_instance (o : option call_outcome) : bool :=
  match o with
  | Some _ => true
  | None => false
  end.

(** [c] when [b], in a list of calls. *)
Definition opt (b : bool) (c : call) : list call := if b then [c] else [].

(** [m] never throws; [m] always settles. *)
Definition never_throws {A} (m : CM A) : Prop :=
  ∀ s r s', m s = (r, s') → ∀ e, r ≠ Thrown e.
Definition settles {A} (m : CM A) : Prop :=
  ∀ s r s', m s = (r, s') → r ≠ Stuck.

(** Every synchronous call returns and every promise resolves. *)
Definition all_well (V : Env) : Prop :=
  stopRecording V = Resolves
  ∧ stopGlobalDialogObserver V = Returns
  ∧ streaming_stop V = Returns
  ∧ stopObserving V = Returns
  ∧ htmlCleaner_stop V = Resolves
  ∧ branding_kill V = Returns
  ∧ (VideoContext_stop V = None ∨ VideoContext_stop V = Some Returns)
  ∧ (SoundContext_stop V = None ∨ SoundContext_stop V = Some Returns)
  ∧ page_close V = Resolves
  ∧ browserContext_close V = Resolves.

(** A meeting whose cleanup meets no failure, and one whose recorder never
    answers the stop. *)
Definition calm_env : Env :=
  {| isCurrentlyRecording := true; stopRecording := Resolves;
     stopGlobalDialogObserver := Returns; streaming_stop := Returns;
     stopObserving := Returns; htmlCleaner_stop := Resolves;
     branding_kill := Returns; VideoContext_stop := Some Returns;
     SoundContext_stop := None; page_close := Resolves;
     browserContext_close := Resolves |}.

Definition hung_recorder_env : Env :=
  {| isCurrentlyRecording := true; stopRecording := Pending;
     stopGlobalDialogObserver := Returns; streaming_stop := Returns;
     stopObserving := Returns; htmlCleaner_stop := Resolves;
     branding_kill := Returns; VideoContext_stop := Some Returns;
     SoundContext_stop := None; page_close := Resolves;
     browserContext_close := Resolves |}.

Definition full_context : Context :=
  {| dialogObserver := true; streamingService := true; speakersObserver := true;
     htmlCleaner := true; brandingProcess := false; playwrightPage := true;
     browserContext := true; meetingTimeoutInterval := true |}.

Definition meeting_state : state := {| context := full_context; calls := [] |}.

End Cleanup.

(** ** Further concrete sessions *)

(** The session of scenario 1 on a serverless deployment. *)
Definition serverless_env : Externals :=
  {| GLOBAL := {| recording_mode := "speaker_view";
                  speech_to_text_provider := None;
                  bot_uuid := "bot";
                  aws_s3_temporary_audio_bucket := "audio-tmp";
                  aws_s3_video_bucket := "video";
                  isServerless := true |};
     paths := demo_paths;
     s3Uploader := true;
     clock := λ _, 1025000;
     ffmpeg := demo_ffmpeg;
     ffprobe := λ _ _, (Closed 0, inject_Z 100);
     calculateVideoOffset := λ _ _ _, Some (demo_sync (36 # 5) (141 # 20));
     uploadFile := λ _ _ _ _ _, true |}.

(** An audio-only session whose capture left nothing behind. *)
Definition empty_world : World :=
  {| files := ∅; dirs := {[ "/tmp/rec"; "/out" ]}; ticks := 0; trace := [] |}.

Definition lost_audio_state : St :=
  {| this := demo_recorder 1010000 true; world := empty_world |}.

(** Starting the session of scenario 1: the audio device shows up at probe
    number [ready_at], counted from 0; the test run of the media tool would
    fail. *)
Definition start_env (ready_at : nat) (sync_ok : bool) : Start.Env :=
  {| Start.ext := scenario1;
     Start.display := ":99";
     Start.getScreenshotsPath := "/tmp/shots";
     Start.pactl := λ n, if (n <? ready_at)%nat then Start.Probed 0 "0 auto_null.monitor"
                         else Start.Probed 0 "1 virtual_speaker.monitor module-null-sink.c";
     Start.ffmpegTest := Some 1;
     Start.spawn_throws := false;
     Start.generateSyncSignal := sync_ok |}.

Definition start_state (uploaded : bool) : Start.state :=
  {| Start.inner := {| this := set_filesUploaded uploaded (demo_recorder 0 false);
                       world := demo_world |};
     Start.log := [];
     Start.probes := 0 |}.

(** * Properties *)

(** ** States *)

Lemma St_ext (s : St) (r : Recorder) (w : World) :
  this s = r → world s = w → s = {| this := r; world := w |}.
Proof. destruct s; simpl; intros; by subst. Qed.

Lemma World_ext (w : World) f d n t :
  files w = f → dirs w = d → ticks w = n → trace w = t →
  w = {| files := f; dirs := d; ticks := n; trace := t |}.
Proof. destruct w; simpl; intros; by subst. Qed.

(** ** Exit of the capture subprocess *)

Section ExitFacts.

Variable E : Externals.

Lemma finish_spec (s : St) :
  ∃ s', finish s = (Ok tt, s')
        ∧ isRecording (this s') = false
        ∧ files (world s') = files (world s)
        ∧ trace (world s') = trace (world s) ++ [EEmit EvStopped].
Proof.
  unfold finish, emit, update, perform, get, when, mbind, M_bind; simpl.
  destruct (0 <? stopWaiters (this s))%nat; simpl; eauto.
Qed.

Lemma handleSuccessfulRecording_returns (s : St) :
  ∃ s', handleSuccessfulRecording E s = (Ok tt, s').
Proof.
  unfold handleSuccessfulRecording, try_catch.
  match goal with |- context [match ?m s with _ => _ end] => destruct (m s) as [[[]|e] s1] end.
  - eauto.
  - unfold console_error, emit, perform, mbind, M_bind, mret, M_ret; simpl. eauto.
Qed.

Lemma onExit_unfold (code : option Z) (s : St) :
  onExit E code s =
    if isSuccessful (gracePeriodActive (this s)) code
    then (handleSuccessfulRecording E;; finish) s
    else (console_warn [Lit "Recording failed - unexpected exit code: "; render_code code];;
          finish) s.
Proof.
  unfold onExit, finish, get, mbind, M_bind; simpl.
  destruct (isSuccessful _ _); reflexivity.
Qed.

End ExitFacts.


(** ** stopRecording *)

(** A running session: the guard is passed, the grace-period flag is set and
    the grace timer is started. *)
Lemma stopRecording_running (s : St) (p : process) :
  isRecording (this s) = true →
  ffmpegProcess (this s) = Some p →
  stopRecording s =
    (Ok StopGraceStarted,
     onWorld (record (ESetTimeout 3000)) (onThis (set_gracePeriodActive true) s)).
Proof.
  intros Hr Hp. unfold stopRecording, get, update, perform, mbind, M_bind, mret, M_ret.
  simpl. rewrite Hr, Hp. reflexivity.
Qed.

(** C9. Stop on a session that is not recording, or has no capture
    subprocess, returns at once and leaves the recorder and the world as they
    were: the grace-period flag is not set, no signal or timer is issued.
    Calling it again does the same. *)
Theorem stopRecording_noop (s : St) :
  isRecording (this s) = false ∨ ffmpegProcess (this s) = None →
  stopRecording s = (Ok StopReturned, s)
  ∧ (stopRecording ≫= (λ _, stopRecording)) s = (Ok StopReturned, s).
Proof.
  intros H.
  assert (Hs : stopRecording s = (Ok StopReturned, s)).
  { unfold stopRecording, get, mbind, M_bind, mret, M_ret.
    destruct H as [-> | ->]; simpl; [reflexivity|].
    destruct (isRecording (this s)); reflexivity. }
  split; [exact Hs|].
  unfold mbind, M_bind at 1. rewrite Hs. exact Hs.
Qed.

(** ** WordsPoster.saveToDatabase *)

Section PosterFacts.

Import WordsPoster.

Variable postWords : list post -> list RecognizerWord -> Z -> bool.

Lemma rollback_set (key : string) (P : gset string) :
  key ∉ P → ({[key]} ∪ P) ∖ {[key]} = P.
Proof.
  intros Hk. apply set_eq. intros x.
  rewrite elem_of_difference, elem_of_union, elem_of_singleton.
  split.
  - intros [[Hx|Hx] Hne]; [contradiction|exact Hx].
  - intros Hx. split; [by right|]. intros Heq. apply Hk. by rewrite <- Heq.
Qed.

Lemma saveToDatabase_fresh results segment (s : State) :
  segmentKey segment ∉ processedSegments s →
  saveToDatabase postWords results segment s =
    match bot_id s with
    | None => (inr GetBotFailed, s)
    | Some bot =>
        let words := map (shift (inject_Z (startTime segment) / inject_Z 1000)%Q) results in
        let ok := postWords (posts s) words bot in
        let p := {| post_words := words; post_bot := bot; post_ok := ok |} in
        if ok
        then (inl tt, add_post p (set_processedSegments
                                    ({[segmentKey segment]} ∪ processedSegments s) s))
        else (inr PostWordsFailed, add_post p s)
    end.
Proof.
  intros Hk. unfold saveToDatabase. rewrite bool_decide_eq_false_2 by done.
  unfold post_segment. destruct s as [P b ps]; simpl in *.
  destruct b as [bot|]; simpl.
  - destruct (postWords ps _ bot); simpl; [reflexivity|].
    unfold set_processedSegments, add_post; simpl. by rewrite rollback_set.
  - unfold set_processedSegments; simpl. by rewrite rollback_set.
Qed.

End PosterFacts.


(** ** The stdout listener *)

Section StreamFacts.

Import Stream.

Lemma read_f32_length (k : nat) (l : list Byte.byte) :
  (4 * k <= length l)%nat → length (read_f32 k l) = k.
Proof.
  revert l. induction k as [|k IH]; intros l Hl; [reflexivity|].
  destruct l as [|b0 [|b1 [|b2 [|b3 rest]]]]; simpl in Hl; try lia.
  simpl. f_equal. apply IH. lia.
Qed.

Lemma read_f32_take (k n : nat) (l : list Byte.byte) :
  (4 * k <= n)%nat → read_f32 k (take n l) = read_f32 k l.
Proof.
  revert n l. induction k as [|k IH]; intros n l Hn; [reflexivity|].
  destruct n as [|[|[|[|n]]]]; try lia.
  destruct l as [|b0 [|b1 [|b2 [|b3 rest]]]]; try reflexivity.
  simpl. f_equal. apply IH. lia.
Qed.

(** [data.length / 4] as an index: the quotient, rounded down. *)
Lemma ToIndex_length_div_4 (n : nat) :
  ToIndex (inject_Z (Z.of_nat n) / inject_Z 4)%Q = Some (n / 4)%nat.
Proof.
  unfold ToIndex, Qtruncate.
  change (inject_Z (Z.of_nat n) / inject_Z 4)%Q with (Z.of_nat n * 1 # 4)%Q.
  unfold Qfloor. cbn [Qnum]. rewrite Z.mul_1_r.
  destruct (Z.ltb_spec (Z.of_nat n) 0) as [Hneg|_]; [lia|].
  assert (Hdiv : Z.of_nat n / 4 = Z.of_nat (n / 4)).
  { change 4 with (Z.of_nat 4) at 1. symmetry. apply Nat2Z.inj_div. }
  rewrite Hdiv.
  destruct (Z.ltb_spec (Z.of_nat (n / 4)) 0) as [Hneg|_]; [lia|].
  by rewrite Nat2Z.id.
Qed.

End StreamFacts.

(** C6, as stated, fails on a chunk of six bytes: one sample is handed to
    the sink, the last two bytes are dropped; and on a chunk that starts at
    an odd multiple of 2 in its [ArrayBuffer] the constructor throws. *)
Lemma fanout_drops_trailing_bytes :
  Stream.wf_Buffer chunk6
  ∧ Stream.buf_length chunk6 = 6%nat
  ∧ Stream.onData true chunk6 = Stream.Delivered [1065353216]
  ∧ Stream.wf_Buffer chunk_unaligned
  ∧ Stream.onData true chunk_unaligned = Stream.RangeError.
Proof.
  unfold Stream.wf_Buffer. simpl. repeat split; try lia; reflexivity.
Qed.

(** C6 (amended). While a streaming sink exists, a chunk that starts at a
    multiple of 4 in its [ArrayBuffer] is handed to the sink as
    [floor(len / 4)] samples, the little-endian reading of its first
    [4 * floor(len / 4)] bytes; when [len] is a multiple of 4 these are
    [len / 4] samples and cover the whole chunk. A chunk that starts
    elsewhere makes the listener throw. *)
Theorem fanout_floor (data : Stream.Buffer) :
  Stream.wf_Buffer data →
  ((Stream.byteOffset data mod 4 = 0)%nat →
     let frame := Stream.read_f32 (Stream.buf_length data / 4) (Stream.bytes_of data) in
     Stream.onData true data = Stream.Delivered frame
     ∧ length frame = (Stream.buf_length data / 4)%nat
     ∧ ((Stream.buf_length data mod 4 = 0)%nat →
          (4 * length frame = Stream.buf_length data)%nat))
  ∧ ((Stream.byteOffset data mod 4 ≠ 0)%nat →
     Stream.onData true data = Stream.RangeError).
Proof.
  intros Hwf. unfold Stream.wf_Buffer in Hwf.
  destruct data as [buf off n].
  cbn [Stream.buffer Stream.byteOffset Stream.buf_length] in *.
  pose proof (Nat.div_mod_eq n 4) as Hdm.
  pose proof (Nat.mod_upper_bound n 4 ltac:(lia)) as Hlt.
  split.
  - intros Hal.
    set (frame := Stream.read_f32 (n / 4) (Stream.bytes_of _)).
    assert (Hlen : length frame = (n / 4)%nat).
    { apply read_f32_length. unfold Stream.bytes_of.
      cbn [Stream.buffer Stream.byteOffset Stream.buf_length].
      rewrite length_take, length_drop. lia. }
    split; [|split; [exact Hlen|intros Hm; lia]].
    unfold Stream.onData, Stream.new_Float32Array.
    cbn [Stream.buffer Stream.byteOffset Stream.buf_length].
    rewrite Hal, ToIndex_length_div_4. cbn [Nat.eqb negb].
    destruct (Nat.ltb_spec (length buf) (off + n / 4 * 4)) as [Hbad|_]; [lia|].
    f_equal. unfold frame, Stream.bytes_of.
    cbn [Stream.buffer Stream.byteOffset Stream.buf_length].
    symmetry. apply read_f32_take. lia.
  - intros Hal. unfold Stream.onData, Stream.new_Float32Array.
    cbn [Stream.buffer Stream.byteOffset Stream.buf_length].
    destruct (Nat.eqb_spec (off mod 4) 0); [contradiction|reflexivity].
Qed.

Lemma fanout_floor_witness :
  Stream.wf_Buffer chunk6
  ∧ (Stream.byteOffset chunk6 mod 4 = 0)%nat
  ∧ Stream.onData true chunk6 = Stream.Delivered [1065353216]
  ∧ length (Stream.read_f32 (6 / 4) (Stream.bytes_of chunk6)) = 1%nat
  ∧ Stream.wf_Buffer chunk_unaligned
  ∧ Stream.onData true chunk_unaligned = Stream.RangeError.
Proof.
  assert (Hwf : Stream.wf_Buffer chunk6) by (unfold Stream.wf_Buffer; simpl; lia).
  assert (Hwf' : Stream.wf_Buffer chunk_unaligned) by (unfold Stream.wf_Buffer; simpl; lia).
  destruct (fanout_floor chunk6 Hwf) as [Hal _].
  destruct (Hal eq_refl) as (Hrun & Hlen & _).
  destruct (fanout_floor chunk_unaligned Hwf') as [_ Hbad].
  split; [exact Hwf|]. split; [reflexivity|]. split; [exact Hrun|].
  split; [exact Hlen|]. split; [exact Hwf'|].
  apply Hbad. discriminate.
Defined.

(** ** The meeting-time fallback *)

Section FallbackFacts.

Variable E : Externals.

(** The fallback with [meetingStartTime] unset: six lines are logged, the
    clock is read three times, and the third reading decides. *)
Lemma meetingTimeFallback_unset (s : St) :
  meetingStartTime (this s) <= 0 →
  let n := ticks (world s) in
  ∃ t, Forall is_console t ∧
    meetingTimeFallback E s =
      if 10000 <? clock E (n + 2) - recordingStartTime (this s)
      then (Ok tt,
            {| this := set_meetingStartTime (clock E (n + 3) - 5000) (this s);
               world := {| files := files (world s); dirs := dirs (world s);
                           ticks := n + 4; trace := trace (world s) ++ t
                             ++ [EConsole LWarn [Lit "Setting meetingStartTime to 5s before bot removal to avoid showing pre-meeting phase"]] |} |})
      else (Throw (JoinError BotRemovedTooEarly),
            {| this := this s;
               world := {| files := files (world s); dirs := dirs (world s);
                           ticks := n + 3; trace := trace (world s) ++ t |} |}).
Proof.
  intros Hm n.
  replace (n + 2)%nat with (S (S n)) by lia.
  replace (n + 3)%nat with (S (S (S n))) by lia.
  replace (n + 4)%nat with (S (S (S (S n)))) by lia.
  exists [EConsole LError [Lit "Bot removed too early - meetingStartTime not set (";
                           Int (meetingStartTime (this s)); Lit ")"];
          EConsole LError [Lit "Timing debug:"];
          EConsole LError [Lit "   recordingStartTime: "; Int (recordingStartTime (this s))];
          EConsole LError [Lit "   meetingStartTime: "; Int (meetingStartTime (this s))];
          EConsole LError [Lit "   Current time: "; Int (clock E n)];
          EConsole LError [Lit "   Recording duration: ";
                           Int (clock E (S n) - recordingStartTime (this s)); Lit "ms"]].
  split; [repeat constructor|].
  unfold meetingTimeFallback, get, console_error, console_warn, perform, Date_now,
    update, throw, mbind, M_bind, mret, M_ret.
  cbn [this world onWorld onThis record set_ticks files dirs ticks trace].
  destruct (Z.ltb_spec 0 (meetingStartTime (this s))) as [Hpos|_]; [lia|].
  cbn [negb this world onWorld onThis record set_ticks files dirs ticks trace]. fold n.
  destruct (10000 <? clock E (S (S n)) - recordingStartTime (this s)).
  - f_equal. apply St_ext; [reflexivity|].
    apply World_ext; cbn [this world onWorld onThis record set_ticks files dirs ticks trace];
      try reflexivity.
    repeat rewrite <- app_assoc. reflexivity.
  - f_equal. apply St_ext; [reflexivity|].
    apply World_ext; cbn [this world onWorld onThis record set_ticks files dirs ticks trace];
      try reflexivity.
    repeat rewrite <- app_assoc. reflexivity.
Qed.

End FallbackFacts.



(** ** Stepping through a computation *)

Lemma bind_ok {A B} (m : M A) (f : A → M B) (s s' : St) (b : B) :
  (m ≫= f) s = (Ok b, s') → ∃ a s1, m s = (Ok a, s1) ∧ f a s1 = (Ok b, s').
Proof.
  unfold mbind, M_bind. destruct (m s) as [[a|e] s1]; intros H; [eauto|discriminate].
Qed.

Lemma path_join_nonempty (dir name : string) : String.eqb (path_join dir name) "" = false.
Proof. destruct dir; reflexivity. Qed.

Lemma Qltb_lt (x y : Q) : Qltb x y = true ↔ (x < y)%Q.
Proof.
  unfold Qltb. rewrite Qlt_alt. destruct (x ?= y)%Q; split; congruence.
Qed.

Section StageFacts.

Variable E : Externals.

Lemma runFFmpeg_ok (args : list arg) (s s' : St) :
  runFFmpeg E args s = (Ok tt, s') →
  ∃ fs', ffmpeg E args (world s) = (Closed 0, fs')
         ∧ s' = onWorld (λ w, record (EFfmpeg args (Closed 0)) (set_files fs' w)) s.
Proof.
  unfold runFFmpeg. destruct (ffmpeg E args (world s)) as [[code|] fs'].
  - destruct (Z.eqb_spec code 0) as [->|]; intros H; inversion H. eauto.
  - discriminate.
Qed.

Lemma runFFprobe_ok (args : list arg) (s s' : St) (out : Q) :
  runFFprobe E args s = (Ok out, s') →
  ffprobe E args (world s) = (Closed 0, out)
  ∧ s' = onWorld (record (EFfprobe args (Closed 0) out)) s.
Proof.
  unfold runFFprobe. destruct (ffprobe E args (world s)) as [[code|] o].
  - destruct (Z.eqb_spec code 0) as [->|]; intros H; inversion H. subst. eauto.
  - discriminate.
Qed.

(** [if (fs.existsSync(p)) fs.unlinkSync(p)] *)
Lemma unlink_if_exists_ok (p : string) (s s' : St) :
  String.eqb p "" = false →
  (ex ← existsSync p; when ex (unlinkSync p)) s = (Ok tt, s') →
  (s' = s ∨ s' = onWorld (λ w, record (EUnlink p) (set_files (delete p (files w)) w)) s)
  ∧ files (world s') !! p = None.
Proof.
  intros Hp. unfold existsSync, when, unlinkSync, mbind, M_bind, mret, M_ret. rewrite Hp.
  cbn [negb andb].
  destruct (files (world s) !! p) as [c|] eqn:Hf.
  - rewrite bool_decide_eq_true_2 by eauto. cbn [orb]. rewrite Hf.
    intros H; inversion H. split; [by right|]. simpl. apply lookup_delete_eq.
  - rewrite (bool_decide_eq_false_2 (is_Some None)) by (intros [? ?]; discriminate).
    cbn [orb]. destruct (bool_decide (p ∈ dirs (world s))).
    + rewrite Hf. discriminate.
    + intros H; inversion H; subst. split; [by left|exact Hf].
Qed.

Lemma unlink_if_exists_then {B} (p : string) (k : M B) (s s' : St) (b : B) :
  String.eqb p "" = false →
  (ex ← existsSync p; when ex (unlinkSync p);; k) s = (Ok b, s') →
  ∃ s1,
    (s1 = s ∨ s1 = onWorld (λ w, record (EUnlink p) (set_files (delete p (files w)) w)) s)
    ∧ files (world s1) !! p = None
    ∧ k s1 = (Ok b, s').
Proof.
  intros Hp H.
  assert (Hsplit : ∃ s1, (ex ← existsSync p; when ex (unlinkSync p)) s = (Ok tt, s1)
                         ∧ k s1 = (Ok b, s')).
  { revert H. unfold existsSync, mbind, M_bind.
    destruct (when _ (unlinkSync p) s) as [[[]|e] s1]; [eauto|discriminate]. }
  destruct Hsplit as (s1 & H1 & Hk).
  apply unlink_if_exists_ok in H1 as [H1 Hnone]; [|exact Hp]. eauto.
Qed.

Lemma addSilencePadding_ok (inputAudioPath outputAudioPath : string) (pad : Q) (s s' : St) :
  addSilencePadding E inputAudioPath outputAudioPath pad s = (Ok tt, s') →
  ∃ u,
    trace (world s') =
      trace (world s)
      ++ [EFfmpeg (silence_args pad (silenceFile E)) (Closed 0);
          EWrite (concatListFile E) (concatContent (silenceFile E) inputAudioPath);
          EFfmpeg (concat_args (concatListFile E) outputAudioPath) (Closed 0)]
      ++ u
    ∧ Forall (λ e, e = EUnlink (silenceFile E) ∨ e = EUnlink (concatListFile E)) u
    ∧ files (world s') !! silenceFile E = None
    ∧ files (world s') !! concatListFile E = None.
Proof.
  unfold addSilencePadding. intros H.
  apply bind_ok in H as ([] & s1 & H1 & H).
  apply runFFmpeg_ok in H1 as (fs1 & _ & ->).
  apply bind_ok in H as ([] & s2 & H2 & H).
  unfold writeFileSync in H2. inversion H2; subst s2; clear H2.
  apply bind_ok in H as ([] & s3 & H3 & H).
  apply runFFmpeg_ok in H3 as (fs3 & _ & ->).
  apply unlink_if_exists_then in H as (s4 & H4 & Hs4 & H); [|apply path_join_nonempty].
  apply unlink_if_exists_ok in H as [H5 Hc5]; [|apply path_join_nonempty].
  unfold path_resolve.
  assert (Hs5 : files (world s') !! silenceFile E = None).
  { destruct H5 as [->| ->]; [exact Hs4|]. simpl. by apply lookup_delete_None; right. }
  destruct H4 as [->| ->]; destruct H5 as [->| ->]; simpl; rewrite <- ?app_assoc; simpl.
  all: eexists; (split; [reflexivity|]); (split; [|by split]).
  all: repeat first [ apply List.Forall_nil
                    | apply List.Forall_cons; [first [by left|by right]|] ].
Qed.

End StageFacts.


(** ** Uploads *)

Section StringFacts.

Lemma append_cons (x : Ascii.ascii) (a b : string) :
  String x a +:+ b = String x (a +:+ b).
Proof. reflexivity. Qed.

Lemma substring_all (s : string) : String.substring 0 (String.length s) s = s.
Proof. induction s as [|c s IH]; cbn; [reflexivity|f_equal; exact IH]. Qed.

Lemma substring_skip (a b : string) (n : nat) :
  String.substring (String.length a) n (a +:+ b) = String.substring 0 n b.
Proof. induction a as [|c a IH]; [reflexivity|]. rewrite append_cons. exact IH. Qed.

Lemma prefix_append (a b : string) : String.prefix a (a +:+ b) = true.
Proof.
  induction a as [|c a IH]; [by destruct b|]. rewrite append_cons. cbn.
  destruct (Ascii.ascii_dec c c); [exact IH|contradiction].
Qed.

Lemma append_assoc (a b c : string) : (a +:+ b) +:+ c = a +:+ b +:+ c.
Proof.
  induction a as [|x a IH]; [reflexivity|]. rewrite !append_cons. f_equal. exact IH.
Qed.

Lemma length_append (a b : string) :
  String.length (a +:+ b) = (String.length a + String.length b)%nat.
Proof.
  induction a as [|x a IH]; [reflexivity|]. rewrite append_cons. cbn. f_equal. exact IH.
Qed.

(** A file directly in [dir] is listed under its name. *)
Lemma entry_of_path_join (dir name : string) :
  String.index 0 "/" name = None → entry_of dir (path_join dir name) = Some name.
Proof.
  intros Hn. unfold entry_of, path_join.
  rewrite <- append_assoc. rewrite prefix_append, substring_skip.
  rewrite length_append. replace (_ + _ - _)%nat with (String.length name) by lia.
  by rewrite substring_all, Hn.
Qed.

End StringFacts.

Section UploadFacts.

Variable E : Externals.

Lemma readdirSync_lists (dir name c : string) (s : St) :
  dir ∈ dirs (world s) →
  files (world s) !! path_join dir name = Some c →
  String.index 0 "/" name = None →
  ∃ l, readdirSync dir s = (Ok l, s) ∧ name ∈ l.
Proof.
  intros Hd Hf Hn. unfold readdirSync. rewrite bool_decide_eq_true_2 by done.
  eexists. split; [reflexivity|].
  apply list_elem_of_omap. exists (path_join dir name). split.
  - apply list_elem_of_fmap. exists (path_join dir name, c). split; [done|].
    by apply elem_of_map_to_list.
  - by apply entry_of_path_join.
Qed.

(** One turn of the loop of [uploadAudioChunks]: it always completes, touches
    no file, and tries the upload of a chunk file that is there and not
    empty; a failure is logged. *)
Lemma uploadChunk_spec (dir uuid f : string) (s : St) :
  ∃ s' t,
    uploadChunk E dir uuid f s = (Ok tt, s')
    ∧ this s' = this s
    ∧ files (world s') = files (world s)
    ∧ trace (world s') = trace (world s) ++ t
    ∧ ∀ c, files (world s) !! path_join dir f = Some c → c ≠ "" →
        ∃ ok, EUpload (path_join dir f) (aws_s3_temporary_audio_bucket (GLOBAL E))
                (uuid +:+ "/" +:+ f) true ok ∈ t
              ∧ (ok = false →
                 EConsole LError [Lit "Failed to upload chunk "; Lit f; Lit ":"] ∈ t).
Proof.
  unfold uploadChunk, existsSync, try_catch, statSync_size, S3_uploadFile,
    console_warn, console_error, perform, mbind, M_bind.
  rewrite path_join_nonempty. cbn [negb andb].
  destruct (files (world s) !! path_join dir f) as [c|] eqn:Hf.
  - rewrite bool_decide_eq_true_2 by eauto. cbn [orb negb]. rewrite Hf.
    destruct c as [|a c].
    + simpl. eexists _, [_]. repeat split. intros c' Hc'. by inversion Hc'.
    + cbn [String.length Nat.eqb].
      destruct (uploadFile E _ _ _ true (world s)) eqn:Hup; simpl.
      * eexists _, [_]. repeat split. intros c' _ _. exists true.
        split; [apply list_elem_of_singleton; reflexivity|discriminate].
      * eexists _, [_; _]. split; [reflexivity|]. split; [reflexivity|].
        split; [reflexivity|]. split; [simpl; by rewrite <- app_assoc|].
        intros c' _ _. exists false. split; [by left|intros _; right; by left].
  - rewrite (bool_decide_eq_false_2 (is_Some None)) by (intros [? ?]; discriminate).
    cbn [orb]. destruct (bool_decide _); cbn [negb]; rewrite ?Hf; simpl.
    + eexists _, [_]. repeat split. intros c' Hc'. discriminate.
    + eexists _, [_]. repeat split. intros c' Hc'. discriminate.
Qed.

Lemma upload_loop_spec (dir uuid : string) (l : list string) (s : St) :
  ∃ s' t,
    for_of l (uploadChunk E dir uuid) s = (Ok tt, s')
    ∧ this s' = this s
    ∧ files (world s') = files (world s)
    ∧ trace (world s') = trace (world s) ++ t
    ∧ ∀ f c, f ∈ l → files (world s) !! path_join dir f = Some c → c ≠ "" →
        ∃ ok, EUpload (path_join dir f) (aws_s3_temporary_audio_bucket (GLOBAL E))
                (uuid +:+ "/" +:+ f) true ok ∈ t
              ∧ (ok = false →
                 EConsole LError [Lit "Failed to upload chunk "; Lit f; Lit ":"] ∈ t).
Proof.
  revert s. induction l as [|f l IH]; intros s.
  - exists s, []. simpl. rewrite app_nil_r. repeat split.
    intros f c Hin. by apply elem_of_nil in Hin.
  - destruct (uploadChunk_spec dir uuid f s) as (s1 & t1 & H1 & Hthis1 & Hf1 & Ht1 & Hup1).
    destruct (IH s1) as (s' & t & Hl & Hthis & Hf & Ht & Hup).
    exists s', (t1 ++ t). cbn [for_of]. unfold mbind, M_bind at 1. rewrite H1.
    split; [exact Hl|]. split; [congruence|]. split; [congruence|].
    split; [by rewrite Ht, Ht1, app_assoc|].
    intros g c Hin Hg Hc. apply elem_of_cons in Hin as [->|Hin].
    + destruct (Hup1 c Hg Hc) as (ok & Hin1 & Hlog). exists ok.
      split; [apply elem_of_app; by left|]. intros Hok. apply elem_of_app. left. auto.
    + rewrite <- Hf1 in Hg. destruct (Hup g c Hin Hg Hc) as (ok & Hin1 & Hlog). exists ok.
      split; [apply elem_of_app; by right|]. intros Hok. apply elem_of_app. right. auto.
Qed.

End UploadFacts.

Section FinalUploadFacts.

Variable E : Externals.

Lemma upload_stretch_refl (s : St) (r : res unit) : upload_stretch s r s [].
Proof.
  split; [by rewrite app_nil_r|]. split.
  - intros q [c Hc] Hn. congruence.
  - intros p b k Hin. by apply elem_of_nil in Hin.
Qed.

Lemma upload_stretch_trans (s1 s2 s3 : St) (r : res unit) (t t' : list event) :
  upload_stretch s1 (Ok tt) s2 t → upload_stretch s2 r s3 t' →
  upload_stretch s1 r s3 (t ++ t').
Proof.
  intros (Ht & H12 & Hf12) (Ht' & H23 & Hf23).
  split; [by rewrite Ht', Ht, app_assoc|]. split.
  - intros q Hq Hn.
    destruct (files (world s2) !! q) as [c|] eqn:H2.
    + destruct (H23 q) as (t1 & t2 & b & k & ->); [by rewrite H2|done|].
      exists (t ++ t1), t2, b, k. by rewrite <- !app_assoc.
    + destruct (H12 q Hq H2) as (t1 & t2 & b & k & ->).
      exists t1, (t2 ++ t'), b, k. by rewrite <- !app_assoc.
  - intros p b k Hin. apply elem_of_app in Hin as [Hin|Hin]; [|by eapply Hf23].
    by apply Hf12 in Hin.
Qed.

(** The four ways one block of [uploadToS3] can go. *)
Lemma uploadArtifact_cases (p key : string) (s s' : St) (r : res unit) :
  uploadArtifact E p key s = (r, s') →
  let bucket := aws_s3_video_bucket (GLOBAL E) in
  (r = Ok tt ∧ s' = s)
  ∨ (r = Throw (UploadFailed p)
     ∧ s' = onWorld (record (EUpload p bucket key false false)) s)
  ∨ (r = Throw (ENOENT p)
     ∧ files (world s) !! p = None
     ∧ s' = onWorld (record (EUpload p bucket key false true)) s)
  ∨ (r = Ok tt
     ∧ s' = onWorld (λ w, record (EUnlink p) (set_files (delete p (files w)) w))
              (onWorld (record (EUpload p bucket key false true)) s)).
Proof.
  unfold uploadArtifact, existsSync, when, S3_uploadFile, unlinkSync, mbind, M_bind, mret, M_ret.
  match goal with |- context [if ?b then _ else _] => destruct b end; cbn iota.
  2: { intros H; inversion H. by left. }
  destruct (uploadFile E p _ key false (world s)); cbn iota.
  2: { intros H; inversion H. right; left. done. }
  simpl. destruct (files (world s) !! p) eqn:Hf; intros H; inversion H.
  - right; right; right. done.
  - right; right; left. done.
Qed.

Lemma uploadArtifact_stretch (p key : string) (s s' : St) (r : res unit) :
  uploadArtifact E p key s = (r, s') →
  this s' = this s ∧ ∃ t, upload_stretch s r s' t.
Proof.
  intros H. apply uploadArtifact_cases in H as [[_ ->]|[[-> ->]|[(_ & _ & ->)|[_ ->]]]].
  - split; [done|]. eexists. apply upload_stretch_refl.
  - split; [done|]. eexists. split; [reflexivity|]. split.
    + intros q [c Hc] Hn. simpl in Hn. congruence.
    + intros q b k Hin. apply list_elem_of_singleton in Hin. by inversion Hin.
  - split; [done|]. eexists. split; [reflexivity|]. split.
    + intros q [c Hc] Hn. simpl in Hn. congruence.
    + intros q b k Hin. apply list_elem_of_singleton in Hin. by inversion Hin.
  - split; [done|]. eexists. split; [simpl; by rewrite <- app_assoc|]. split.
    + intros q [c Hc] Hn. simpl in Hn.
      destruct (decide (p = q)) as [->|Hne].
      * exists [], []. eauto.
      * rewrite lookup_delete_ne in Hn by done. congruence.
    + intros q b k Hin. simpl in Hin.
      apply elem_of_cons in Hin as [Hin|Hin]; [by inversion Hin|].
      apply list_elem_of_singleton in Hin. by inversion Hin.
Qed.

Lemma uploadToS3_unfold (s : St) :
  uploadToS3 E s =
    if filesUploaded (this s) || negb (s3Uploader E) then (Ok tt, s)
    else (uploadArtifact E (audioOutputPath (this s)) (getIdentifier (paths E) +:+ ".wav");;
          uploadArtifact E (outputPath (this s)) (getIdentifier (paths E) +:+ ".mp4");;
          update (set_filesUploaded true)) s.
Proof.
  unfold uploadToS3, get, mbind at 1, M_bind at 1.
  destruct (filesUploaded (this s) || negb (s3Uploader E)); reflexivity.
Qed.

End FinalUploadFacts.

(** C8. Chunks: with an uploader and the chunks directory in place,
    [uploadAudioChunks] always returns normally and changes no local file;
    every chunk file of the bot that is in the directory and not empty has
    its upload tried, whatever happens to the others, and a failed upload is
    logged. Final artifacts: a file that [uploadToS3] has removed was
    unlinked right after its own upload resolved; when an upload fails the
    method throws, the file is still there and [filesUploaded] stays
    unset. *)
Theorem upload_error_policy (E : Externals) (s : St) :
  (∀ dir uuid,
     s3Uploader E = true → dir ∈ dirs (world s) →
     ∃ s' t,
       uploadAudioChunks E dir uuid s = (Ok tt, s')
       ∧ this s' = this s
       ∧ files (world s') = files (world s)
       ∧ trace (world s') = trace (world s) ++ t
       ∧ ∀ f c,
           files (world s) !! path_join dir f = Some c →
           String.index 0 "/" f = None → isChunkFile uuid f = true → c ≠ "" →
           ∃ ok, EUpload (path_join dir f) (aws_s3_temporary_audio_bucket (GLOBAL E))
                   (uuid +:+ "/" +:+ f) true ok ∈ t
                 ∧ (ok = false →
                    EConsole LError [Lit "Failed to upload chunk "; Lit f; Lit ":"] ∈ t))
  ∧ (∀ r s',
       uploadToS3 E s = (r, s') →
       ∃ t, upload_stretch s r s' t
            ∧ ∀ p, r = Throw (UploadFailed p) →
                filesUploaded (this s') = false
                ∧ (audioOutputPath (this s) ≠ outputPath (this s) →
                   files (world s') !! p = files (world s) !! p)).
Proof.
  split.
  - intros dir uuid Hs3 Hdir.
    unfold uploadAudioChunks. rewrite Hs3. cbn [negb].
    unfold mbind, M_bind at 1.
    assert (Hrd : ∃ l, readdirSync dir s = (Ok l, s)
                       ∧ l = omap (entry_of dir) (map_to_list (files (world s))).*1).
    { unfold readdirSync. rewrite bool_decide_eq_true_2 by done. eauto. }
    destruct Hrd as (l & Hrd & Hl). rewrite Hrd.
    destruct (upload_loop_spec E dir uuid
                (filter (λ file, isChunkFile uuid file = true) l) s)
      as (s' & t & Hrun & Hthis & Hf & Ht & Hup).
    exists s', t. repeat (split; [done|]).
    intros f c Hc Hslash Hchunk Hne.
    apply (Hup f c); [|done|done].
    apply list_elem_of_filter. split; [done|].
    destruct (readdirSync_lists dir f c s Hdir Hc Hslash) as (l' & Hrd' & Hin).
    congruence.
  - intros r s'. rewrite uploadToS3_unfold.
    destruct (filesUploaded (this s)) eqn:Hfu; cbn [orb].
    { intros H; inversion H; subst. exists []. split; [apply upload_stretch_refl|discriminate]. }
    destruct (s3Uploader E); cbn [negb].
    2: { intros H; inversion H; subst. exists [].
         split; [apply upload_stretch_refl|discriminate]. }
    unfold mbind, M_bind at 1.
    destruct (uploadArtifact E (audioOutputPath (this s)) _ s) as [r1 s1] eqn:H1.
    pose proof (uploadArtifact_stretch E _ _ _ _ _ H1) as (Hthis1 & t1 & Hst1).
    apply uploadArtifact_cases in H1.
    destruct r1 as [[]|e1].
    2: { intros H; inversion H; subst r s'. exists t1. split; [exact Hst1|].
         intros p Hp. inversion Hp; subst e1. split; [congruence|].
         intros _.
         destruct H1 as [[? _]|[[Hr ->]|[(Hr & _ & ->)|[? _]]]]; try discriminate.
         reflexivity. }
    unfold mbind, M_bind at 1.
    destruct (uploadArtifact E (outputPath (this s)) _ s1) as [r2 s2] eqn:H2.
    pose proof (uploadArtifact_stretch E _ _ _ _ _ H2) as (Hthis2 & t2 & Hst2).
    pose proof (upload_stretch_trans _ _ _ _ _ _ Hst1 Hst2) as Hst.
    apply uploadArtifact_cases in H2.
    destruct r2 as [[]|e2].
    + unfold update. intros H; inversion H; subst r s'.
      exists (t1 ++ t2). split; [exact Hst|discriminate].
    + intros H; inversion H; subst r s'. exists (t1 ++ t2). split; [exact Hst|].
      intros p Hp. inversion Hp; subst e2. split; [congruence|].
      intros Hne.
      destruct H2 as [[? _]|[[Hr ->]|[(Hr & _ & ->)|[? _]]]]; try discriminate.
      inversion Hr; subst p. simpl.
      destruct H1 as [[_ ->]|[[? _]|[(? & _)|[_ ->]]]]; try discriminate; [reflexivity|].
      simpl. by apply lookup_delete_ne.
Qed.

(** ** The trim plan *)

Create HintDb quiet.

Lemma bind_run {A B} (m : M A) (f : A → M B) (s s' : St) (r : res B) :
  (m ≫= f) s = (r, s') →
  (∃ e, m s = (Throw e, s') ∧ r = Throw e)
  ∨ (∃ a s1, m s = (Ok a, s1) ∧ f a s1 = (r, s')).
Proof.
  unfold mbind, M_bind. destruct (m s) as [[a|e] s1]; intros H.
  - right. eauto.
  - left. inversion H. eauto.
Qed.

Section QuietFacts.

Variable E : Externals.

Lemma quiet_nothing {A} (m : M A) :
  (∀ s r s', m s = (r, s') → s' = s) → quiet m.
Proof.
  intros Hm s r s' H. apply Hm in H. subst s'.
  split; [done|]. exists []. split; [by rewrite app_nil_r|constructor].
Qed.

Lemma quiet_one {A} (m : M A) (P : event → Prop) :
  (∀ e, P e → not_trim e) →
  (∀ s r s', m s = (r, s') →
     s' = s ∨ ∃ e f, P e ∧ s' = onWorld (λ w, record e (set_files (f w) w)) s) →
  quiet m.
Proof.
  intros HP Hm s r s' H. apply Hm in H as [->|(e & f & He & ->)].
  - split; [done|]. exists []. split; [by rewrite app_nil_r|constructor].
  - split; [done|]. exists [e]. split; [reflexivity|]. constructor; [auto|constructor].
Qed.

Lemma quiet_ret {A} (a : A) : quiet (mret a).
Proof. apply quiet_nothing. intros s r s' H. by inversion H. Qed.

Lemma quiet_throw {A} (e : error) : quiet (@throw A e).
Proof. apply quiet_nothing. intros s r s' H. by inversion H. Qed.

Lemma quiet_bind {A B} (m : M A) (f : A → M B) :
  quiet m → (∀ a, quiet (f a)) → quiet (m ≫= f).
Proof.
  intros Hm Hf s r s' H. apply bind_run in H as [(e & H1 & _)|(a & s1 & H1 & H2)].
  - eapply Hm, H1.
  - destruct (Hm _ _ _ H1) as (Ht1 & t1 & Htr1 & Hall1).
    destruct (Hf a _ _ _ H2) as (Ht2 & t2 & Htr2 & Hall2).
    split; [congruence|]. exists (t1 ++ t2).
    split; [by rewrite Htr2, Htr1, app_assoc|]. apply Forall_app. by split.
Qed.

Lemma quiet_try_catch {A} (m : M A) (h : error → M A) :
  quiet m → (∀ e, quiet (h e)) → quiet (try_catch m h).
Proof.
  intros Hm Hh s r s'. unfold try_catch.
  destruct (m s) as [[a|e] s1] eqn:H1; intros H.
  - inversion H; subst. eapply Hm, H1.
  - destruct (Hm _ _ _ H1) as (Ht1 & t1 & Htr1 & Hall1).
    destruct (Hh e _ _ _ H) as (Ht2 & t2 & Htr2 & Hall2).
    split; [congruence|]. exists (t1 ++ t2).
    split; [by rewrite Htr2, Htr1, app_assoc|]. apply Forall_app. by split.
Qed.

Lemma quiet_when (b : bool) (m : M unit) : quiet m → quiet (when b m).
Proof. intros Hm. destruct b; [exact Hm|apply quiet_ret]. Qed.

Lemma quiet_for_of {A} (l : list A) (body : A → M unit) :
  (∀ x, quiet (body x)) → quiet (for_of l body).
Proof.
  intros Hb. induction l as [|x l IH]; simpl; [apply quiet_ret|].
  apply quiet_bind; [apply Hb|intros _; exact IH].
Qed.

Lemma quiet_perform (e : event) : not_trim e → quiet (perform e).
Proof.
  intros He. apply (quiet_one _ (λ e', e' = e)); [by intros ? ->|].
  intros s r s' H. inversion H. right. exists e, files. split; [done|].
  by destruct s as [? []].
Qed.

Lemma quiet_console_error (msg : list piece) : quiet (console_error msg).
Proof. by apply quiet_perform. Qed.

Lemma quiet_console_warn (msg : list piece) : quiet (console_warn msg).
Proof. by apply quiet_perform. Qed.

Lemma quiet_existsSync (p : string) : quiet (existsSync p).
Proof. apply quiet_nothing. intros s r s' H. by inversion H. Qed.

Lemma quiet_copyFileSync (src dst : string) : quiet (copyFileSync src dst).
Proof.
  apply (quiet_one _ (λ e, e = ECopy src dst)); [by intros ? ->|].
  intros s r s'. unfold copyFileSync. destruct (files (world s) !! src) as [c|];
    intros H; inversion H; [right|by left].
  exists (ECopy src dst), (λ w, <[dst := c]> (files w)). done.
Qed.

Lemma quiet_unlinkSync (p : string) : quiet (unlinkSync p).
Proof.
  apply (quiet_one _ (λ e, e = EUnlink p)); [by intros ? ->|].
  intros s r s'. unfold unlinkSync. destruct (files (world s) !! p);
    intros H; inversion H; [right|by left].
  exists (EUnlink p), (λ w, delete p (files w)). done.
Qed.

Lemma quiet_writeFileSync (p c : string) : quiet (writeFileSync p c).
Proof.
  apply (quiet_one _ (λ e, e = EWrite p c)); [by intros ? ->|].
  intros s r s' H. inversion H. right.
  exists (EWrite p c), (λ w, <[p := c]> (files w)). done.
Qed.

Lemma quiet_mkdirSync (p : string) : quiet (mkdirSync p).
Proof.
  intros s r s' H. inversion H. split; [done|]. exists [EMkdir p].
  split; [done|]. by repeat constructor.
Qed.

Lemma quiet_readdirSync (p : string) : quiet (readdirSync p).
Proof.
  apply quiet_nothing. intros s r s'. unfold readdirSync.
  destruct (bool_decide _); intros H; by inversion H.
Qed.

Lemma quiet_statSync_size (p : string) : quiet (statSync_size p).
Proof.
  apply quiet_nothing. intros s r s'. unfold statSync_size.
  destruct (files (world s) !! p); intros H; by inversion H.
Qed.

(** How a run of a media tool ends, whatever its exit code. *)
Lemma runFFmpeg_run (args : list arg) (s s' : St) (r : res unit) :
  runFFmpeg E args s = (r, s') →
  ∃ res fs', s' = onWorld (λ w, record (EFfmpeg args res) (set_files fs' w)) s
             ∧ (r = Ok tt → res = Closed 0).
Proof.
  unfold runFFmpeg. destruct (ffmpeg E args (world s)) as [[code|] fs'].
  - destruct (Z.eqb_spec code 0) as [->|]; intros H; inversion H; subst;
      do 2 eexists; (split; [reflexivity|]); [done|discriminate].
  - intros H; inversion H; subst. do 2 eexists. split; [reflexivity|discriminate].
Qed.

Lemma quiet_runFFmpeg (args : list arg) :
  trim_shaped args = None → quiet (runFFmpeg E args).
Proof.
  intros Hargs s r s' H. apply runFFmpeg_run in H as (res & fs' & -> & _).
  split; [done|]. exists [EFfmpeg args res]. split; [done|]. by repeat constructor.
Qed.

Lemma quiet_runFFprobe (args : list arg) : quiet (runFFprobe E args).
Proof.
  intros s r s'. unfold runFFprobe. destruct (ffprobe E args (world s)) as [[code|] out].
  - destruct (code =? 0); intros H; inversion H; (split; [done|]);
      eexists [_]; (split; [done|]); by repeat constructor.
  - intros H; inversion H; (split; [done|]); eexists [_]; (split; [done|]);
      by repeat constructor.
Qed.

Lemma quiet_S3_uploadFile (p b k : string) (c : bool) : quiet (S3_uploadFile E p b k c).
Proof.
  intros s r s'. unfold S3_uploadFile. destruct (uploadFile E p b k c (world s));
    intros H; inversion H; (split; [done|]); eexists [_]; (split; [done|]);
    by repeat constructor.
Qed.

#[local] Hint Resolve quiet_ret quiet_throw quiet_when quiet_for_of
  quiet_console_error quiet_console_warn
  quiet_existsSync quiet_copyFileSync quiet_unlinkSync quiet_writeFileSync
  quiet_mkdirSync quiet_readdirSync quiet_statSync_size
  quiet_runFFprobe quiet_S3_uploadFile : quiet.

Ltac quiet_step :=
  first [ apply quiet_bind; [|intros ?]
        | apply quiet_try_catch; [|intros ?]
        | apply quiet_when
        | apply quiet_for_of; intros ?
        | apply quiet_runFFmpeg; reflexivity
        | match goal with |- quiet (if ?b then _ else _) => destruct b end
        | solve [auto with quiet] ].

Lemma quiet_uploadAudioChunks (dir uuid : string) : quiet (uploadAudioChunks E dir uuid).
Proof.
  unfold uploadAudioChunks, uploadChunk.
  repeat quiet_step.
Qed.

Lemma quiet_createAudioChunks (audioPath : string) : quiet (createAudioChunks E audioPath).
Proof.
  unfold createAudioChunks, getDuration.
  repeat quiet_step. apply quiet_uploadAudioChunks.
Qed.

Lemma quiet_prepareAudio (audioPadding : Q) : quiet (prepareAudio E audioPadding).
Proof.
  unfold prepareAudio, addSilencePadding, trimAudioStart.
  repeat quiet_step.
Qed.

(** What follows the final trim. *)
Lemma quiet_after_trim (a b c : string) (l : list string) :
  quiet (extractAudioFromVideo E a b;; createAudioChunks E c;; cleanupTempFiles l).
Proof.
  unfold extractAudioFromVideo, cleanupTempFiles.
  repeat quiet_step. apply quiet_createAudioChunks.
Qed.

End QuietFacts.

Section TrimPlanFacts.

Variable E : Externals.

Lemma meetingTimeFallback_set (s : St) :
  0 < meetingStartTime (this s) → meetingTimeFallback E s = (Ok tt, s).
Proof.
  intros Hm. unfold meetingTimeFallback, get, mbind, M_bind.
  destruct (Z.ltb_spec 0 (meetingStartTime (this s))); [reflexivity|lia].
Qed.

(** The fallback, whatever its result: it logs, and when it returns the
    recorder holds the meeting start time that the trim plan uses, the one
    set by the caller or, failing that, the one of the fallback. *)
Lemma meetingTimeFallback_run (s s1 : St) (r : res unit) :
  meetingTimeFallback E s = (r, s1) →
  let m := if 0 <? meetingStartTime (this s) then meetingStartTime (this s)
           else clock E (ticks (world s) + 3) - 5000 in
  (r = Ok tt → this s1 = set_meetingStartTime m (this s))
  ∧ ∃ t, trace (world s1) = trace (world s) ++ t ∧ Forall not_trim t.
Proof.
  intros H m. unfold m. destruct (Z.ltb_spec 0 (meetingStartTime (this s))) as [Hpos|Hle].
  - rewrite meetingTimeFallback_set in H by exact Hpos. inversion H; subst.
    split; [by destruct (this s1)|]. exists []. split; [by rewrite app_nil_r|constructor].
  - destruct (meetingTimeFallback_unset E s Hle) as (t & Hcon & Hfb). rewrite Hfb in H.
    assert (Hnt : Forall not_trim t).
    { eapply Forall_impl; [exact Hcon|]. by intros []. }
    destruct (10000 <? _); inversion H; subst; simpl.
    + split; [done|]. eexists. split; [reflexivity|].
      apply Forall_app. split; [exact Hnt|]. by repeat constructor.
    + split; [discriminate|]. eexists. split; [reflexivity|exact Hnt].
Qed.

(** The tool runs of a video-mode [syncAndMergeFiles], whatever its result:
    either it stops before the final trim, or the two durations are probed on
    the raw video and on the processed audio (both probes exit 0) and the
    next tool run is the final trim, from the merged file to the output;
    nothing else in the trace has the form of a trim. *)
Lemma syncAndMergeFiles_video_run (s s' : St) (r : res unit) :
  String.eqb (recording_mode (GLOBAL E)) "audio_only" = false →
  syncAndMergeFiles E s = (r, s') →
  ∃ t, trace (world s') = trace (world s) ++ t
    ∧ ((Forall not_trim t ∧ r ≠ Ok tt)
       ∨ ∃ sr vd ad pre post res,
           calculateVideoOffset E (rawAudioPath E) (rawVideoPath E) (world s) = Some sr
           ∧ let m := if 0 <? meetingStartTime (this s) then meetingStartTime (this s)
                      else clock E (ticks (world s) + 3) - 5000 in
             let trimStart := calcOffsetVideo sr (set_meetingStartTime m (this s)) in
             t = pre
                 ++ [EFfprobe (getDuration_args (rawVideoPath E)) (Closed 0) vd;
                     EFfprobe (getDuration_args (processedAudioPath E)) (Closed 0) ad;
                     EFfmpeg (finalTrim_args (mergedPath E) (outputPath (this s)) trimStart
                                (Qmin (vd - trimStart) ad)) res]
                 ++ post
             ∧ Forall not_trim pre ∧ Forall not_trim post
             ∧ (r = Ok tt → res = Closed 0)).
Proof.
  intros Hmode H. unfold syncAndMergeFiles in H. rewrite Hmode in H.
  (* 1. the offsets *)
  apply bind_run in H as [(e & H0 & ->)|(sr & s0 & H0 & H)];
    unfold run_calculateVideoOffset in H0;
    destruct (calculateVideoOffset E _ _ (world s)) as [sr'|] eqn:Hoff;
    inversion H0; subst; clear H0.
  { eexists [_]. split; [reflexivity|]. left. split; [by repeat constructor|discriminate]. }
  (* 2. the meeting start time *)
  apply bind_run in H as [(e & H1 & ->)|([] & s1 & H1 & H)];
    apply meetingTimeFallback_run in H1 as (Hthis1 & t1 & Ht1 & Hall1);
    simpl in Hthis1, Ht1.
  { eexists (_ :: t1). split; [by rewrite Ht1, <- app_assoc|]. left.
    split; [by constructor|discriminate]. }
  specialize (Hthis1 eq_refl).
  apply bind_run in H as [(e & Hget & _)|(rec & s1' & Hget & H)]; inversion Hget;
    subst rec s1'; clear Hget.
  (* 5. the head of the audio *)
  apply bind_run in H as [(e & H2 & ->)|([] & s2 & H2 & H)];
    apply quiet_prepareAudio in H2 as (Hthis2 & t2 & Ht2 & Hall2).
  { eexists (_ :: t1 ++ t2). split; [by rewrite Ht2, Ht1, <- !app_assoc|]. left.
    split; [|discriminate]. constructor; [done|]. apply Forall_app. by split. }
  (* 6. merge and the two probes *)
  unfold mergeAndTrim in H.
  apply bind_run in H as [(e & H3 & ->)|([] & s3 & H3 & H)];
    apply quiet_runFFmpeg in H3 as (Hthis3 & t3 & Ht3 & Hall3); try reflexivity.
  { eexists (_ :: t1 ++ t2 ++ t3).
    split; [by rewrite Ht3, Ht2, Ht1, <- !app_assoc|]. left.
    split; [|discriminate]. constructor; [done|]. rewrite !Forall_app. done. }
  assert (Hpre : Forall not_trim
                   (EOffset (rawAudioPath E) (rawVideoPath E) (Some sr) :: t1 ++ t2 ++ t3)).
  { constructor; [done|]. rewrite !Forall_app. done. }
  assert (Htr3 : trace (world s3) = trace (world s)
                 ++ EOffset (rawAudioPath E) (rawVideoPath E) (Some sr) :: t1 ++ t2 ++ t3).
  { by rewrite Ht3, Ht2, Ht1, <- !app_assoc. }
  clear Ht1 Ht2 Ht3 Hall1 Hall2 Hall3.
  set (pre := EOffset (rawAudioPath E) (rawVideoPath E) (Some sr) :: t1 ++ t2 ++ t3) in *.
  clearbody pre.
  apply bind_run in H as [(e & H4 & ->)|(vd & s4 & H4 & H)].
  { apply quiet_runFFprobe in H4 as (_ & t4 & Ht4 & Hall4).
    exists (pre ++ t4). split; [by rewrite Ht4, Htr3, <- app_assoc|]. left.
    split; [|discriminate]. apply Forall_app. by split. }
  apply runFFprobe_ok in H4 as [_ ->].
  apply bind_run in H as [(e & H5 & ->)|(ad & s5 & H5 & H)].
  { apply quiet_runFFprobe in H5 as (_ & t5 & Ht5 & Hall5). simpl in Ht5.
    exists (pre ++ EFfprobe (getDuration_args (rawVideoPath E)) (Closed 0) vd :: t5).
    split; [by rewrite Ht5, Htr3, <- !app_assoc|]. left.
    split; [|discriminate]. apply Forall_app. split; [done|]. by constructor. }
  apply runFFprobe_ok in H5 as [_ ->].
  apply bind_run in H as [(e & Hget & _)|(rec & s5' & Hget & H)]; inversion Hget;
    subst rec s5'; clear Hget.
  (* the final trim *)
  cbn [this onWorld] in H.
  rewrite Hthis3, Hthis2, Hthis1 in H.
  change (outputPath (set_meetingStartTime _ (this s))) with (outputPath (this s)) in H.
  change (audioOutputPath (set_meetingStartTime _ (this s)))
    with (audioOutputPath (this s)) in H.
  apply bind_run in H as [(e & H6 & ->)|([] & s6 & H6 & H)];
    apply runFFmpeg_run in H6 as (res & fs6 & Hs6 & Hres).
  { subst s'. eexists. split; [simpl; rewrite Htr3; rewrite <- !app_assoc; reflexivity|].
    right. exists sr, vd, ad, pre, [], res. split; [reflexivity|].
    cbv zeta. split; [reflexivity|]. split; [done|]. split; [constructor|discriminate]. }
  apply quiet_after_trim in H as (_ & post & Hpost & Hallpost).
  eexists. split.
  { rewrite Hpost, Hs6. simpl. rewrite Htr3. rewrite <- !app_assoc. reflexivity. }
  right. exists sr, vd, ad, pre, post, res. split; [reflexivity|].
  cbv zeta. split; [reflexivity|]. split; [done|]. split; [done|]. intros _. by apply Hres.
Qed.

(** A video-mode run that returns. *)
Lemma syncAndMergeFiles_video_ok (s s' : St) :
  String.eqb (recording_mode (GLOBAL E)) "audio_only" = false →
  syncAndMergeFiles E s = (Ok tt, s') →
  ∃ sr vd ad pre post,
    calculateVideoOffset E (rawAudioPath E) (rawVideoPath E) (world s) = Some sr
    ∧ let m := if 0 <? meetingStartTime (this s) then meetingStartTime (this s)
               else clock E (ticks (world s) + 3) - 5000 in
      let trimStart := calcOffsetVideo sr (set_meetingStartTime m (this s)) in
      trace (world s') =
        trace (world s) ++ pre
        ++ [EFfprobe (getDuration_args (rawVideoPath E)) (Closed 0) vd;
            EFfprobe (getDuration_args (processedAudioPath E)) (Closed 0) ad;
            EFfmpeg (finalTrim_args (mergedPath E) (outputPath (this s)) trimStart
                       (Qmin (vd - trimStart) ad)) (Closed 0)]
        ++ post.
Proof.
  intros Hmode Hrun.
  destruct (syncAndMergeFiles_video_run s s' (Ok tt) Hmode Hrun)
    as (t & Ht & [[_ Hne]|(sr & vd & ad & pre & post & res & Hoff & Hplan)]);
    [done|].
  cbv zeta in Hplan. destruct Hplan as (-> & _ & _ & Hres).
  exists sr, vd, ad, pre, post. split; [exact Hoff|].
  cbv zeta. rewrite Ht, (Hres eq_refl). reflexivity.
Qed.

End TrimPlanFacts.






(** ** Chunking *)

Section ChunkFacts.

Lemma Qceiling_unit (q : Q) : (0 < q)%Q → (q <= 1)%Q → Qceiling q = 1.
Proof.
  intros Hpos Hle.
  pose proof (Qle_ceiling q) as Hup. pose proof (Qceiling_lt q) as Hlow.
  assert (H1 : (inject_Z 0 < inject_Z (Qceiling q))%Q) by (unfold inject_Z at 1; lra).
  assert (H2 : (inject_Z (Qceiling q - 1) < inject_Z 1)%Q) by (unfold inject_Z at 2; lra).
  rewrite <- Zlt_Qlt in H1, H2. lia.
Qed.

Lemma Qceiling_zero_num (q : Q) : Qnum q = 0 → Qceiling q = 0.
Proof.
  destruct q as [n d]. simpl. intros ->. reflexivity.
Qed.

(** Cutting [d] seconds into pieces of [min(d, 3600)] seconds gives as many
    pieces as cutting into pieces of 3600 seconds. *)
Lemma segment_count_min (d : Q) :
  (0 <= d)%Q →
  segment_count d (Qmin d (inject_Z TRANSCRIPTION_CHUNK_DURATION))
  = Z.to_nat (Qceiling (d / inject_Z 3600)).
Proof.
  intros Hd. unfold segment_count, TRANSCRIPTION_CHUNK_DURATION.
  assert (Hsmall : (d <= inject_Z 3600)%Q →
                   Qceiling (d / d) = Qceiling (d / inject_Z 3600)).
  { intros Hle. destruct (Qeq_dec d 0) as [Hz|Hnz].
    - assert (Hn : Qnum d = 0) by (unfold Qeq in Hz; simpl in Hz; lia).
      rewrite !Qceiling_zero_num; [reflexivity| |];
        unfold Qdiv, Qmult; simpl; by rewrite Hn.
    - assert (Hpos : (0 < d)%Q).
      { apply Qle_lteq in Hd as [?|Heq]; [done|]. by symmetry in Heq. }
      rewrite (Qceiling_unit (d / d)).
      + symmetry. apply Qceiling_unit.
        * apply Qlt_shift_div_l; [reflexivity|]. unfold inject_Z. lra.
        * apply Qle_shift_div_r; [reflexivity|]. unfold inject_Z in *. lra.
      + apply Qlt_shift_div_l; [done|]. lra.
      + apply Qle_shift_div_r; [done|]. lra. }
  unfold Qmin, GenericMinMax.gmin.
  destruct (d ?= inject_Z 3600)%Q eqn:Hc.
  - f_equal. apply Hsmall. apply Qeq_alt in Hc. rewrite Hc. apply Qle_refl.
  - f_equal. apply Hsmall. apply Qlt_alt in Hc. by apply Qlt_le_weak.
  - reflexivity.
Qed.

Lemma substring_suffix (a b : string) :
  String.substring (String.length a) (String.length b) (a +:+ b) = b.
Proof. by rewrite substring_skip, substring_all. Qed.

(** The names the pattern [<botId>-%d.wav] produces are the names the upload
    loop looks for. *)
Lemma segment_name_isChunkFile (botUuid : string) (i : nat) :
  isChunkFile botUuid (segment_name botUuid i) = true.
Proof.
  unfold isChunkFile, segment_name, startsWith, endsWith.
  apply andb_true_intro. split.
  - rewrite <- append_assoc. apply prefix_append.
  - rewrite <- !append_assoc. rewrite length_append.
    apply andb_true_intro. split.
    + apply Nat.leb_le. lia.
    + replace (_ + _ - _)%nat with (String.length ((botUuid +:+ "-") +:+ pretty i)) by lia.
      rewrite substring_suffix. reflexivity.
Qed.

End ChunkFacts.


(** ** The properties on concrete sessions *)


Lemma stopRecording_noop_witness :
  (isRecording (this (demo_state 0 false)) = false
   ∨ ffmpegProcess (this (demo_state 0 false)) = None)
  ∧ stopRecording (demo_state 0 false) = (Ok StopReturned, demo_state 0 false)
  ∧ (stopRecording ≫= (λ _, stopRecording)) (demo_state 0 false)
    = (Ok StopReturned, demo_state 0 false).
Proof.
  split; [left; reflexivity|].
  exact (stopRecording_noop (demo_state 0 false) (or_introl eq_refl)).
Defined.




(** Scenario 6: the rejected upload of chunk 1 does not stop the upload of
    chunk 2; the rejected upload of the final video leaves it in place. *)
Lemma upload_error_policy_witness :
  (∃ s' t,
     uploadAudioChunks scenario6 "/tmp/chunks" "bot" chunks_state = (Ok tt, s')
     ∧ trace (world s') = t
     ∧ ∃ ok, EUpload "/tmp/chunks/bot-2.wav" "audio-tmp" "bot/bot-2.wav" true ok ∈ t)
  ∧ (∀ r s', uploadToS3 final_upload_env final_state = (r, s') →
       r = Throw (UploadFailed "/out/id.mp4") →
       files (world s') !! "/out/id.mp4" = Some "final video").
Proof.
  split.
  - destruct (upload_error_policy scenario6 chunks_state) as [Hchunks _].
    assert (Hdir : "/tmp/chunks" ∈ dirs (world chunks_state)).
    { change ("/tmp/chunks" ∈ ({[ "/tmp/chunks" ]} : gset string)).
      apply elem_of_singleton. reflexivity. }
    destruct (Hchunks "/tmp/chunks" "bot" eq_refl Hdir)
      as (s' & t & Hrun & _ & _ & Htrace & Hup).
    exists s', t. split; [exact Hrun|]. split; [exact Htrace|].
    destruct (Hup "bot-2.wav" "chunk 2" eq_refl eq_refl eq_refl ltac:(discriminate))
      as (ok & Hin & _).
    exists ok. exact Hin.
  - intros r s' Hrun Hr.
    destruct (upload_error_policy final_upload_env final_state) as [_ Hfinal].
    destruct (Hfinal r s' Hrun) as (t & _ & Hkeep).
    destruct (Hkeep "/out/id.mp4" Hr) as [_ Hsame].
    rewrite Hsame; [reflexivity|discriminate].
Defined.

(** * Further properties of the recorder *)

(** ** What a computation changes *)

#[global] Instance same_session_preorder : PreOrder same_session.
Proof.
  split.
  - intros r. unfold same_session. tauto.
  - intros r1 r2 r3 (H1 & H2 & H3 & H4 & H5 & H6 & H7 & H8 & H9)
      (K1 & K2 & K3 & K4 & K5 & K6 & K7 & K8 & K9).
    unfold same_session. repeat split; try congruence.
    intros Hm. rewrite K9; [auto|]. rewrite H9; auto.
Qed.

#[global] Instance kept_preorder : PreOrder kept.
Proof.
  split.
  - intros r. unfold kept. tauto.
  - intros r1 r2 r3 (H1 & H2 & H3 & H4 & H5 & H6 & H7 & H8 & H9)
      (K1 & K2 & K3 & K4 & K5 & K6 & K7 & K8 & K9).
    unfold kept. repeat split; try congruence.
    + intros Hm. rewrite K8; [auto|]. rewrite H8; auto.
    + auto.
Qed.

Lemma same_session_kept (r r' : Recorder) : same_session r r' → kept r r'.
Proof.
  unfold same_session, kept. intros (H1 & H2 & H3 & H4 & H5 & H6 & H7 & H8 & H9).
  repeat split; try done. congruence.
Qed.

Section RunsFacts.

Variable E : Externals.
Variable R : Recorder → Recorder → Prop.
Context {HR : PreOrder R}.
Variable P : event → Prop.

Lemma runs_pure {A} (m : M A) :
  (∀ s r s', m s = (r, s') → s' = s) → runs R P m.
Proof.
  intros Hm s r s' H. apply Hm in H. subst s'.
  split; [reflexivity|]. exists []. split; [by rewrite app_nil_r|constructor].
Qed.

Lemma runs_event {A} (m : M A) (Q : event → Prop) :
  (∀ e, Q e → P e) →
  (∀ s r s', m s = (r, s') →
     s' = s ∨ ∃ e, Q e ∧ this s' = this s
                   ∧ trace (world s') = trace (world s) ++ [e]) →
  runs R P m.
Proof.
  intros HQ Hm s r s' H. apply Hm in H as [->|(e & He & Hthis & Htr)].
  - split; [reflexivity|]. exists []. split; [by rewrite app_nil_r|constructor].
  - split; [by rewrite Hthis|]. exists [e]. split; [done|].
    constructor; [auto|constructor].
Qed.

Lemma runs_ret {A} (a : A) : runs R P (mret a).
Proof. apply runs_pure. intros s r s' H. by inversion H. Qed.

Lemma runs_throw {A} (e : error) : runs R P (@throw A e).
Proof. apply runs_pure. intros s r s' H. by inversion H. Qed.

Lemma runs_get : runs R P get.
Proof. apply runs_pure. intros s r s' H. by inversion H. Qed.

Lemma runs_bind {A B} (m : M A) (f : A → M B) :
  runs R P m → (∀ a, runs R P (f a)) → runs R P (m ≫= f).
Proof.
  intros Hm Hf s r s' H. apply bind_run in H as [(e & H1 & _)|(a & s1 & H1 & H2)].
  - eapply Hm, H1.
  - destruct (Hm _ _ _ H1) as (Hk1 & t1 & Htr1 & Hall1).
    destruct (Hf a _ _ _ H2) as (Hk2 & t2 & Htr2 & Hall2).
    split; [by etrans|]. exists (t1 ++ t2).
    split; [by rewrite Htr2, Htr1, app_assoc|]. apply Forall_app. by split.
Qed.

Lemma runs_try_catch {A} (m : M A) (h : error → M A) :
  runs R P m → (∀ e, runs R P (h e)) → runs R P (try_catch m h).
Proof.
  intros Hm Hh s r s'. unfold try_catch.
  destruct (m s) as [[a|e] s1] eqn:H1; intros H.
  - inversion H; subst. eapply Hm, H1.
  - destruct (Hm _ _ _ H1) as (Hk1 & t1 & Htr1 & Hall1).
    destruct (Hh e _ _ _ H) as (Hk2 & t2 & Htr2 & Hall2).
    split; [by etrans|]. exists (t1 ++ t2).
    split; [by rewrite Htr2, Htr1, app_assoc|]. apply Forall_app. by split.
Qed.

Lemma runs_when (b : bool) (m : M unit) : runs R P m → runs R P (when b m).
Proof. intros Hm. destruct b; [exact Hm|apply runs_ret]. Qed.

Lemma runs_for_of {A} (l : list A) (body : A → M unit) :
  (∀ x, runs R P (body x)) → runs R P (for_of l body).
Proof.
  intros Hb. induction l as [|x l IH]; simpl; [apply runs_ret|].
  apply runs_bind; [apply Hb|intros _; exact IH].
Qed.

Lemma runs_perform (e : event) : P e → runs R P (perform e).
Proof.
  intros He. apply (runs_event _ (λ e', e' = e)); [by intros ? ->|].
  intros s r s' H. inversion H. right. by exists e.
Qed.

Lemma runs_existsSync (p : string) : runs R P (existsSync p).
Proof. apply runs_pure. intros s r s' H. by inversion H. Qed.

Lemma runs_copyFileSync (src dst : string) :
  P (ECopy src dst) → runs R P (copyFileSync src dst).
Proof.
  intros He. apply (runs_event _ (λ e, e = ECopy src dst)); [by intros ? ->|].
  intros s r s'. unfold copyFileSync. destruct (files (world s) !! src) as [c|];
    intros H; inversion H; [right|by left].
  by exists (ECopy src dst).
Qed.

Lemma runs_unlinkSync (p : string) : P (EUnlink p) → runs R P (unlinkSync p).
Proof.
  intros He. apply (runs_event _ (λ e, e = EUnlink p)); [by intros ? ->|].
  intros s r s'. unfold unlinkSync. destruct (files (world s) !! p);
    intros H; inversion H; [right|by left].
  by exists (EUnlink p).
Qed.

Lemma runs_writeFileSync (p c : string) :
  P (EWrite p c) → runs R P (writeFileSync p c).
Proof.
  intros He. apply (runs_event _ (λ e, e = EWrite p c)); [by intros ? ->|].
  intros s r s' H. inversion H. right. by exists (EWrite p c).
Qed.

Lemma runs_mkdirSync (p : string) : P (EMkdir p) → runs R P (mkdirSync p).
Proof.
  intros He. apply (runs_event _ (λ e, e = EMkdir p)); [by intros ? ->|].
  intros s r s' H. inversion H. right. by exists (EMkdir p).
Qed.

Lemma runs_readdirSync (p : string) : runs R P (readdirSync p).
Proof.
  apply runs_pure. intros s r s'. unfold readdirSync.
  destruct (bool_decide _); intros H; by inversion H.
Qed.

Lemma runs_statSync_size (p : string) : runs R P (statSync_size p).
Proof.
  apply runs_pure. intros s r s'. unfold statSync_size.
  destruct (files (world s) !! p); intros H; by inversion H.
Qed.

Lemma runs_runFFmpeg (args : list arg) :
  (∀ r, P (EFfmpeg args r)) → runs R P (runFFmpeg E args).
Proof.
  intros He s r s' H. apply runFFmpeg_run in H as (res & fs' & -> & _).
  split; [reflexivity|]. exists [EFfmpeg args res]. split; [done|].
  constructor; [apply He|constructor].
Qed.

Lemma runs_runFFprobe (args : list arg) :
  (∀ r out, P (EFfprobe args r out)) → runs R P (runFFprobe E args).
Proof.
  intros He. apply (runs_event _ (λ e, ∃ r out, e = EFfprobe args r out)).
  { by intros ? (r & out & ->). }
  intros s r s'. unfold runFFprobe. destruct (ffprobe E args (world s)) as [[code|] out].
  - destruct (code =? 0); intros H; inversion H; right; eexists; eauto.
  - intros H; inversion H; right; eexists; eauto.
Qed.

Lemma runs_S3_uploadFile (p b k : string) (c : bool) :
  (∀ ok, P (EUpload p b k c ok)) → runs R P (S3_uploadFile E p b k c).
Proof.
  intros He. apply (runs_event _ (λ e, ∃ ok, e = EUpload p b k c ok)).
  { by intros ? (ok & ->). }
  intros s r s'. unfold S3_uploadFile. destruct (uploadFile E p b k c (world s));
    intros H; inversion H; right; eexists; eauto.
Qed.

Lemma runs_offset (a v : string) :
  (∀ r, P (EOffset a v r)) → runs R P (run_calculateVideoOffset E a v).
Proof.
  intros He. apply (runs_event _ (λ e, ∃ r, e = EOffset a v r)).
  { by intros ? (r & ->). }
  intros s r s'. unfold run_calculateVideoOffset.
  destruct (calculateVideoOffset E a v (world s));
    intros H; inversion H; right; eexists; eauto.
Qed.

End RunsFacts.

Lemma runs_weaken {A} (R R' : Recorder → Recorder → Prop) (P Q : event → Prop)
    (m : M A) :
  (∀ r r', R r r' → R' r r') → (∀ e, P e → Q e) → runs R P m → runs R' Q m.
Proof.
  intros HR HPQ Hm s r s' H. destruct (Hm _ _ _ H) as (Hk & t & Htr & Hall).
  split; [auto|]. exists t. split; [done|]. eapply Forall_impl; eauto.
Qed.

Lemma runs_set_filesUploaded (P : event → Prop) :
  runs kept P (update (set_filesUploaded true)).
Proof.
  intros s r s' H. inversion H; subst. split.
  - unfold kept; simpl. tauto.
  - exists []. split; [by rewrite app_nil_r|constructor].
Qed.

(** The fallback for the meeting start time only logs, and sets the field
    only if it was not set. *)
Lemma runs_meetingTimeFallback (E : Externals) (P : event → Prop) :
  (∀ l msg, P (EConsole l msg)) → runs same_session P (meetingTimeFallback E).
Proof.
  intros Hc s r s1 H.
  destruct (Z.ltb_spec 0 (meetingStartTime (this s))) as [Hpos|Hle].
  - rewrite meetingTimeFallback_set in H by exact Hpos. inversion H; subst.
    split; [reflexivity|]. exists []. split; [by rewrite app_nil_r|constructor].
  - destruct (meetingTimeFallback_unset E s Hle) as (t & Hcon & Hfb). rewrite Hfb in H.
    assert (Hall : Forall P t).
    { eapply Forall_impl; [exact Hcon|]. intros []; simpl; intros; by auto. }
    destruct (10000 <? _); inversion H; subst; simpl.
    + split; [unfold same_session; simpl; repeat split; try done; lia|].
      eexists. split; [reflexivity|].
      apply Forall_app. split; [exact Hall|]. repeat constructor. apply Hc.
    + split; [reflexivity|]. eexists. split; [reflexivity|exact Hall].
Qed.

(** ** The events of post-processing *)

Ltac policy := intros; simpl; first [done | by eauto | by left | by right | tauto].

Ltac runs_step :=
  first [ match goal with |- PreOrder _ => apply _ end
        | apply runs_bind; [apply _| |intros ?]
        | apply runs_try_catch; [apply _| |intros ?]
        | apply runs_when; [apply _|]
        | apply runs_for_of; [apply _|intros ?]
        | apply runs_ret
        | apply runs_throw
        | apply runs_get
        | apply runs_existsSync
        | apply runs_readdirSync
        | apply runs_statSync_size
        | apply runs_set_filesUploaded
        | apply runs_perform; [apply _|policy]
        | apply runs_copyFileSync; [apply _|policy]
        | apply runs_unlinkSync; [apply _|policy]
        | apply runs_writeFileSync; [apply _|policy]
        | apply runs_mkdirSync; [apply _|policy]
        | apply runs_runFFmpeg; [apply _|policy]
        | apply runs_runFFprobe; [apply _|policy]
        | apply runs_S3_uploadFile; [apply _|policy]
        | apply runs_offset; [apply _|policy]
        | apply runs_meetingTimeFallback; policy
        | match goal with |- runs _ _ (if ?b then _ else _) => destruct b end ].

Section PostProcessingFacts.

Variable E : Externals.

Lemma runs_uploadAudioChunks (dir uuid : string) :
  runs eq (chunk_event E) (uploadAudioChunks E dir uuid).
Proof.
  unfold uploadAudioChunks, uploadChunk, console_warn, console_error.
  repeat runs_step.
Qed.

Lemma runs_createAudioChunks (audioPath : string) :
  runs eq (chunk_event E) (createAudioChunks E audioPath).
Proof.
  unfold createAudioChunks, getDuration.
  repeat runs_step. apply runs_uploadAudioChunks.
Qed.

Lemma chunk_event_audio_only (e : event) : chunk_event E e → audio_only_event E e.
Proof. by destruct e. Qed.

Lemma chunk_event_sync (e : event) : chunk_event E e → sync_event E e.
Proof. by destruct e. Qed.

Lemma audio_only_event_sync (e : event) : audio_only_event E e → sync_event E e.
Proof. by destruct e. Qed.

Lemma runs_syncAndMergeFiles_audio_only :
  String.eqb (recording_mode (GLOBAL E)) "audio_only" = true →
  runs eq (audio_only_event E) (syncAndMergeFiles E).
Proof.
  intros Hmode. unfold syncAndMergeFiles, console_error. rewrite Hmode.
  repeat runs_step.
  eapply (runs_weaken eq); [done|apply chunk_event_audio_only|apply runs_createAudioChunks].
Qed.

Lemma runs_prepareAudio (audioPadding : Q) :
  runs eq (sync_event E) (prepareAudio E audioPadding).
Proof.
  unfold prepareAudio, addSilencePadding, trimAudioStart.
  repeat runs_step.
Qed.

Lemma runs_mergeAndTrim (calcOffset : Q) :
  runs eq (sync_event E) (mergeAndTrim E calcOffset).
Proof.
  unfold mergeAndTrim, mergeWithSync, getDuration, finalTrimFromOffset,
    extractAudioFromVideo, cleanupTempFiles.
  repeat runs_step.
  eapply (runs_weaken eq); [done|apply chunk_event_sync|apply runs_createAudioChunks].
Qed.

Lemma runs_syncAndMergeFiles : runs same_session (sync_event E) (syncAndMergeFiles E).
Proof.
  destruct (String.eqb (recording_mode (GLOBAL E)) "audio_only") eqn:Hmode.
  - eapply (runs_weaken eq); [by intros ? ? ->|apply audio_only_event_sync|].
    by apply runs_syncAndMergeFiles_audio_only.
  - unfold syncAndMergeFiles. rewrite Hmode.
    apply runs_bind; [apply _|apply runs_offset; [apply _|policy]|intros sr].
    apply runs_bind; [apply _|apply runs_meetingTimeFallback; policy|intros _].
    apply runs_bind; [apply _|apply runs_get; apply _|intros r].
    apply runs_bind; [apply _| |intros _].
    + eapply (runs_weaken eq); [by intros ? ? ->|done|apply runs_prepareAudio].
    + eapply (runs_weaken eq); [by intros ? ? ->|done|apply runs_mergeAndTrim].
Qed.

Lemma runs_uploadToS3 : runs kept (final_upload_event E) (uploadToS3 E).
Proof.
  unfold uploadToS3.
  repeat runs_step.
Qed.

(** [handleSuccessfulRecording] by the results of its two stages. *)
Lemma handleSuccessfulRecording_unfold (s : St) :
  handleSuccessfulRecording E s =
    match syncAndMergeFiles E s with
    | (Ok _, s1) =>
        if isServerless (GLOBAL E) then (Ok tt, s1)
        else match uploadToS3 E s1 with
             | (Ok _, s2) => (Ok tt, s2)
             | (Throw _, s2) =>
                 (Ok tt, onWorld (record (EConsole LError [Lit "Upload failed:"])) s2)
             end
    | (Throw e, s1) =>
        (Ok tt,
         onWorld (record (EEmit (EvError e)))
           (onWorld (record (EConsole LError [Lit "Error during recording processing:"]))
              s1))
    end.
Proof.
  unfold handleSuccessfulRecording, try_catch, mbind, M_bind.
  destruct (syncAndMergeFiles E s) as [[[]|e] s1]; [|reflexivity].
  destruct (isServerless (GLOBAL E)); [reflexivity|]. simpl.
  destruct (uploadToS3 E s1) as [[[]|e] s2]; reflexivity.
Qed.

Lemma trace_ext_inj (l t t' : list event) : l ++ t = l ++ t' → t = t'.
Proof. apply app_inv_head. Qed.

End PostProcessingFacts.

Lemma append_inv_head (a b c : string) : a +:+ b = a +:+ c → b = c.
Proof.
  induction a as [|x a IH]; [done|]. rewrite !append_cons. intros H.
  injection H as H. auto.
Qed.

Lemma path_join_inj (dir a b : string) : path_join dir a = path_join dir b → a = b.
Proof. unfold path_join. intros H. by do 2 apply append_inv_head in H. Qed.


(** X2. Post-processing leaves the session as it is: whatever happens in
    it, the subprocess handle, the two output paths, [isRecording], the
    recording start time, the grace-period flag and the pending stop are
    unchanged; a meeting start time set by the caller is never
    overwritten; [filesUploaded] is never lowered. *)
Theorem postprocessing_keeps_session (E : Externals) (s : St) :
  kept (this s) (this (handleSuccessfulRecording E s).2).
Proof.
  rewrite handleSuccessfulRecording_unfold.
  destruct (syncAndMergeFiles E s) as [[[]|e] s1] eqn:Hsync;
    destruct (runs_syncAndMergeFiles E _ _ _ Hsync) as (Hk1 & _); apply same_session_kept in Hk1; [|exact Hk1].
  destruct (isServerless (GLOBAL E)); [exact Hk1|].
  destruct (uploadToS3 E s1) as [[[]|e] s2] eqn:Hup;
    destruct (runs_uploadToS3 E _ _ _ Hup) as (Hk2 & _); simpl;
    by etrans.
Qed.

(** X3. Whatever the recording mode and whatever its result,
    [syncAndMergeFiles] unlinks no file but [silence.wav] and
    [concat_list.txt] of the temporary directory: the raw capture files, the
    processed audio and the merged file are never deleted. It uploads only
    chunks, to the temporary audio bucket, and emits nothing. *)
Theorem postprocessing_keeps_raw_files (E : Externals) (s : St) :
  ∃ t, trace (world (syncAndMergeFiles E s).2) = trace (world s) ++ t
    ∧ Forall (sync_event E) t
    ∧ ∀ p, p ∈ [rawVideoPath E; rawAudioPath E; processedAudioPath E; mergedPath E] →
           EUnlink p ∉ t.
Proof.
  destruct (syncAndMergeFiles E s) as [r s'] eqn:Hsync.
  destruct (runs_syncAndMergeFiles E _ _ _ Hsync) as (_ & t & Ht & Hall).
  exists t. split; [done|]. split; [done|].
  intros p Hp Hin. rewrite Forall_forall in Hall. apply Hall in Hin. simpl in Hin.
  unfold silenceFile, concatListFile in Hin.
  rewrite !elem_of_cons, elem_of_nil in Hp.
  unfold rawVideoPath, rawAudioPath, processedAudioPath, mergedPath in Hp.
  destruct Hp as [->|[->|[->|[->|[]]]]]; destruct Hin as [Hin|Hin];
    apply path_join_inj in Hin; discriminate.
Qed.


(** Audio-only mode with the raw audio missing. *)
Lemma syncAndMergeFiles_audio_missing (E : Externals) (s : St) :
  String.eqb (recording_mode (GLOBAL E)) "audio_only" = true →
  (existsSync (rawAudioPath E) s).1 = Ok false →
  syncAndMergeFiles E s =
    (Ok tt, onWorld (record (EConsole LError [Lit "Raw audio file not found:";
                                              Lit (rawAudioPath E)])) s).
Proof.
  intros Hmode Hex. unfold syncAndMergeFiles. rewrite Hmode.
  unfold existsSync in *. unfold mbind, M_bind. simpl in Hex.
  injection Hex as ->. reflexivity.
Qed.


(** X6. A lost audio-only recording is reported as uploaded. In audio-only
    mode with an uploader, when the raw audio is missing and no artifact is
    on disk, post-processing logs one line, uploads nothing, emits no
    'error', and sets [filesUploaded]. *)
Theorem audio_only_missing_audio_marked_uploaded (E : Externals) (s : St) :
  String.eqb (recording_mode (GLOBAL E)) "audio_only" = true →
  isServerless (GLOBAL E) = false →
  s3Uploader E = true →
  filesUploaded (this s) = false →
  (∀ p, p ∈ [rawAudioPath E; audioOutputPath (this s); outputPath (this s)] →
        (existsSync p s).1 = Ok false) →
  handleSuccessfulRecording E s =
    (Ok tt,
     onThis (set_filesUploaded true)
       (onWorld (record (EConsole LError [Lit "Raw audio file not found:";
                                          Lit (rawAudioPath E)])) s)).
Proof.
  intros Hmode Hsl Hup Hfu Hex.
  assert (Hraw := Hex (rawAudioPath E)).
  assert (Haud := Hex (audioOutputPath (this s))).
  assert (Hout := Hex (outputPath (this s))).
  rewrite !elem_of_cons in Hraw, Haud, Hout.
  specialize (Hraw (or_introl eq_refl)).
  specialize (Haud (or_intror (or_introl eq_refl))).
  specialize (Hout (or_intror (or_intror (or_introl eq_refl)))).
  clear Hex.
  rewrite handleSuccessfulRecording_unfold, Hsl.
  rewrite (syncAndMergeFiles_audio_missing E s Hmode Hraw).
  rewrite uploadToS3_unfold. cbn [this onWorld]. rewrite Hfu, Hup. simpl orb. cbv iota.
  unfold uploadArtifact, mbind, M_bind, existsSync in *.
  cbn [world onWorld this record files dirs fst] in *.
  injection Haud as Haud. injection Hout as Hout.
  rewrite Haud. cbn [when mret M_ret world onWorld record files dirs].
  rewrite Hout. reflexivity.
Qed.

(** ** Failures of the tools *)

Section FailFastFacts.

Variable E : Externals.

(** A computation that never throws the error of a tool. *)
Lemma failfast_safe {A} (m : M A) :
  runs eq (λ _, True) m →
  (∀ s e s', m s = (Throw e, s') → ¬ is_tool_error e) →
  failfast m.
Proof.
  intros Hm Hsafe s r s' H. destruct (Hm _ _ _ H) as (_ & t & Ht & _).
  exists t. split; [done|]. intros e -> He. by apply Hsafe in H.
Qed.

Lemma failfast_ret {A} (a : A) : failfast (mret a).
Proof.
  apply failfast_safe; [apply runs_ret, _|]. intros s e s' H. inversion H.
Qed.

Lemma failfast_get : failfast get.
Proof.
  apply failfast_safe; [apply runs_get, _|]. intros s e s' H. inversion H.
Qed.

Lemma failfast_bind {A B} (m : M A) (f : A → M B) :
  failfast m → (∀ a, failfast (f a)) → failfast (m ≫= f).
Proof.
  intros Hm Hf s r s' H. apply bind_run in H as [(e & H1 & ->)|(a & s1 & H1 & H2)].
  - destruct (Hm _ _ _ H1) as (t & Ht & Hlast). exists t. split; [done|].
    intros e' [= <-]. by apply Hlast.
  - destruct (Hm _ _ _ H1) as (t1 & Ht1 & _).
    destruct (Hf a _ _ _ H2) as (t2 & Ht2 & Hlast).
    exists (t1 ++ t2). split; [by rewrite Ht2, Ht1, app_assoc|].
    intros e -> He. destruct (Hlast e eq_refl He) as (t0 & ev & -> & Hev).
    exists (t1 ++ t0), ev. split; [by rewrite app_assoc|done].
Qed.

Lemma failfast_try_catch {A} (m : M A) (h : error → M A) :
  failfast m → (∀ e, failfast (h e)) → failfast (try_catch m h).
Proof.
  intros Hm Hh s r s'. unfold try_catch.
  destruct (m s) as [[a|e] s1] eqn:H1; intros H.
  - inversion H; subst. destruct (Hm _ _ _ H1) as (t & Ht & _).
    exists t. split; [done|]. discriminate.
  - destruct (Hm _ _ _ H1) as (t1 & Ht1 & _).
    destruct (Hh e _ _ _ H) as (t2 & Ht2 & Hlast).
    exists (t1 ++ t2). split; [by rewrite Ht2, Ht1, app_assoc|].
    intros e' -> He. destruct (Hlast e' eq_refl He) as (t0 & ev & -> & Hev).
    exists (t1 ++ t0), ev. split; [by rewrite app_assoc|done].
Qed.

Lemma failfast_when (b : bool) (m : M unit) : failfast m → failfast (when b m).
Proof. intros Hm. destruct b; [exact Hm|apply failfast_ret]. Qed.

Lemma failfast_for_of {A} (l : list A) (body : A → M unit) :
  (∀ x, failfast (body x)) → failfast (for_of l body).
Proof.
  intros Hb. induction l as [|x l IH]; simpl; [apply failfast_ret|].
  apply failfast_bind; [apply Hb|intros _; exact IH].
Qed.

Lemma failfast_perform (e : event) : failfast (perform e).
Proof.
  apply failfast_safe; [by apply runs_perform; [apply _|]|].
  intros s e' s' H. inversion H.
Qed.

Lemma failfast_existsSync (p : string) : failfast (existsSync p).
Proof.
  apply failfast_safe; [apply runs_existsSync, _|]. intros s e s' H. inversion H.
Qed.

Lemma failfast_copyFileSync (src dst : string) : failfast (copyFileSync src dst).
Proof.
  apply failfast_safe; [by apply runs_copyFileSync; [apply _|]|].
  intros s e s'. unfold copyFileSync. destruct (files (world s) !! src);
    intros H; inversion H. by intros [].
Qed.

Lemma failfast_unlinkSync (p : string) : failfast (unlinkSync p).
Proof.
  apply failfast_safe; [by apply runs_unlinkSync; [apply _|]|].
  intros s e s'. unfold unlinkSync. destruct (files (world s) !! p);
    intros H; inversion H. by intros [].
Qed.

Lemma failfast_writeFileSync (p c : string) : failfast (writeFileSync p c).
Proof.
  apply failfast_safe; [by apply runs_writeFileSync; [apply _|]|].
  intros s e s' H. inversion H.
Qed.

Lemma failfast_mkdirSync (p : string) : failfast (mkdirSync p).
Proof.
  apply failfast_safe; [by apply runs_mkdirSync; [apply _|]|].
  intros s e s' H. inversion H.
Qed.

Lemma failfast_readdirSync (p : string) : failfast (readdirSync p).
Proof.
  apply failfast_safe; [apply runs_readdirSync, _|].
  intros s e s'. unfold readdirSync. destruct (bool_decide _);
    intros H; inversion H. by intros [].
Qed.

Lemma failfast_statSync_size (p : string) : failfast (statSync_size p).
Proof.
  apply failfast_safe; [apply runs_statSync_size, _|].
  intros s e s'. unfold statSync_size. destruct (files (world s) !! p);
    intros H; inversion H. by intros [].
Qed.

Lemma failfast_S3_uploadFile (p b k : string) (c : bool) :
  failfast (S3_uploadFile E p b k c).
Proof.
  apply failfast_safe; [by apply runs_S3_uploadFile; [apply _|]|].
  intros s e s'. unfold S3_uploadFile. destruct (uploadFile E p b k c (world s));
    intros H; inversion H. by intros [].
Qed.

Lemma failfast_meetingTimeFallback : failfast (meetingTimeFallback E).
Proof.
  intros s r s' H.
  destruct (runs_meetingTimeFallback E (λ _, True) (λ _ _, I) _ _ _ H) as (_ & t & Ht & _).
  exists t. split; [done|]. intros e -> He.
  destruct (Z.ltb_spec 0 (meetingStartTime (this s))) as [Hpos|Hle].
  - rewrite meetingTimeFallback_set in H by exact Hpos. discriminate.
  - destruct (meetingTimeFallback_unset E s Hle) as (t' & _ & Hfb). rewrite Hfb in H.
    destruct (10000 <? _); inversion H; subst. destruct He.
Qed.

Lemma failfast_runFFmpeg (args : list arg) : failfast (runFFmpeg E args).
Proof.
  intros s r s'. unfold runFFmpeg. destruct (ffmpeg E args (world s)) as [[code|] fs'].
  - destruct (Z.eqb_spec code 0) as [->|Hne]; intros H; inversion H; subst;
      (eexists [_]; split; [reflexivity|]); [discriminate|].
    intros e [= <-] _. by eexists [], _.
  - intros H; inversion H; subst. eexists [_]. split; [reflexivity|].
    intros e [= <-] _. by eexists [], _.
Qed.

Lemma failfast_runFFprobe (args : list arg) : failfast (runFFprobe E args).
Proof.
  intros s r s'. unfold runFFprobe. destruct (ffprobe E args (world s)) as [[code|] out].
  - destruct (Z.eqb_spec code 0) as [->|Hne]; intros H; inversion H; subst;
      (eexists [_]; split; [reflexivity|]); [discriminate|].
    intros e [= <-] _. by eexists [], _.
  - intros H; inversion H; subst. eexists [_]. split; [reflexivity|].
    intros e [= <-] _. by eexists [], _.
Qed.

Lemma failfast_offset (a v : string) : failfast (run_calculateVideoOffset E a v).
Proof.
  intros s r s'. unfold run_calculateVideoOffset.
  destruct (calculateVideoOffset E a v (world s)); intros H; inversion H; subst;
    (eexists [_]; split; [reflexivity|]); [discriminate|].
  intros e [= <-] _. by eexists [], _.
Qed.

Ltac failfast_step :=
  first [ apply failfast_bind; [|intros ?]
        | apply failfast_try_catch; [|intros ?]
        | apply failfast_when
        | apply failfast_for_of; intros ?
        | apply failfast_ret
        | apply failfast_get
        | apply failfast_existsSync
        | apply failfast_readdirSync
        | apply failfast_statSync_size
        | apply failfast_perform
        | apply failfast_copyFileSync
        | apply failfast_unlinkSync
        | apply failfast_writeFileSync
        | apply failfast_mkdirSync
        | apply failfast_runFFmpeg
        | apply failfast_runFFprobe
        | apply failfast_S3_uploadFile
        | apply failfast_offset
        | apply failfast_meetingTimeFallback
        | match goal with |- failfast (if ?b then _ else _) => destruct b end ].

Lemma failfast_createAudioChunks (audioPath : string) :
  failfast (createAudioChunks E audioPath).
Proof.
  unfold createAudioChunks, getDuration, uploadAudioChunks, uploadChunk,
    console_warn, console_error.
  repeat failfast_step.
Qed.

Lemma failfast_prepareAudio (audioPadding : Q) : failfast (prepareAudio E audioPadding).
Proof.
  unfold prepareAudio, addSilencePadding, trimAudioStart.
  repeat failfast_step.
Qed.

Lemma failfast_mergeAndTrim (calcOffset : Q) : failfast (mergeAndTrim E calcOffset).
Proof.
  unfold mergeAndTrim, mergeWithSync, getDuration, finalTrimFromOffset,
    extractAudioFromVideo, cleanupTempFiles.
  apply failfast_bind; [apply failfast_runFFmpeg|intros _].
  apply failfast_bind; [apply failfast_runFFprobe|intros vd].
  apply failfast_bind; [apply failfast_runFFprobe|intros ad].
  apply failfast_bind; [apply failfast_get|intros r].
  apply failfast_bind; [apply failfast_runFFmpeg|intros _].
  apply failfast_bind; [apply failfast_runFFmpeg|intros _].
  apply failfast_bind; [apply failfast_createAudioChunks|intros _].
  apply failfast_ret.
Qed.

Lemma failfast_syncAndMergeFiles : failfast (syncAndMergeFiles E).
Proof.
  unfold syncAndMergeFiles, console_error.
  destruct (String.eqb _ _).
  - apply failfast_bind; [apply failfast_existsSync|intros []].
    + apply failfast_bind; [apply failfast_get|intros r].
      apply failfast_bind; [apply failfast_copyFileSync|intros _].
      apply failfast_createAudioChunks.
    + apply failfast_perform.
  - apply failfast_bind; [apply failfast_offset|intros sr].
    apply failfast_bind; [apply failfast_meetingTimeFallback|intros _].
    apply failfast_bind; [apply failfast_get|intros r].
    apply failfast_bind; [apply failfast_prepareAudio|intros _].
    apply failfast_mergeAndTrim.
Qed.

End FailFastFacts.

(** X7. A failed tool run stops post-processing at once. When
    [syncAndMergeFiles] throws the error of a media tool or of the offset
    calculation, the failed run is the last thing it did, and the error
    carries its exit code; [handleSuccessfulRecording] then only logs one
    line and emits 'error' with that error. No later stage is run on the
    output of a failed one. *)
Theorem tool_failure_stops_postprocessing (E : Externals) (s s1 : St) (e : error) :
  syncAndMergeFiles E s = (Throw e, s1) →
  is_tool_error e →
  ∃ t0 ev,
    tool_failure e ev
    ∧ trace (world (handleSuccessfulRecording E s).2) =
        trace (world s) ++ t0
        ++ [ev; EConsole LError [Lit "Error during recording processing:"];
            EEmit (EvError e)].
Proof.
  intros Hsync He.
  destruct (failfast_syncAndMergeFiles E _ _ _ Hsync) as (t & Ht & Hlast).
  destruct (Hlast e eq_refl He) as (t0 & ev & -> & Hev).
  exists t0, ev. split; [exact Hev|].
  rewrite handleSuccessfulRecording_unfold, Hsync. simpl.
  rewrite Ht. by rewrite <- !app_assoc.
Qed.

Lemma tool_failure_stops_postprocessing_witness :
  ∃ t0 ev,
    tool_failure (FFmpegFailed 1) ev
    ∧ trace (world (handleSuccessfulRecording failing_env (demo_state 1010000 true)).2) =
        trace (world (demo_state 1010000 true)) ++ t0
        ++ [ev; EConsole LError [Lit "Error during recording processing:"];
            EEmit (EvError (FFmpegFailed 1))].
Proof.
  eapply (tool_failure_stops_postprocessing failing_env (demo_state 1010000 true)).
  - vm_compute. reflexivity.
  - exact I.
Defined.

(** ** The stages of the video branch *)

Section PipelineFacts.

Variable E : Externals.

Lemma runs_prepareAudio_events (audioPadding : Q) :
  runs eq (prepare_event E) (prepareAudio E audioPadding).
Proof.
  unfold prepareAudio, addSilencePadding, trimAudioStart.
  repeat runs_step.
Qed.

Lemma runFFmpeg_ok_trace (args : list arg) (s s' : St) :
  runFFmpeg E args s = (Ok tt, s') →
  this s' = this s
  ∧ trace (world s') = trace (world s) ++ [EFfmpeg args (Closed 0)].
Proof. intros H. apply runFFmpeg_ok in H as (fs' & _ & ->). done. Qed.

Lemma runFFprobe_ok_trace (args : list arg) (s s' : St) (out : Q) :
  runFFprobe E args s = (Ok out, s') →
  this s' = this s
  ∧ trace (world s') = trace (world s) ++ [EFfprobe args (Closed 0) out].
Proof. intros H. apply runFFprobe_ok in H as (_ & ->). done. Qed.

End PipelineFacts.



(** ** The final upload, once *)

Section UploadOnceFacts.

Variable E : Externals.

(** One block of [uploadToS3] that returns: the file is gone, no file has
    appeared. *)
Lemma uploadArtifact_ok (p key : string) (s s' : St) :
  uploadArtifact E p key s = (Ok tt, s') →
  this s' = this s
  ∧ (p ≠ "" → files (world s') !! p = None)
  ∧ (∀ q, files (world s) !! q = None → files (world s') !! q = None).
Proof.
  unfold uploadArtifact, existsSync, when, S3_uploadFile, unlinkSync, mbind, M_bind, mret, M_ret.
  destruct (String.eqb_spec p "") as [->|Hne]; cbn [negb andb].
  { intros H; inversion H; subst. split; [done|]. split; [done|]. auto. }
  destruct (files (world s) !! p) as [c|] eqn:Hf.
  - rewrite bool_decide_eq_true_2 by eauto. cbn [orb].
    destruct (uploadFile E p _ key false (world s)); cbn iota; [|discriminate].
    cbn [world onWorld record files]. rewrite Hf.
    intros H; inversion H; subst; clear H. cbn [this world onWorld set_files record files].
    split; [done|]. split.
    + intros _. apply lookup_delete_eq.
    + intros q Hq. destruct (decide (p = q)) as [->|Hpq]; [apply lookup_delete_eq|].
      by rewrite lookup_delete_ne.
  - rewrite bool_decide_eq_false_2 by (intros [? ?]; congruence). cbn [orb].
    destruct (bool_decide (p ∈ dirs (world s))).
    + destruct (uploadFile E p _ key false (world s)); cbn iota; [|discriminate].
      cbn [world onWorld record files]. rewrite Hf. discriminate.
    + intros H; inversion H; subst. split; [done|]. split; [done|]. auto.
Qed.

End UploadOnceFacts.

(** X9. The final upload happens at most once. A call of [uploadToS3] that
    returns leaves a state in which a second call returns at once and does
    nothing. If the first call had work to do (an uploader is configured,
    [filesUploaded] was unset), then [filesUploaded] is now set and neither
    artifact is on disk any more. *)
Theorem uploadToS3_once (E : Externals) (s s' : St) :
  uploadToS3 E s = (Ok tt, s') →
  uploadToS3 E s' = (Ok tt, s')
  ∧ (filesUploaded (this s) = false → s3Uploader E = true →
       filesUploaded (this s') = true
       ∧ ∀ p, p ∈ [audioOutputPath (this s); outputPath (this s)] → p ≠ "" →
              files (world s') !! p = None).
Proof.
  intros H. rewrite uploadToS3_unfold in H.
  destruct (filesUploaded (this s) || negb (s3Uploader E)) eqn:Hskip.
  - inversion H; subst s'. split.
    + rewrite uploadToS3_unfold, Hskip. reflexivity.
    + intros Hfu Hup. rewrite Hfu, Hup in Hskip. discriminate.
  - apply bind_ok in H as ([] & s1 & H1 & H).
    apply bind_ok in H as ([] & s2 & H2 & H).
    inversion H; subst s'; clear H.
    apply uploadArtifact_ok in H1 as (Ht1 & Ha1 & Hq1).
    apply uploadArtifact_ok in H2 as (Ht2 & Ha2 & Hq2).
    split.
    + rewrite uploadToS3_unfold. reflexivity.
    + intros _ _. split; [reflexivity|].
      intros p Hp Hne. cbn [world onThis].
      rewrite !elem_of_cons, elem_of_nil in Hp. destruct Hp as [->|[->|[]]]; auto.
Qed.

Lemma uploadToS3_once_witness :
  uploadToS3 scenario1 final_state =
    (Ok tt, onThis (set_filesUploaded true)
              (onWorld (λ w, {| files := ∅; dirs := dirs w; ticks := ticks w;
                                trace := [EUpload "/out/id.wav" "video" "id.wav" false true;
                                          EUnlink "/out/id.wav";
                                          EUpload "/out/id.mp4" "video" "id.mp4" false true;
                                          EUnlink "/out/id.mp4"] |}) final_state))
  ∧ files (world (uploadToS3 scenario1 final_state).2) !! "/out/id.mp4" = None.
Proof.
  assert (Hrun : uploadToS3 scenario1 final_state =
    (Ok tt, onThis (set_filesUploaded true)
              (onWorld (λ w, {| files := ∅; dirs := dirs w; ticks := ticks w;
                                trace := [EUpload "/out/id.wav" "video" "id.wav" false true;
                                          EUnlink "/out/id.wav";
                                          EUpload "/out/id.mp4" "video" "id.mp4" false true;
                                          EUnlink "/out/id.mp4"] |}) final_state))).
  { vm_compute. reflexivity. }
  split; [exact Hrun|].
  destruct (uploadToS3_once scenario1 final_state _ Hrun) as [_ Hdone].
  destruct (Hdone eq_refl eq_refl) as [_ Hgone].
  rewrite Hrun. apply Hgone; [|discriminate].
  apply elem_of_cons. right. apply elem_of_cons. by left.
Defined.

(** ** Stopping, from the request to 'stopped' *)

Section StopFacts.

Variable E : Externals.

(** The end of the 'exit' listener in full: 'stopped' releases a pending
    [stopRecording], which clears the subprocess handle and the grace-period
    flag. *)
Lemma finish_full (s : St) :
  finish s =
    (Ok tt,
     {| this := if (0 <? stopWaiters (this s))%nat
                then set_stopWaiters 0
                       (set_ffmpegProcess None
                          (set_gracePeriodActive false (set_isRecording false (this s))))
                else set_isRecording false (this s);
        world := record (EEmit EvStopped) (world s) |}).
Proof.
  unfold finish, emit, update, perform, get, when, mbind, M_bind, mret, M_ret; simpl.
  destruct (0 <? stopWaiters (this s))%nat; reflexivity.
Qed.

(** [stopRecording] after the grace period, on a recorder with a subprocess
    handle. *)
Lemma stopRecording_afterGrace_handle (s : St) (p : process) :
  ffmpegProcess (this s) = Some p →
  stopRecording_afterGrace s =
    (Ok tt,
     {| this := set_ffmpegProcess (Some {| killed := true |})
                  (set_stopWaiters (S (stopWaiters (this s))) (this s));
        world := record (ESetTimeout 8000) (record (EKill SIGINT) (world s)) |}).
Proof.
  intros Hp. unfold stopRecording_afterGrace, update, perform, get, mbind, M_bind; simpl.
  rewrite Hp. reflexivity.
Qed.

(** [stopRecording] after the grace period returns only on a recorder with
    a subprocess handle. *)
Lemma stopRecording_afterGrace_ok (s s1 : St) :
  stopRecording_afterGrace s = (Ok tt, s1) →
  ffmpegProcess (this s1) = Some {| killed := true |}
  ∧ (0 < stopWaiters (this s1))%nat.
Proof.
  destruct (ffmpegProcess (this s)) as [p|] eqn:Hp.
  - rewrite (stopRecording_afterGrace_handle s p Hp). intros H; inversion H; subst.
    simpl. split; [done|lia].
  - unfold stopRecording_afterGrace, update, get, throw, mbind, M_bind; simpl.
    rewrite Hp. discriminate.
Qed.

Lemma handleSuccessfulRecording_kept (s : St) :
  ∃ s', handleSuccessfulRecording E s = (Ok tt, s') ∧ kept (this s) (this s').
Proof.
  rewrite handleSuccessfulRecording_unfold.
  destruct (syncAndMergeFiles E s) as [[[]|e] s1] eqn:Hsync;
    destruct (runs_syncAndMergeFiles E _ _ _ Hsync) as (Hk1 & _);
    apply same_session_kept in Hk1; [|by eauto].
  destruct (isServerless (GLOBAL E)); [by eauto|].
  destruct (uploadToS3 E s1) as [[[]|e] s2] eqn:Hup;
    destruct (runs_uploadToS3 E _ _ _ Hup) as (Hk2 & _);
    eexists; (split; [reflexivity|]); simpl; by etrans.
Qed.

(** The 'exit' listener, whatever the code: if a [stopRecording] is pending
    it is released and the handle is cleared; if none is, the handle and
    the grace-period flag stay as they are. *)
Lemma onExit_session (code : option Z) (s : St) :
  ∃ s0 s', onExit E code s = (Ok tt, s')
    ∧ kept (this s) (this s0)
    ∧ this s' = (if (0 <? stopWaiters (this s))%nat
                 then set_stopWaiters 0
                        (set_ffmpegProcess None
                           (set_gracePeriodActive false (set_isRecording false (this s0))))
                 else set_isRecording false (this s0))
    ∧ trace (world s') = trace (world s0) ++ [EEmit EvStopped].
Proof.
  rewrite onExit_unfold. destruct (isSuccessful _ _).
  - destruct (handleSuccessfulRecording_kept s) as (s0 & H0 & Hk).
    unfold mbind, M_bind. rewrite H0, finish_full.
    exists s0. eexists. split; [reflexivity|]. split; [exact Hk|].
    destruct Hk as (_ & _ & _ & _ & _ & _ & -> & _). done.
  - unfold mbind, M_bind, console_warn, perform. rewrite finish_full.
    eexists (onWorld _ s), _. split; [reflexivity|]. split; [apply kept_preorder|].
    done.
Qed.

End StopFacts.







(** X13. A capture process ended by a signal is a failed recording. When
    the exit code is [null], as after SIGKILL, the recording is never
    post-processed or uploaded, even during a requested stop: the listener
    logs one warning, changes no file, clears [isRecording] and emits
    'stopped'. *)
Theorem exit_by_signal_discards_recording (E : Externals) (s : St) :
  ∃ s', onExit E None s = (Ok tt, s')
    ∧ isRecording (this s') = false
    ∧ files (world s') = files (world s)
    ∧ trace (world s') =
        trace (world s)
        ++ [EConsole LWarn [Lit "Recording failed - unexpected exit code: "; Lit "null"];
            EEmit EvStopped].
Proof.
  rewrite onExit_unfold. cbn [isSuccessful render_code].
  unfold mbind, M_bind, console_warn, perform. rewrite finish_full.
  eexists. split; [reflexivity|]. cbn [this world onWorld record files trace].
  split; [by destruct (0 <? _)%nat|]. split; [done|]. by rewrite <- app_assoc.
Qed.

(** ** The output paths *)

Lemma append_nonempty (a b : string) : b ≠ "" → a +:+ b ≠ "".
Proof. destruct a; [done|]. by rewrite append_cons. Qed.

(** X14. [generateOutputPaths] touches nothing but the two paths. The
    audio path is the output path of the path manager with [.wav]; in video
    mode the video path is the same with [.mp4], and the two differ, so
    that the final upload never takes one artifact for the other; in
    audio-only mode the video path is left as it was. *)
Theorem generateOutputPaths_distinct (E : Externals) (s : St) :
  ∃ s', generateOutputPaths E s = (Ok tt, s')
    ∧ world s' = world s
    ∧ this s' = set_audioOutputPath (audioOutputPath (this s'))
                  (set_outputPath (outputPath (this s')) (this s))
    ∧ audioOutputPath (this s') = getOutputPath (paths E) +:+ ".wav"
    ∧ audioOutputPath (this s') ≠ ""
    ∧ if String.eqb (recording_mode (GLOBAL E)) "audio_only"
      then outputPath (this s') = outputPath (this s)
      else outputPath (this s') = getOutputPath (paths E) +:+ ".mp4"
           ∧ outputPath (this s') ≠ audioOutputPath (this s').
Proof.
  unfold generateOutputPaths, update, mbind, M_bind.
  destruct s as [[] w].
  destruct (String.eqb (recording_mode (GLOBAL E)) "audio_only");
    (eexists; split; [reflexivity|]); cbn [this world onThis];
    (split; [reflexivity|]); (split; [reflexivity|]);
    (split; [reflexivity|]); (split; [by apply append_nonempty|]);
    cbn [outputPath audioOutputPath set_outputPath set_audioOutputPath].
  - reflexivity.
  - split; [reflexivity|]. intros H. by apply append_inv_head in H.
Qed.

(** ** The further properties on concrete sessions *)



Lemma audio_only_missing_audio_marked_uploaded_witness :
  handleSuccessfulRecording scenario6 lost_audio_state =
    (Ok tt,
     onThis (set_filesUploaded true)
       (onWorld (record (EConsole LError [Lit "Raw audio file not found:";
                                          Lit (rawAudioPath scenario6)]))
          lost_audio_state)).
Proof.
  apply (audio_only_missing_audio_marked_uploaded scenario6 lost_audio_state);
    try reflexivity.
  intros p Hp. rewrite !elem_of_cons, elem_of_nil in Hp.
  destruct Hp as [->|[->|[->|[]]]]; vm_compute; reflexivity.
Defined.

(** ** The audio stream over several chunks *)

Section StreamRunFacts.

Import Stream.

Lemma read_f32_app (k1 k2 : nat) (l1 l2 : list Byte.byte) :
  length l1 = (4 * k1)%nat →
  read_f32 (k1 + k2) (l1 ++ l2) = read_f32 k1 l1 ++ read_f32 k2 l2.
Proof.
  revert l1. induction k1 as [|k1 IH]; intros l1 Hl.
  - destruct l1; [reflexivity|simpl in Hl; lia].
  - destruct l1 as [|b0 [|b1 [|b2 [|b3 rest]]]]; simpl in Hl; try lia.
    simpl. f_equal. apply IH. lia.
Qed.

(** A chunk of whole samples that starts on a sample boundary. *)
Lemma onData_aligned (data : Buffer) :
  wf_Buffer data →
  (byteOffset data mod 4 = 0)%nat →
  (buf_length data mod 4 = 0)%nat →
  length (bytes_of data) = buf_length data
  ∧ onData true data = Delivered (read_f32 (buf_length data / 4) (bytes_of data)).
Proof.
  intros Hwf Hal Hlen. unfold wf_Buffer in Hwf.
  destruct data as [buf off n].
  cbn [buffer byteOffset buf_length] in *.
  pose proof (Nat.div_mod_eq n 4) as Hdm.
  assert (Hb : length (bytes_of {| buffer := buf; byteOffset := off; buf_length := n |}) = n).
  { unfold bytes_of. cbn [buffer byteOffset buf_length].
    rewrite length_take, length_drop. lia. }
  split; [exact Hb|].
  unfold onData, new_Float32Array.
  cbn [buffer byteOffset buf_length].
  rewrite Hal, ToIndex_length_div_4. cbn [Nat.eqb negb].
  destruct (Nat.ltb_spec (length buf) (off + n / 4 * 4)) as [Hbad|_]; [lia|].
  f_equal. unfold bytes_of. cbn [buffer byteOffset buf_length].
  symmetry. apply read_f32_take. lia.
Qed.

End StreamRunFacts.

(** X15. The audio stream survives chunking. For any sequence of chunks
    that hold whole samples and start on a sample boundary, every chunk is
    handed to the sink, and the frames handed over, in order, are exactly
    the samples of the byte stream: no sample is lost, repeated or split at
    a chunk boundary. *)
Theorem stream_frames_concat (chunks : list Stream.Buffer) :
  Forall (λ d, Stream.wf_Buffer d
               ∧ (Stream.byteOffset d mod 4 = 0)%nat
               ∧ (Stream.buf_length d mod 4 = 0)%nat) chunks →
  let bytes := concat (map Stream.bytes_of chunks) in
  ∃ frames,
    Forall2 (λ d f, Stream.onData true d = Stream.Delivered f) chunks frames
    ∧ concat frames = Stream.read_f32 (length bytes / 4) bytes
    ∧ (4 * length (concat frames) = length bytes)%nat.
Proof.
  intros Hall. cbv zeta. induction Hall as [|d chunks (Hwf & Hal & Hlen) Hall IH].
  - exists []. split; [constructor|]. by split.
  - destruct IH as (frames & Hfr & Hcat & Hlenf).
    destruct (onData_aligned d Hwf Hal Hlen) as [Hb Hd].
    exists (Stream.read_f32 (Stream.buf_length d / 4) (Stream.bytes_of d) :: frames).
    split; [by constructor|].
    pose proof (Nat.div_mod_eq (Stream.buf_length d) 4) as Hdm.
    set (bytes := concat (map Stream.bytes_of chunks)) in *.
    assert (Hk : (length (Stream.bytes_of d ++ bytes) / 4
                  = Stream.buf_length d / 4 + length bytes / 4)%nat).
    { rewrite length_app, Hb.
      replace (Stream.buf_length d) with (Stream.buf_length d / 4 * 4)%nat at 1 by lia.
      rewrite Nat.add_comm, Nat.div_add by lia. lia. }
    cbn [map concat]. fold bytes. rewrite Hk, read_f32_app by lia.
    split; [by rewrite Hcat|].
    rewrite length_app, length_app, Hb, read_f32_length by lia. lia.
Qed.

Lemma stream_frames_concat_witness :
  ∃ frames,
    Forall2 (λ d f, Stream.onData true d = Stream.Delivered f)
      [{| Stream.buffer := Stream.buffer chunk6; Stream.byteOffset := 0;
          Stream.buf_length := 4 |};
       {| Stream.buffer := Stream.buffer chunk6; Stream.byteOffset := 0;
          Stream.buf_length := 4 |}] frames
    ∧ concat frames = [1065353216; 1065353216]
    ∧ (4 * length (concat frames) = 8)%nat.
Proof.
  refine (stream_frames_concat
            [{| Stream.buffer := Stream.buffer chunk6; Stream.byteOffset := 0;
                Stream.buf_length := 4 |};
             {| Stream.buffer := Stream.buffer chunk6; Stream.byteOffset := 0;
                Stream.buf_length := 4 |}] _).
  repeat constructor; unfold Stream.wf_Buffer; simpl; lia.
Defined.

(** ** The word poster over time *)

Section PosterRunFacts.

Import WordsPoster PosterRuns.

Variable postWords : list post -> list RecognizerWord -> Z -> bool.

(** A duplicate is skipped; a fresh segment is posted, and recorded if the
    post resolved. *)
Lemma saveToDatabase_step results segment (s : State) :
  let s' := (saveToDatabase postWords results segment s).2 in
  s' = s
  ∨ ((segmentKey segment ∉ processedSegments s)
     ∧ ∃ bot p, bot_id s = Some bot ∧ post_bot p = bot
        ∧ ((post_ok p = true
            ∧ s' = add_post p (set_processedSegments
                                 ({[segmentKey segment]} ∪ processedSegments s) s))
           ∨ (post_ok p = false ∧ s' = add_post p s))).
Proof.
  cbv zeta.
  destruct (decide (segmentKey segment ∈ processedSegments s)) as [Hin|Hout].
  - left. unfold saveToDatabase. by rewrite bool_decide_eq_true_2.
  - rewrite saveToDatabase_fresh by exact Hout.
    destruct (bot_id s) as [bot|]; [|by left]. right. split; [exact Hout|].
    cbv zeta.
    match goal with |- context [postWords ?h ?w bot] =>
      destruct (postWords h w bot) eqn:Hok end.
    + eexists bot, _. split; [done|]. split; [|left; split; [|reflexivity]]; done.
    + eexists bot, _. split; [done|]. split; [|right; split; [|reflexivity]]; done.
Qed.

Lemma begin_settle results segment (s : State) :
  saveToDatabase postWords results segment s =
    match saveToDatabase_begin results segment s with
    | (Skipped, s1) => (inl tt, s1)
    | (InFlight key words, s1) => saveToDatabase_settle postWords key words s1
    end.
Proof.
  unfold saveToDatabase, saveToDatabase_begin, saveToDatabase_settle, post_segment.
  destruct (bool_decide _); [reflexivity|]. cbv zeta.
  cbn [bot_id set_processedSegments posts].
  destruct (bot_id s) as [bot|]; [|reflexivity].
  destruct (postWords _ _ bot); reflexivity.
Qed.

End PosterRunFacts.

(** X16. Every segment is delivered at most once. In any state a poster can
    reach, the number of recorded segment keys equals the number of posts
    that resolved: a key is recorded only with a resolved post, a failed
    post leaves no key behind, and no recorded segment is posted again.
    Every post carries the bot id of the constructor. *)
Theorem poster_delivers_once
    (postWords : list WordsPoster.post → list WordsPoster.RecognizerWord → Z → bool)
    (bot : option Z) (s : WordsPoster.State) :
  PosterRuns.reachable postWords bot s →
  size (WordsPoster.processedSegments s) =
    length (filter (λ p, WordsPoster.post_ok p = true) (WordsPoster.posts s))
  ∧ WordsPoster.bot_id s = bot
  ∧ Forall (λ p, bot = Some (WordsPoster.post_bot p)) (WordsPoster.posts s).
Proof.
  induction 1 as [|results segment s Hreach (IHsize & IHbot & IHposts)].
  - split; [|split; [reflexivity|constructor]].
    change (size (∅ : gset string) = 0%nat). apply size_empty.
  - destruct (saveToDatabase_step postWords results segment s)
      as [->|(Hk & b & p & Hb & Hpb & [[Hok ->]|[Hok ->]])]; [done| |].
    + cbn [WordsPoster.add_post WordsPoster.set_processedSegments
           WordsPoster.processedSegments WordsPoster.posts WordsPoster.bot_id].
      split; [|split; [done|]].
      * rewrite size_union by set_solver. rewrite size_singleton, IHsize.
        rewrite filter_app, length_app, (filter_cons_True _ p) by done.
        simpl. lia.
      * apply Forall_app. split; [done|]. repeat constructor. congruence.
    + cbn [WordsPoster.add_post WordsPoster.processedSegments WordsPoster.posts
           WordsPoster.bot_id].
      split; [|split; [done|]].
      * rewrite filter_app, length_app, (filter_cons_False _ p) by congruence.
        simpl. lia.
      * apply Forall_app. split; [done|]. repeat constructor. congruence.
Qed.

Lemma poster_delivers_once_witness :
  size (WordsPoster.processedSegments
          (WordsPoster.saveToDatabase flaky_postWords [hello] segment0
             (WordsPoster.saveToDatabase flaky_postWords [hello] segment0
                (PosterRuns.new_WordsPoster (Some 7))).2).2) = 1%nat.
Proof.
  pose proof (poster_delivers_once flaky_postWords (Some 7) _
                (PosterRuns.reach_save _ _ [hello] segment0 _
                   (PosterRuns.reach_save _ _ [hello] segment0 _
                      (PosterRuns.reach_new _ _)))) as (Hsize & _).
  rewrite Hsize. vm_compute. reflexivity.
Defined.

(** X17. A poster whose bot id could not be fetched never posts. If the
    promise of [getBotId] is rejected, the poster stays in its initial state
    for ever: every call of [saveToDatabase] fails with that rejection,
    nothing is posted, no key is recorded, and the bot id is never
    fetched again. *)
Theorem poster_without_bot_never_posts
    (postWords : list WordsPoster.post → list WordsPoster.RecognizerWord → Z → bool)
    (s : WordsPoster.State) :
  PosterRuns.reachable postWords None s →
  s = PosterRuns.new_WordsPoster None
  ∧ ∀ results segment,
      WordsPoster.saveToDatabase postWords results segment s
      = (inr WordsPoster.GetBotFailed, s).
Proof.
  intros Hreach.
  assert (Hcall : ∀ results segment,
            WordsPoster.saveToDatabase postWords results segment
              (PosterRuns.new_WordsPoster None)
            = (inr WordsPoster.GetBotFailed, PosterRuns.new_WordsPoster None)).
  { intros results segment. by rewrite saveToDatabase_fresh by set_solver. }
  assert (Hs : s = PosterRuns.new_WordsPoster None).
  { induction Hreach as [|results segment s _ ->]; [done|]. by rewrite Hcall. }
  split; [exact Hs|]. rewrite Hs. exact Hcall.
Qed.

Lemma poster_without_bot_never_posts_witness :
  WordsPoster.saveToDatabase flaky_postWords [hello] segment0
    (WordsPoster.saveToDatabase flaky_postWords [hello] segment0
       (PosterRuns.new_WordsPoster None)).2
  = (inr WordsPoster.GetBotFailed,
     (WordsPoster.saveToDatabase flaky_postWords [hello] segment0
        (PosterRuns.new_WordsPoster None)).2).
Proof.
  apply (poster_without_bot_never_posts flaky_postWords _
           (PosterRuns.reach_save _ _ [hello] segment0 _ (PosterRuns.reach_new _ _))).
Defined.

(** X18. A duplicate request that arrives while the first is in flight is
    acknowledged, whatever becomes of the first. Between its insertion of
    the key and the settling of its post, a call makes every other call for
    the same segment return normally without posting. If the call in flight
    then fails, the key is removed again: the segment has not been
    delivered, although the duplicate was told it need not be. Run without
    interruption, the two halves are the method itself. *)
Theorem duplicate_during_flight
    (postWords : list WordsPoster.post → list WordsPoster.RecognizerWord → Z → bool)
    (results results' : list WordsPoster.TranscriptionResult)
    (segment : WordsPoster.TranscriptionSegment)
    (s s1 : WordsPoster.State) (key : string) (words : list WordsPoster.RecognizerWord) :
  PosterRuns.saveToDatabase_begin results segment s = (PosterRuns.InFlight key words, s1) →
  WordsPoster.saveToDatabase postWords results' segment s1 = (inl tt, s1)
  ∧ WordsPoster.saveToDatabase postWords results segment s
    = PosterRuns.saveToDatabase_settle postWords key words s1
  ∧ ∀ e s2, PosterRuns.saveToDatabase_settle postWords key words s1 = (inr e, s2) →
      WordsPoster.processedSegments s2 = WordsPoster.processedSegments s
      ∧ (WordsPoster.segmentKey segment ∉ WordsPoster.processedSegments s2)
      ∧ filter (λ p, WordsPoster.post_ok p = true) (WordsPoster.posts s2)
        = filter (λ p, WordsPoster.post_ok p = true) (WordsPoster.posts s).
Proof.
  intros Hbegin.
  pose proof (begin_settle postWords results segment s) as Hsplit. rewrite Hbegin in Hsplit.
  unfold PosterRuns.saveToDatabase_begin in Hbegin.
  destruct (decide (WordsPoster.segmentKey segment ∈ WordsPoster.processedSegments s))
    as [Hin|Hout].
  { rewrite bool_decide_eq_true_2 in Hbegin by done. discriminate. }
  rewrite bool_decide_eq_false_2 in Hbegin by done. cbv zeta in Hbegin.
  injection Hbegin as <- <- <-.
  split; [|split; [exact Hsplit|]].
  - unfold WordsPoster.saveToDatabase. rewrite bool_decide_eq_true_2; [done|].
    simpl. set_solver.
  - intros e s2. unfold PosterRuns.saveToDatabase_settle.
    cbn [WordsPoster.bot_id WordsPoster.set_processedSegments WordsPoster.posts].
    destruct (WordsPoster.bot_id s) as [bot|].
    + match goal with |- context [postWords ?h ?w bot] =>
        destruct (postWords h w bot) eqn:Hok end; [discriminate|].
      intros [= _ <-].
      cbn [WordsPoster.add_post WordsPoster.set_processedSegments
           WordsPoster.processedSegments WordsPoster.posts].
      rewrite rollback_set by done. split; [done|]. split; [done|].
      rewrite filter_app, filter_cons_False by (simpl; congruence).
      by rewrite filter_nil, app_nil_r.
    + intros [= _ <-].
      cbn [WordsPoster.set_processedSegments WordsPoster.processedSegments
           WordsPoster.posts].
      rewrite rollback_set by done. done.
Qed.

Lemma duplicate_during_flight_witness :
  WordsPoster.saveToDatabase flaky_postWords []
    segment0 (PosterRuns.saveToDatabase_begin [hello] segment0 poster0).2
  = (inl tt, (PosterRuns.saveToDatabase_begin [hello] segment0 poster0).2).
Proof.
  apply (duplicate_during_flight flaky_postWords [hello] [] segment0 poster0 _
           "5000-9000"
           [{| WordsPoster.text := "hello"; WordsPoster.start_time := (1 # 2) + (5000 # 1) / (1000 # 1);
               WordsPoster.end_time := 1 + (5000 # 1) / (1000 # 1) |}]).
  vm_compute. reflexivity.
Defined.

(** ** The keys of segments *)

Section KeyFacts.

Lemma append_nil_l (s : string) : "" +:+ s = s.
Proof. reflexivity. Qed.

Lemma dash_cons (s : string) : "-" +:+ s = String dash s.
Proof. reflexivity. Qed.

Lemma pretty_N_char_no_dash (x : N) : pretty_N_char x ≠ dash.
Proof. unfold pretty_N_char. by repeat case_match. Qed.

Lemma pretty_N_go_dashless (x : N) (s : string) :
  dashless s → dashless (pretty_N_go x s).
Proof.
  revert s. induction (N.lt_wf_0 x) as [x _ IH]; intros s Hs.
  assert (x = 0 ∨ 0 < x)%N as [->|Hx] by lia.
  - by rewrite pretty_N_go_0.
  - rewrite pretty_N_go_step by done. apply IH.
    + by apply N.div_lt.
    + split; [apply pretty_N_char_no_dash|done].
Qed.

Lemma pretty_N_go_nonempty (x : N) (s : string) : s ≠ "" → pretty_N_go x s ≠ "".
Proof.
  revert s. induction (N.lt_wf_0 x) as [x _ IH]; intros s Hs.
  assert (x = 0 ∨ 0 < x)%N as [->|Hx] by lia.
  - by rewrite pretty_N_go_0.
  - rewrite pretty_N_go_step by done. apply IH; [by apply N.div_lt|done].
Qed.

Lemma pretty_N_dashless (x : N) : dashless (pretty x) ∧ pretty x ≠ "".
Proof.
  unfold pretty, pretty_N. destruct (decide (x = 0%N)) as [->|Hx].
  - split; [by repeat split|done].
  - split; [by apply pretty_N_go_dashless|].
    rewrite pretty_N_go_step by lia. by apply pretty_N_go_nonempty.
Qed.

(** Two strings without [-], each followed by [-]: the first [-] of the
    whole tells where they end. *)
Lemma dash_split (a c b d : string) :
  dashless a → dashless c →
  a +:+ "-" +:+ b = c +:+ "-" +:+ d → a = c ∧ b = d.
Proof.
  rewrite !dash_cons.
  revert c. induction a as [|x a IH]; intros [|y c] Ha Hc H;
    rewrite ?append_nil_l, ?append_cons in H.
  - by injection H as ->.
  - injection H as <- _. by destruct Hc as [[] _].
  - injection H as -> _. by destruct Ha as [[] _].
  - injection H as -> H.
    destruct Ha as [_ Ha], Hc as [_ Hc].
    destruct (IH c Ha Hc H) as [-> ->]. done.
Qed.

(** The decimal form of an integer: an optional [-], then a string that is
    not empty and has no [-]. *)
Lemma pretty_Z_shape (z : Z) :
  ∃ p, dashless p ∧ p ≠ ""
       ∧ pretty z = (if z <? 0 then "-" +:+ p else p).
Proof.
  destruct z as [|x|x]; unfold pretty, pretty_Z.
  - exists "0". by repeat split.
  - exists (pretty (N.pos x)). destruct (pretty_N_dashless (N.pos x)). done.
  - exists (pretty (N.pos x)). destruct (pretty_N_dashless (N.pos x)). done.
Qed.

End KeyFacts.

(** X19. Distinct segments have distinct keys. The key
    [startTime-endTime] of a segment determines its two times, also when
    they are negative; so a segment is skipped as a duplicate only if a
    segment with the same start and end has been posted. *)
Theorem segmentKey_inj (a b : WordsPoster.TranscriptionSegment) :
  WordsPoster.segmentKey a = WordsPoster.segmentKey b ↔ a = b.
Proof.
  split; [|by intros ->].
  unfold WordsPoster.segmentKey. destruct a as [a1 a2], b as [b1 b2].
  cbn [WordsPoster.startTime WordsPoster.endTime]. intros H.
  destruct (pretty_Z_shape a1) as (pa & Hpa & Hna & Ea).
  destruct (pretty_Z_shape b1) as (pb & Hpb & Hnb & Eb).
  assert (Hparts : pretty a1 = pretty b1 ∧ pretty a2 = pretty b2).
  { rewrite Ea, Eb in *. destruct (a1 <? 0), (b1 <? 0).
    - rewrite (dash_cons pa), (dash_cons pb), (append_cons dash pa),
        (append_cons dash pb) in H. injection H as H.
      destruct (dash_split _ _ _ _ Hpa Hpb H) as [-> ->]. done.
    - exfalso. rewrite (dash_cons pa), (append_cons dash pa) in H.
      destruct pb as [|y pb]; [done|]. rewrite (append_cons y pb) in H.
      injection H as <- _. by destruct Hpb as [[] _].
    - exfalso. rewrite (dash_cons pb), (append_cons dash pb) in H.
      destruct pa as [|y pa]; [done|]. rewrite (append_cons y pa) in H.
      injection H as -> _. by destruct Hpa as [[] _].
    - by apply dash_split. }
  destruct Hparts as [H1 H2].
  apply (inj pretty) in H1. apply (inj pretty) in H2. by subst.
Qed.

(** ** Starting a recording *)

Section StartFacts.

Import Start.

Variable V : Env.

Lemma waited_app (t t' : list start_event) : waited (t ++ t') = waited t + waited t'.
Proof.
  induction t as [|e t IH]; [reflexivity|]. destruct e; simpl; rewrite ?IH; lia.
Qed.

(** The loop of probes: it never throws and touches nothing but the log and
    the count of probes; it stops at the first probe that sees the device,
    having slept once after each probe before it. *)
Lemma probe_loop_spec (n attempt : nat) (s : state) :
  ∃ b s' t,
    probe_loop V n attempt s = (SOk b, s')
    ∧ inner s' = inner s
    ∧ log s' = log s ++ t
    ∧ Forall (λ e, ¬ is_ETest e ∧ ¬ is_ESpawn e) t
    ∧ if b : bool
      then ∃ i, (i < n)%nat
             ∧ device_ready (pactl V (probes s + i)) = true
             ∧ (∀ j, (j < i)%nat → device_ready (pactl V (probes s + j)) = false)
             ∧ probes s' = (probes s + i + 1)%nat
             ∧ waited t = 1000 * Z.of_nat i
      else (∀ j, (j < n)%nat → device_ready (pactl V (probes s + j)) = false)
           ∧ probes s' = (probes s + n)%nat
           ∧ waited t = 1000 * Z.of_nat n.
Proof.
  revert attempt s. induction n as [|n IH]; intros attempt s.
  - exists false, s, []. split; [reflexivity|]. split; [done|].
    split; [by rewrite app_nil_r|]. split; [constructor|].
    split; [intros j Hj; lia|]. split; [lia|reflexivity].
  - cbn [probe_loop]. unfold mbind at 1, SM_bind at 1, run_pactl.
    set (r := pactl V (probes s)).
    set (s1 := say (EPactl r) (set_probes (S (probes s)) s)).
    assert (Hr0 : pactl V (probes s + 0) = r) by (by rewrite Nat.add_0_r).
    destruct (device_ready r) eqn:Hready.
    + (* seen *)
      destruct r as [code out|]; [|discriminate]. cbn [device_ready] in Hready.
      rewrite Hready. exists true, s1, [EPactl (Probed code out)].
      split; [reflexivity|]. split; [done|]. split; [done|].
      split; [repeat constructor; by intros []|].
      exists 0%nat. split; [lia|]. split; [by rewrite Hr0|].
      split; [intros j Hj; lia|]. split; [simpl; lia|reflexivity].
    + (* not seen: sleep, and again *)
      assert (Hstep : ∃ pre s2,
                Forall (λ e, ¬ is_ETest e ∧ ¬ is_ESpawn e) pre
                ∧ waited pre = 1000
                ∧ inner s2 = inner s ∧ log s2 = log s ++ pre
                ∧ probes s2 = S (probes s)
                ∧ (match r with
                   | Probed exitCode output =>
                       if (exitCode =? 0) && includes "virtual_speaker.monitor" output
                       then mret true
                       else tell (ESleep delayMs);; probe_loop V n (S attempt)
                   | ProbeThrew =>
                       tell (EWarn [Lit "Attempt "; Int (Z.of_nat attempt); Lit "/";
                                    Int (Z.of_nat maxAttempts);
                                    Lit ": Error checking audio device:"]);;
                       tell (ESleep delayMs);;
                       probe_loop V n (S attempt)
                   end) s1 = probe_loop V n (S attempt) s2).
      { destruct r as [code out|] eqn:Er.
        - cbn [device_ready] in Hready. rewrite Hready.
          exists [EPactl (Probed code out); ESleep 1000], (say (ESleep delayMs) s1).
          split; [repeat constructor; by intros []|]. split; [reflexivity|].
          split; [done|]. split; [simpl; by rewrite <- app_assoc|]. split; [done|].
          reflexivity.
        - eexists [EPactl ProbeThrew; EWarn _; ESleep 1000],
            (say (ESleep delayMs) (say (EWarn _) s1)).
          split; [repeat constructor; by intros []|]. split; [reflexivity|].
          split; [done|]. split; [simpl; by rewrite <- !app_assoc|]. split; [done|].
          reflexivity. }
      destruct Hstep as (pre & s2 & Hpre & Hw & Hi2 & Hl2 & Hp2 & ->).
      destruct (IH (S attempt) s2) as (b & s' & t & Hrun & Hi & Hl & Hall & Hb).
      exists b, s', (pre ++ t). split; [exact Hrun|]. split; [congruence|].
      split; [by rewrite Hl, Hl2, app_assoc|]. split; [by apply Forall_app|].
      rewrite waited_app, Hw. rewrite Hp2 in Hb. destruct b.
      * destruct Hb as (i & Hi' & Hri & Hbefore & Hp & Hwt).
        exists (S i). split; [lia|].
        split; [by replace (probes s + S i)%nat with (S (probes s) + i)%nat by lia|].
        split; [|split; [lia|lia]].
        intros [|j] Hj; [by rewrite Hr0|].
        replace (probes s + S j)%nat with (S (probes s) + j)%nat by lia.
        apply Hbefore. lia.
      * destruct Hb as (Hnone & Hp & Hwt). split; [|split; [lia|lia]].
        intros [|j] Hj; [by rewrite Hr0|].
        replace (probes s + S j)%nat with (S (probes s) + j)%nat by lia.
        apply Hnone. lia.
Qed.

(** What follows 15 probes without the device: the test run. *)
Lemma test_run_spec (s1 : state) :
  ∃ s2 tail,
    (tell (EWarn [Lit "Audio devices not confirmed ready after ";
                  Int (Z.of_nat maxAttempts); Lit " attempts, testing with FFmpeg..."]);;
     tell (ETest test_args (ffmpegTest V));;
     match ffmpegTest V with
     | Some testExitCode =>
         if testExitCode =? 0 then mret tt else sthrow DevicesNotReady
     | None =>
         tell (EError [Lit "FFmpeg audio test failed:"]);;
         sthrow DevicesNotReady
     end) s1
    = (if bool_decide (ffmpegTest V = Some 0) then SOk tt else SThrow DevicesNotReady, s2)
    ∧ inner s2 = inner s1
    ∧ probes s2 = probes s1
    ∧ log s2 = log s1 ++ tail
    ∧ waited tail = 0
    ∧ ETest test_args (ffmpegTest V) ∈ tail
    ∧ Forall (λ e, ¬ is_ESpawn e) tail.
Proof.
  unfold mbind, SM_bind, tell.
  destruct (ffmpegTest V) as [code|].
  - destruct (Z.eqb_spec code 0) as [->|Hne].
    + rewrite bool_decide_eq_true_2 by done.
      eexists _, [EWarn _; ETest test_args (Some 0)]. split; [reflexivity|].
      split; [done|]. split; [done|]. split; [simpl; by rewrite <- app_assoc|].
      split; [done|]. split; [apply elem_of_cons; right; apply elem_of_cons; by left|].
      repeat constructor; by intros [].
    + rewrite bool_decide_eq_false_2 by congruence.
      eexists _, [EWarn _; ETest test_args (Some code)]. split; [reflexivity|].
      split; [done|]. split; [done|]. split; [simpl; by rewrite <- app_assoc|].
      split; [done|]. split; [apply elem_of_cons; right; apply elem_of_cons; by left|].
      repeat constructor; by intros [].
  - rewrite bool_decide_eq_false_2 by done.
    eexists _, [EWarn _; ETest test_args None; EError _]. split; [reflexivity|].
    split; [done|]. split; [done|]. split; [simpl; by rewrite <- !app_assoc|].
    split; [done|]. split; [apply elem_of_cons; right; apply elem_of_cons; by left|].
    repeat constructor; by intros [].
Qed.

End StartFacts.

(** X20. [waitForAudioDevices] waits a bounded time. It probes at most 15
    times and sleeps 1000 ms after each probe that does not show the
    device. It returns at the first probe that exits with 0 and lists
    [virtual_speaker.monitor]: no test run is made then. After 15 probes
    without the device, that is after 15 s of sleep, it makes one test run
    of the media tool: it returns if that run exits with 0, and otherwise
    throws that the devices are not ready. It leaves the recorder alone and
    spawns no capture. *)
Theorem waitForAudioDevices_bounded (V : Start.Env) (s : Start.state) :
  ∃ r s' t,
    Start.waitForAudioDevices V s = (r, s')
    ∧ Start.inner s' = Start.inner s
    ∧ Start.log s' = Start.log s ++ t
    ∧ Forall (λ e, ¬ Start.is_ESpawn e) t
    ∧ ((∃ i, (i < 15)%nat
          ∧ Start.device_ready (Start.pactl V (Start.probes s + i)) = true
          ∧ (∀ j, (j < i)%nat →
               Start.device_ready (Start.pactl V (Start.probes s + j)) = false)
          ∧ r = Start.SOk tt
          ∧ Start.probes s' = (Start.probes s + i + 1)%nat
          ∧ Start.waited t = 1000 * Z.of_nat i
          ∧ Forall (λ e, ¬ Start.is_ETest e) t)
       ∨ ((∀ j, (j < 15)%nat →
             Start.device_ready (Start.pactl V (Start.probes s + j)) = false)
          ∧ Start.probes s' = (Start.probes s + 15)%nat
          ∧ Start.waited t = 15000
          ∧ Start.ETest Start.test_args (Start.ffmpegTest V) ∈ t
          ∧ r = (if bool_decide (Start.ffmpegTest V = Some 0)
                 then Start.SOk tt else Start.SThrow Start.DevicesNotReady))).
Proof.
  unfold Start.waitForAudioDevices. unfold mbind at 1, Start.SM_bind at 1.
  destruct (probe_loop_spec V Start.maxAttempts 1 s)
    as (b & s1 & t & Hrun & Hi & Hl & Hall & Hb).
  rewrite Hrun. destruct b.
  - destruct Hb as (i & Hlt & Hready & Hbefore & Hp & Hw).
    exists (Start.SOk tt), s1, t. split; [reflexivity|]. split; [done|]. split; [done|].
    split; [eapply Forall_impl; [exact Hall|]; by intros ? []|].
    left. exists i. repeat (split; [done|]).
    eapply Forall_impl; [exact Hall|]. by intros ? [].
  - destruct Hb as (Hnone & Hp & Hw).
    assert (Hns : Forall (λ e, ¬ Start.is_ESpawn e) t).
    { eapply Forall_impl; [exact Hall|]. by intros ? []. }
    destruct (test_run_spec V s1) as (s2 & tail & Htail & Hi2 & Hp2 & Hl2 & Hw2 & Hin & Hns2).
    rewrite Htail. eexists _, s2, (t ++ tail). split; [reflexivity|].
    split; [congruence|]. split; [by rewrite Hl2, Hl, app_assoc|].
    split; [by apply Forall_app|]. right.
    split; [exact Hnone|]. split; [by rewrite Hp2, Hp|].
    split; [rewrite waited_app, Hw, Hw2; reflexivity|].
    split; [apply elem_of_app; by right|reflexivity].
Qed.

Section StartRecordingFacts.

Import Start.

Variable V : Env.

Lemma sbind_ok_eq {A B} (m : SM A) (f : A → SM B) (s s1 : state) (a : A) :
  m s = (SOk a, s1) → (m ≫= f) s = f a s1.
Proof. intros H. unfold mbind, SM_bind. by rewrite H. Qed.

Lemma sbind_throw_eq {A B} (m : SM A) (f : A → SM B) (s s1 : state) (e : start_error) :
  m s = (SThrow e, s1) → (m ≫= f) s = (SThrow e, s1).
Proof. intros H. unfold mbind, SM_bind. by rewrite H. Qed.

Lemma generateOutputPaths_run (E : Externals) (i : St) :
  ∃ r', generateOutputPaths E i = (Ok tt, {| this := r'; world := world i |})
    ∧ ffmpegProcess r' = ffmpegProcess (this i)
    ∧ isRecording r' = isRecording (this i)
    ∧ filesUploaded r' = filesUploaded (this i)
    ∧ recordingStartTime r' = recordingStartTime (this i)
    ∧ meetingStartTime r' = meetingStartTime (this i)
    ∧ gracePeriodActive r' = gracePeriodActive (this i)
    ∧ stopWaiters r' = stopWaiters (this i)
    ∧ audioOutputPath r' = getOutputPath (paths E) +:+ ".wav"
    ∧ outputPath r' = (if String.eqb (recording_mode (GLOBAL E)) "audio_only"
                       then outputPath (this i)
                       else getOutputPath (paths E) +:+ ".mp4").
Proof.
  unfold generateOutputPaths, update, mbind, M_bind.
  destruct (String.eqb (recording_mode (GLOBAL E)) "audio_only");
    eexists; (split; [reflexivity|]); done.
Qed.

Lemma waitForAudioDevices_frame (s : state) :
  ∃ r s' t,
    waitForAudioDevices V s = (r, s')
    ∧ inner s' = inner s
    ∧ log s' = log s ++ t
    ∧ Forall (λ e, ¬ is_ESpawn e) t
    ∧ (r = SOk tt ∨ r = SThrow DevicesNotReady).
Proof.
  unfold waitForAudioDevices. unfold mbind at 1, SM_bind at 1.
  destruct (probe_loop_spec V maxAttempts 1 s)
    as (b & s1 & t & Hrun & Hi & Hl & Hall & Hb).
  rewrite Hrun.
  assert (Hns : Forall (λ e, ¬ is_ESpawn e) t).
  { eapply Forall_impl; [exact Hall|]. by intros ? []. }
  destruct b.
  - exists (SOk tt), s1, t. split; [reflexivity|]. by eauto.
  - destruct (test_run_spec V s1) as (s2 & tail & Htail & Hi2 & _ & Hl2 & _ & _ & Hns2).
    rewrite Htail. eexists _, s2, (t ++ tail). split; [reflexivity|].
    split; [congruence|]. split; [by rewrite Hl2, Hl, app_assoc|].
    split; [by apply Forall_app|]. destruct (bool_decide _); eauto.
Qed.

(** [startRecording] on a recorder that is not recording, by the outcome of
    the wait for the audio devices, of the spawn and of the sync signal. *)
Lemma startRecording_cases (s : state) :
  isRecording (this (inner s)) = false →
  ∃ r0 t0,
    this (inner (onInner (λ i, (generateOutputPaths (ext V) i).2) s)) = r0
    ∧ Forall (λ e, ¬ is_ESpawn e) t0
    ∧ let w := world (inner s) in
      let tick := λ w, set_ticks (S (ticks w)) w in
      let caught := λ e, [EError [Lit "Failed to start native recording:"]; EStartError e] in
      let spawned := [ESpawn (args_of V (clock (ext V) (ticks w)));
                      ESleep FLASH_SCREEN_SLEEP_TIME;
                      ESyncSignal 800 1000 (95 # 100) (generateSyncSignal V)] in
      let running :=
        set_gracePeriodActive false
          (set_recordingStartTime (clock (ext V) (S (ticks w)))
             (set_isRecording true
                (set_ffmpegProcess (Some {| killed := false |}) r0))) in
      ∃ p,
        (startRecording V s =
           (SThrow DevicesNotReady,
            {| inner := {| this := set_isRecording false r0; world := w |};
               log := log s ++ t0 ++ caught DevicesNotReady; probes := p |}))
        ∨ (startRecording V s =
             (SThrow SpawnThrew,
              {| inner := {| this := set_isRecording false r0; world := tick w |};
                 log := log s ++ t0 ++ caught SpawnThrew; probes := p |})
           ∧ spawn_throws V = true)
        ∨ (startRecording V s =
             (SThrow SyncSignalFailed,
              {| inner := {| this := set_isRecording false running;
                             world := tick (tick w) |};
                 log := log s ++ t0 ++ spawned ++ caught SyncSignalFailed;
                 probes := p |})
           ∧ generateSyncSignal V = false)
        ∨ (startRecording V s =
             (SOk tt,
              {| inner := {| this := running; world := tick (tick w) |};
                 log := log s ++ t0 ++ spawned
                        ++ [EStarted (outputPath r0)
                              (String.eqb (recording_mode (GLOBAL (ext V))) "audio_only")];
                 probes := p |})
           ∧ generateSyncSignal V = true).
Proof.
  intros Hrec.
  destruct (generateOutputPaths_run (ext V) (inner s)) as (r0 & Hgen & _).
  set (s0 := onInner (λ i, (generateOutputPaths (ext V) i).2) s).
  assert (Hs0 : s0 = {| inner := {| this := r0; world := world (inner s) |};
                        log := log s; probes := probes s |}).
  { unfold s0, onInner. by rewrite Hgen. }
  destruct (waitForAudioDevices_frame s0) as (r & s1 & t0 & Hwait & Hi1 & Hl1 & Hns & Hr).
  exists r0, t0. split; [by rewrite Hs0|]. split; [exact Hns|]. cbv zeta.
  exists (probes s1).
  assert (Hs1 : s1 = {| inner := {| this := r0; world := world (inner s) |};
                        log := log s ++ t0; probes := probes s1 |}).
  { destruct s1 as [i1 l1 p1]. cbn [inner log probes] in *. subst i1 l1.
    by rewrite Hs0. }
  assert (Hstart : startRecording V s =
            stry
              (waitForAudioDevices V;;
               ffmpegArgs ← buildNativeFFmpegArgs V;
               (if spawn_throws V then sthrow SpawnThrew
                else tell (ESpawn ffmpegArgs);;
                     modify (set_ffmpegProcess (Some {| killed := false |})));;
               modify (set_isRecording true);;
               now ← lift (Date_now (ext V));
               modify (set_recordingStartTime now);;
               modify (set_gracePeriodActive false);;
               tell (ESleep FLASH_SCREEN_SLEEP_TIME);;
               tell (ESyncSignal 800 1000 (95 # 100) (generateSyncSignal V));;
               (if generateSyncSignal V then mret tt else sthrow SyncSignalFailed);;
               r ← read;
               tell (EStarted (outputPath r)
                       (String.eqb (recording_mode (GLOBAL (ext V))) "audio_only")))
              (λ error,
                 tell (EError [Lit "Failed to start native recording:"]);;
                 modify (set_isRecording false);;
                 tell (EStartError error);;
                 sthrow error) s0).
  { unfold startRecording, read. unfold mbind at 1, SM_bind at 1. rewrite Hrec.
    unfold mbind at 1, SM_bind at 1, lift. rewrite Hgen. unfold s0, onInner.
    by rewrite Hgen. }
  rewrite Hstart. clear Hstart. unfold stry.
  destruct Hr as [-> | ->].
  2: { rewrite (sbind_throw_eq _ _ _ _ _ Hwait), Hs1. left.
       unfold mbind, SM_bind, tell, modify, sthrow, say, onRecorder, onInner, onThis.
       cbn. by rewrite <- !app_assoc. }
  rewrite (sbind_ok_eq _ _ _ _ _ Hwait), Hs1. right.
  unfold buildNativeFFmpegArgs, lift, Date_now, mbind, SM_bind, mret, SM_ret,
    tell, modify, sthrow, read, say, onRecorder, onInner, onThis, onWorld.
  cbn [inner log probes this world ticks fst snd].
  destruct (spawn_throws V).
  { left. split; [|done]. cbn. by rewrite <- !app_assoc. }
  right. cbn [inner log probes this world ticks set_ticks].
  destruct (generateSyncSignal V).
  - right. split; [|done]. cbn. by rewrite <- !app_assoc.
  - left. split; [|done]. cbn. by rewrite <- !app_assoc.
Qed.

End StartRecordingFacts.





(** X23. A recorder is not re-armed for upload. [startRecording] does not
    reset [filesUploaded]: on a recorder whose earlier session has uploaded
    its files, the recording that it starts will never be uploaded by
    [uploadToS3], which returns at once. *)
Theorem restarted_recorder_skips_upload (V : Start.Env) (s s' : Start.state) :
  Start.startRecording V s = (Start.SOk tt, s') →
  filesUploaded (this (Start.inner s)) = true →
  ∀ w : World,
    uploadToS3 (Start.ext V) {| this := this (Start.inner s'); world := w |}
    = (Ok tt, {| this := this (Start.inner s'); world := w |}).
Proof.
  intros H Hfu w. destruct (isRecording (this (Start.inner s))) eqn:Hrec.
  { unfold Start.startRecording, Start.read in H.
    unfold mbind at 1, Start.SM_bind at 1 in H. rewrite Hrec in H. discriminate. }
  destruct (generateOutputPaths_run (Start.ext V) (Start.inner s))
    as (r0' & Hgen & _ & _ & Hfu' & _).
  destruct (startRecording_cases V s Hrec) as (r0 & t0 & Hr0 & Hns & Hcases).
  assert (Hr0' : r0 = r0').
  { rewrite <- Hr0. unfold Start.onInner. cbn [Start.inner]. by rewrite Hgen. }
  subst r0'. clear Hr0.
  cbv zeta in Hcases. destruct Hcases as (p & [Hc|[[Hc _]|[[Hc _]|[Hc Hsig]]]]);
    rewrite Hc in H; inversion H; subst s'; clear H Hc.
  rewrite uploadToS3_unfold. cbn [Start.inner this filesUploaded set_gracePeriodActive
    set_recordingStartTime set_isRecording set_ffmpegProcess].
  rewrite Hfu', Hfu. reflexivity.
Qed.

Lemma restarted_recorder_skips_upload_witness :
  uploadToS3 scenario1
    {| this := this (Start.inner (Start.startRecording (start_env 2 true)
                                    (start_state true)).2);
       world := final_world |}
  = (Ok tt,
     {| this := this (Start.inner (Start.startRecording (start_env 2 true)
                                     (start_state true)).2);
        world := final_world |}).
Proof.
  destruct (Start.startRecording (start_env 2 true) (start_state true))
    as [r s'] eqn:Hrun.
  assert (Hr : r = Start.SOk tt).
  { apply (f_equal fst) in Hrun. vm_compute in Hrun. congruence. }
  subst r.
  exact (restarted_recorder_skips_upload (start_env 2 true) (start_state true) s'
           Hrun eq_refl final_world).
Defined.

(** X24. The capture writes what post-processing reads. In both modes the
    argument vector of the capture subprocess writes the raw audio, as WAV
    and overwriting, to the path from which [syncAndMergeFiles] reads it;
    in video mode it also writes the raw video, as MP4, to the path of the
    raw video. Its last output is the stream on standard output: mono
    32-bit floats at the streaming sample rate, the format that the stdout
    listener decodes. *)
Theorem capture_feeds_postprocessing (V : Start.Env) (timestamp : Z) :
  let E := Start.ext V in
  let args := Start.args_of V timestamp in
  (∃ a b, args = a ++ [lit "-f"; lit "wav"; lit "-y"; lit (rawAudioPath E)] ++ b)
  ∧ (String.eqb (recording_mode (GLOBAL E)) "audio_only" = false →
     ∃ a b, args = a ++ [lit "-f"; lit "mp4"; lit "-y"; lit (rawVideoPath E)] ++ b)
  ∧ ∃ a m, args = a ++ [lit "-map"; lit m; lit "-acodec"; lit "pcm_f32le";
                        lit "-ac"; lit "1"; lit "-ar"; int STREAMING_SAMPLE_RATE;
                        lit "-f"; lit "f32le"; lit "pipe:1"].
Proof.
  cbv zeta. unfold Start.args_of, rawAudioPath, rawVideoPath.
  set (shots := Start.screenshots_output V).
  set (wav := path_join (getTempPath (paths (Start.ext V))) "raw.wav").
  set (mp4 := path_join (getTempPath (paths (Start.ext V))) "raw.mp4").
  destruct (String.eqb (recording_mode (GLOBAL (Start.ext V))) "audio_only").
  - split; [|split; [discriminate|]].
    + exists (Start.audio_input ++ Start.video_input V
              ++ [lit "-map"; lit "0:a:0"; lit "-acodec"; lit "pcm_s16le"; lit "-ac";
                  lit "1"; lit "-ar"; int AUDIO_SAMPLE_RATE; lit "-avoid_negative_ts";
                  lit "make_zero"]),
             (shots "1:v:0" timestamp ++ Start.streaming_output "0:a:0").
      reflexivity.
    + eexists _, "0:a:0". unfold Start.streaming_output.
      rewrite !app_assoc. reflexivity.
  - split; [|split].
    + exists (Start.video_input V ++ Start.audio_input
              ++ [lit "-map"; lit "0:v:0"; lit "-c:v"; lit "libx264"; lit "-preset";
                  lit "fast"; lit "-crf"; lit "23"; lit "-profile:v"; lit "main";
                  lit "-level"; lit "4.0"; lit "-pix_fmt"; lit "yuv420p"; lit "-g";
                  lit "30"; lit "-keyint_min"; lit "30"; lit "-bf"; lit "0";
                  lit "-refs"; lit "1"; lit "-vf"; lit "crop=1280:720:0:160";
                  lit "-avoid_negative_ts"; lit "make_zero"; lit "-f"; lit "mp4";
                  lit "-y"; lit mp4]
              ++ [lit "-map"; lit "1:a:0"; lit "-vn"; lit "-acodec"; lit "pcm_s16le";
                  lit "-ac"; lit "1"; lit "-ar"; int AUDIO_SAMPLE_RATE;
                  lit "-avoid_negative_ts"; lit "make_zero"]),
             (shots "0:v:0" timestamp ++ Start.streaming_output "1:a:0").
      reflexivity.
    + intros _.
      exists (Start.video_input V ++ Start.audio_input
              ++ [lit "-map"; lit "0:v:0"; lit "-c:v"; lit "libx264"; lit "-preset";
                  lit "fast"; lit "-crf"; lit "23"; lit "-profile:v"; lit "main";
                  lit "-level"; lit "4.0"; lit "-pix_fmt"; lit "yuv420p"; lit "-g";
                  lit "30"; lit "-keyint_min"; lit "30"; lit "-bf"; lit "0";
                  lit "-refs"; lit "1"; lit "-vf"; lit "crop=1280:720:0:160";
                  lit "-avoid_negative_ts"; lit "make_zero"]),
             ([lit "-map"; lit "1:a:0"; lit "-vn"; lit "-acodec"; lit "pcm_s16le";
               lit "-ac"; lit "1"; lit "-ar"; int AUDIO_SAMPLE_RATE;
               lit "-avoid_negative_ts"; lit "make_zero"; lit "-f"; lit "wav";
               lit "-y"; lit wav]
              ++ shots "0:v:0" timestamp ++ Start.streaming_output "1:a:0").
      reflexivity.
    + eexists _, "1:a:0". unfold Start.streaming_output.
      rewrite !app_assoc. reflexivity.
Qed.

(** * The cleanup state *)

Section CleanupFacts.

Import Cleanup.

Variable V : Env.

Lemma cbind_run {A B} (m : CM A) (f : A → CM B) (s s' : state) (r : cres B) :
  (m ≫= f) s = (r, s') →
  (∃ e, m s = (Thrown e, s') ∧ r = Thrown e)
  ∨ (m s = (Stuck, s') ∧ r = Stuck)
  ∨ (∃ a s1, m s = (Done a, s1) ∧ f a s1 = (r, s')).
Proof.
  unfold mbind, CM_bind. destruct (m s) as [[a|e|] s1]; intros H.
  - right; right. eauto.
  - left. inversion H. eauto.
  - right; left. by inversion H.
Qed.

Lemma makes_nothing {A} (allowed : list call) (m : CM A) :
  (∀ s r s', m s = (r, s') → calls s' = calls s) → makes allowed m.
Proof.
  intros Hm s r s' H. exists []. rewrite app_nil_r. split; [eauto|apply sublist_nil_l].
Qed.

Lemma makes_weaken {A} (l l' : list call) (m : CM A) :
  sublist l l' → makes l m → makes l' m.
Proof.
  intros Hl Hm s r s' H. destruct (Hm _ _ _ H) as (t & Ht & Hsub).
  exists t. split; [done|]. by etrans.
Qed.

Lemma makes_ret {A} (l : list call) (a : A) : makes l (mret a).
Proof. apply makes_nothing. intros s r s' H. by inversion H. Qed.

Lemma makes_bind {A B} (l1 l2 : list call) (m : CM A) (f : A → CM B) :
  makes l1 m → (∀ a, makes l2 (f a)) → makes (l1 ++ l2) (m ≫= f).
Proof.
  intros Hm Hf s r s' H.
  apply cbind_run in H as [(e & H1 & _)|[(H1 & _)|(a & s1 & H1 & H2)]].
  - destruct (Hm _ _ _ H1) as (t & Ht & Hsub). exists t. split; [done|].
    by apply sublist_inserts_r.
  - destruct (Hm _ _ _ H1) as (t & Ht & Hsub). exists t. split; [done|].
    by apply sublist_inserts_r.
  - destruct (Hm _ _ _ H1) as (t1 & Ht1 & Hsub1).
    destruct (Hf a _ _ _ H2) as (t2 & Ht2 & Hsub2).
    exists (t1 ++ t2). split; [by rewrite Ht2, Ht1, app_assoc|]. by apply sublist_app.
Qed.

Lemma makes_ctry {A} (l : list call) (m : CM A) (h : thrown → CM A) :
  makes l m → (∀ e s, ∃ r, h e s = (r, s) ∨ ∃ f, h e s = (r, onContext f s)) →
  makes l (ctry m h).
Proof.
  intros Hm Hh s r s'. unfold ctry.
  destruct (m s) as [[a|e|] s1] eqn:H1; intros H;
    destruct (Hm _ _ _ H1) as (t & Ht & Hsub).
  - inversion H; subst. eauto.
  - destruct (Hh e s1) as (r' & [Hr|(f & Hr)]); rewrite Hr in H; inversion H; subst;
      exists t; by split.
  - inversion H; subst. eauto.
Qed.

Lemma makes_race {A} (l : list call) (msg : string) (m : CM A) :
  makes l m → makes l (race_timeout msg m).
Proof.
  intros Hm s r s'. unfold race_timeout.
  destruct (m s) as [[a|e|] s1] eqn:H1; intros H; inversion H; subst; eauto.
Qed.

Lemma makes_cwhen (l : list call) (b : bool) (m : CM unit) :
  makes l m → makes l (cwhen b m).
Proof. intros Hm. destruct b; [exact Hm|apply makes_ret]. Qed.

Lemma makes_invoke (c : call) (o : call_outcome) : makes [c] (invoke c o).
Proof.
  intros s r s'. unfold invoke. destruct o; intros H; inversion H; exists [c]; by split.
Qed.

Lemma makes_await (c : call) (o : settle) : makes [c] (await c o).
Proof.
  intros s r s'. unfold await. destruct o; intros H; inversion H; exists [c]; by split.
Qed.

Lemma makes_getContext (l : list call) : makes l getContext.
Proof. apply makes_nothing. intros s r s' H. by inversion H. Qed.

Lemma makes_setContext (l : list call) (f : Context → Context) : makes l (setContext f).
Proof. apply makes_nothing. intros s r s' H. by inversion H. Qed.

(** Step 0. *)
Lemma stopDialogObserver_run (s : state) :
  let t := opt (dialogObserver (context s)) StopGlobalDialogObserver in
  stopDialogObserver V s =
    (match stopGlobalDialogObserver V with
     | Throws e => if dialogObserver (context s) then Thrown e else Done tt
     | Returns => Done tt
     end,
     {| context := context s; calls := calls s ++ t |}).
Proof.
  unfold stopDialogObserver, getContext, cwhen, invoke, mbind, CM_bind, opt.
  destruct s as [c l]. cbn [context calls].
  destruct (dialogObserver c), (stopGlobalDialogObserver V);
    rewrite ?app_nil_r; reflexivity.
Qed.

(** Step 1. *)
Lemma stopScreenRecorder_run (s : state) :
  let t := opt (isCurrentlyRecording V) StopRecording in
  stopScreenRecorder V s =
    (if isCurrentlyRecording V then
       match stopRecording V with
       | Resolves => Done tt
       | Rejects e => if message_includes "not recording" e then Done tt else Thrown e
       | Pending => Stuck
       end
     else Done tt,
     {| context := context s; calls := calls s ++ t |}).
Proof.
  unfold stopScreenRecorder, ctry, cwhen, await, opt.
  destruct s as [c l]. cbn [context calls].
  destruct (isCurrentlyRecording V); [|by rewrite app_nil_r].
  destruct (stopRecording V) as [|e|]; try reflexivity.
  destruct (message_includes "not recording" e); reflexivity.
Qed.

Lemma stopScreenRecorder_done (s : state) :
  (stopScreenRecorder V s).1 = Done tt ↔ recorder_settled V.
Proof.
  rewrite stopScreenRecorder_run. cbn [fst]. unfold recorder_settled.
  destruct (isCurrentlyRecording V); [|by split; [left|]].
  destruct (stopRecording V) as [|e|].
  - split; [by right; left|done].
  - destruct (message_includes "not recording" e) eqn:Hmsg.
    + split; [|done]. intros _. right; right. by exists e.
    + split; [done|]. intros [?|[?|(e' & [= <-] & He')]]; congruence.
  - split; [done|]. intros [?|[?|(e' & ? & _)]]; congruence.
Qed.

(** Step 3: it never throws and never blocks; the observer is cleared
    unless [stopObserving] threw something other than a timeout. *)
Lemma stopSpeakersObserver_run (s : state) :
  stopSpeakersObserver V s =
    (Done tt,
     {| context :=
          if speakersObserver (context s) then
            match stopObserving V with
            | Returns => set_speakersObserver false (context s)
            | Throws e => if message_includes "timeout" e
                          then set_speakersObserver false (context s)
                          else context s
            end
          else context s;
        calls := calls s ++ opt (speakersObserver (context s)) StopObserving |}).
Proof.
  unfold stopSpeakersObserver, ctry, getContext, cwhen, race_timeout, invoke, setContext,
    mbind, CM_bind, opt, onContext, called.
  destruct s as [c l]. cbn [context calls].
  destruct (speakersObserver c); [|by rewrite app_nil_r].
  destruct (stopObserving V) as [|e]; [reflexivity|]. cbn [context calls].
  destruct (message_includes "timeout" e); reflexivity.
Qed.

(** Step 4: it never throws and never blocks for more than the 3 s of its
    timer; the cleaner is dropped unless [stop] was rejected with something
    other than a timeout. *)
Lemma stopHtmlCleaner_run (s : state) :
  stopHtmlCleaner V s =
    (Done tt,
     {| context :=
          if htmlCleaner (context s) then
            match htmlCleaner_stop V with
            | Resolves | Pending => set_htmlCleaner false (context s)
            | Rejects e => if message_includes "timeout" e
                           then set_htmlCleaner false (context s)
                           else context s
            end
          else context s;
        calls := calls s ++ opt (htmlCleaner (context s)) StopHtmlCleaner |}).
Proof.
  unfold stopHtmlCleaner, ctry, getContext, cwhen, race_timeout, await, setContext,
    mbind, CM_bind, opt, onContext, called.
  destruct s as [c l]. cbn [context calls].
  destruct (htmlCleaner c); [|by rewrite app_nil_r].
  destruct (htmlCleaner_stop V) as [|e|]; try reflexivity. cbn [context calls].
  destruct (message_includes "timeout" e); reflexivity.
Qed.

(** Steps 2 to 4 together: they always settle, without an error. *)
Lemma parallel_steps_run (s : state) :
  ∃ s', allSettled (parallel_steps V) s = (Done tt, s')
    ∧ (∃ t, calls s' = calls s ++ t
          ∧ sublist t [StopStreaming; StopObserving; StopHtmlCleaner]
          ∧ (all_well V →
             t = opt (streamingService (context s)) StopStreaming
                 ++ opt (speakersObserver (context s)) StopObserving
                 ++ opt (htmlCleaner (context s)) StopHtmlCleaner))
    ∧ brandingProcess (context s') = brandingProcess (context s)
    ∧ playwrightPage (context s') = playwrightPage (context s)
    ∧ browserContext (context s') = browserContext (context s)
    ∧ meetingTimeoutInterval (context s') = meetingTimeoutInterval (context s)
    ∧ (all_well V →
       context s' =
         (if htmlCleaner (context s) then set_htmlCleaner false else id)
           ((if speakersObserver (context s) then set_speakersObserver false else id)
              (context s))).
Proof.
  unfold parallel_steps. cbn [allSettled].
  set (step2 := (c ← getContext;
                 cwhen (streamingService c) (invoke StopStreaming (streaming_stop V)))).
  assert (H2 : ∃ r2, (r2 = Done tt ∨ ∃ e, r2 = Thrown e)
               ∧ (streaming_stop V = Returns → r2 = Done tt)
               ∧ step2 s = (r2, {| context := context s;
                                   calls := calls s
                                            ++ opt (streamingService (context s))
                                                 StopStreaming |})).
  { unfold step2, getContext, cwhen, invoke, mbind, CM_bind, opt, called.
    destruct s as [c l]. cbn [context calls].
    destruct (streamingService c).
    - destruct (streaming_stop V) as [|e]; eexists; (split; [|split; [|reflexivity]]);
        eauto. discriminate.
    - exists (Done tt). rewrite app_nil_r. by eauto. }
  destruct H2 as (r2 & Hr2 & _ & ->).
  set (s2 := {| context := context s; calls := _ |}).
  eexists. split.
  { destruct Hr2 as [->|[e ->]]; rewrite stopSpeakersObserver_run, stopHtmlCleaner_run;
      reflexivity. }
  clear Hr2. cbn [context calls s2].
  set (c := context s).
  assert (Hh : htmlCleaner
                 (if speakersObserver c
                  then match stopObserving V with
                       | Returns => set_speakersObserver false c
                       | Throws e => if message_includes "timeout" e
                                     then set_speakersObserver false c else c
                       end
                  else c) = htmlCleaner c).
  { destruct (speakersObserver c); [|done].
    destruct (stopObserving V) as [|e]; [done|].
    by destruct (message_includes "timeout" e). }
  rewrite Hh. split; [|split; [|split; [|split; [|split]]]].
  - eexists. split; [by rewrite <- !app_assoc|]. split; [|done].
    unfold opt. destruct (streamingService c), (speakersObserver c), (htmlCleaner c);
      cbn [app]; repeat first [apply sublist_nil_l | apply sublist_skip | apply sublist_cons].
  - destruct (htmlCleaner c), (speakersObserver c), (htmlCleaner_stop V) as [|e1|],
      (stopObserving V) as [|e2]; try done;
      try destruct (message_includes "timeout" e1);
      try destruct (message_includes "timeout" e2); done.
  - destruct (htmlCleaner c), (speakersObserver c), (htmlCleaner_stop V) as [|e1|],
      (stopObserving V) as [|e2]; try done;
      try destruct (message_includes "timeout" e1);
      try destruct (message_includes "timeout" e2); done.
  - destruct (htmlCleaner c), (speakersObserver c), (htmlCleaner_stop V) as [|e1|],
      (stopObserving V) as [|e2]; try done;
      try destruct (message_includes "timeout" e1);
      try destruct (message_includes "timeout" e2); done.
  - destruct (htmlCleaner c), (speakersObserver c), (htmlCleaner_stop V) as [|e1|],
      (stopObserving V) as [|e2]; try done;
      try destruct (message_includes "timeout" e1);
      try destruct (message_includes "timeout" e2); done.
  - intros (_ & _ & _ & Hobs & Hhtml & _). rewrite Hobs, Hhtml.
    by destruct (htmlCleaner c), (speakersObserver c).
Qed.

Ltac solve_sublist :=
  repeat first [apply sublist_nil_l | apply sublist_skip | apply sublist_cons].

(** Step 5: it never throws; it blocks only on a [close] that does not
    settle. *)
Lemma cleanupBrowserResources_run (s : state) :
  ∃ r s', cleanupBrowserResources V s = (r, s')
    ∧ context s' = context s
    ∧ (∃ t, calls s' = calls s ++ t
          ∧ sublist t [KillBranding; StopVideoContext; StopSoundContext; ClosePage;
                       CloseBrowserContext; ClearMeetingTimeout])
    ∧ (r = Done tt
       ∨ (r = Stuck
          ∧ ((playwrightPage (context s) = true ∧ page_close V = Pending)
             ∨ (browserContext (context s) = true ∧ browserContext_close V = Pending)))).
Proof.
  unfold cleanupBrowserResources, ctry, getContext, cwhen, optional_stop,
    close_quietly, mbind, CM_bind, mret, CM_ret.
  unfold invoke, called.
  destruct s as [c l]. cbn [context calls].
  destruct (brandingProcess c); [destruct (branding_kill V)|];
    cbn [context calls];
    try (destruct (VideoContext_stop V) as [[|?]|]; cbn [context calls]);
    try (destruct (SoundContext_stop V) as [[|?]|]; cbn [context calls]);
    try (destruct (playwrightPage c); [destruct (page_close V)|]; cbn [context calls];
         (destruct (browserContext c); [destruct (browserContext_close V)|]);
         cbn [context calls]; destruct (meetingTimeoutInterval c));
    cbn [context calls];
    (eexists _, _; split; [reflexivity|]; split; [reflexivity|]; cbn [context calls];
     split;
     [ eexists; split; [repeat rewrite <- app_assoc; try reflexivity;
                        symmetry; apply app_nil_r|]; cbn [app]; solve_sublist
     | first [by left | right; split; [reflexivity|]; first [by left | by right]] ]).
Qed.

(** The cleanup, stage by stage. *)
Lemma performCleanup_run (s : state) :
  performCleanup V s =
    match stopDialogObserver V s with
    | (Done _, s1) =>
        match stopScreenRecorder V s1 with
        | (Done _, s2) => cleanupBrowserResources V (allSettled (parallel_steps V) s2).2
        | (Thrown _, s2) => (Done tt, s2)
        | (Stuck, s2) => (Stuck, s2)
        end
    | (Thrown _, s1) => (Done tt, s1)
    | (Stuck, s1) => (Stuck, s1)
    end.
Proof.
  unfold performCleanup, ctry, mbind, CM_bind.
  destruct (stopDialogObserver V s) as [[[]|e|] s1]; try reflexivity.
  destruct (stopScreenRecorder V s1) as [[[]|e|] s2]; try reflexivity.
  destruct (parallel_steps_run s2) as (s3 & H3 & _). rewrite H3. cbn [snd].
  destruct (cleanupBrowserResources_run s3) as (r & s4 & H4 & _ & _ & [->|[-> _]]);
    rewrite H4; reflexivity.
Qed.

(** The whole of [performCleanup]: the calls of steps 0 and 1, then those
    of steps 2 to 5, which are made only once the recorder has settled. *)
Lemma performCleanup_frame (s : state) :
  ∃ r s' t1 t2,
    performCleanup V s = (r, s')
    ∧ calls s' = calls s ++ t1 ++ t2
    ∧ sublist t1 [StopGlobalDialogObserver; StopRecording]
    ∧ sublist t2 later_steps
    ∧ (StopRecording ∈ t1 → isCurrentlyRecording V = true)
    ∧ (t2 ≠ [] →
       recorder_settled V ∧ (isCurrentlyRecording V = true → StopRecording ∈ t1))
    ∧ (r = Done tt
       ∨ (r = Stuck
          ∧ ((isCurrentlyRecording V = true ∧ stopRecording V = Pending)
             ∨ (playwrightPage (context s) = true ∧ page_close V = Pending)
             ∨ (browserContext (context s) = true ∧ browserContext_close V = Pending)))).
Proof.
  rewrite performCleanup_run, stopDialogObserver_run. cbv zeta.
  set (tA := opt (dialogObserver (context s)) StopGlobalDialogObserver).
  assert (HA : sublist tA [StopGlobalDialogObserver]).
  { unfold tA, opt. destruct (dialogObserver _); solve_sublist. }
  assert (HnA : StopRecording ∉ tA).
  { unfold tA, opt. destruct (dialogObserver _); [|by apply not_elem_of_nil].
    intros Hin. apply list_elem_of_singleton in Hin. discriminate. }
  assert (Hstop : ∀ r, (r = Done tt ∨ ∃ e, r = Thrown e) →
            ∃ r' s' t1 t2,
              match r with
              | Done _ =>
                  match stopScreenRecorder V {| context := context s;
                                                calls := calls s ++ tA |} with
                  | (Done _, s2) =>
                      cleanupBrowserResources V (allSettled (parallel_steps V) s2).2
                  | (Thrown _, s2) => (Done tt, s2)
                  | (Stuck, s2) => (Stuck, s2)
                  end
              | Thrown _ => (Done tt, {| context := context s; calls := calls s ++ tA |})
              | Stuck => (Stuck, {| context := context s; calls := calls s ++ tA |})
              end = (r', s')
              ∧ calls s' = calls s ++ t1 ++ t2
              ∧ sublist t1 [StopGlobalDialogObserver; StopRecording]
              ∧ sublist t2 later_steps
              ∧ (StopRecording ∈ t1 → isCurrentlyRecording V = true)
              ∧ (t2 ≠ [] →
                 recorder_settled V
                 ∧ (isCurrentlyRecording V = true → StopRecording ∈ t1))
              ∧ (r' = Done tt
                 ∨ (r' = Stuck
                    ∧ ((isCurrentlyRecording V = true ∧ stopRecording V = Pending)
                       ∨ (playwrightPage (context s) = true ∧ page_close V = Pending)
                       ∨ (browserContext (context s) = true
                          ∧ browserContext_close V = Pending))))).
  { intros r [->|[e ->]].
    2: { eexists _, _, tA, []. split; [reflexivity|]. cbn [calls].
         split; [by rewrite app_nil_r|].
         split; [by apply (sublist_inserts_r [StopRecording]) in HA|].
         split; [apply sublist_nil_l|]. split; [done|]. split; [done|]. by left. }
    set (sA := {| context := context s; calls := calls s ++ tA |}).
    pose proof (stopScreenRecorder_done sA) as Hdone.
    rewrite stopScreenRecorder_run in *. cbv zeta in *. cbn [fst context calls sA] in *.
    set (tB := opt (isCurrentlyRecording V) StopRecording).
    assert (HB : sublist (tA ++ tB) [StopGlobalDialogObserver; StopRecording]).
    { apply (sublist_app tA [StopGlobalDialogObserver] tB [StopRecording]); [exact HA|].
      unfold tB, opt. destruct (isCurrentlyRecording V); solve_sublist. }
    assert (HinB : StopRecording ∈ tA ++ tB ↔ isCurrentlyRecording V = true).
    { rewrite elem_of_app. unfold tB, opt. destruct (isCurrentlyRecording V).
      - split; [done|]. intros _. right. by apply list_elem_of_singleton.
      - split; [|done]. intros [?|Hin]; [done|]. by apply elem_of_nil in Hin. }
    set (rB := if isCurrentlyRecording V
               then match stopRecording V with
                    | Resolves => Done ()
                    | Rejects e =>
                        if message_includes "not recording" e then Done () else Thrown e
                    | Pending => Stuck
                    end
               else Done ()) in *.
    assert (HrB : rB = Done tt ∨ (∃ e, rB = Thrown e)
                  ∨ (rB = Stuck ∧ isCurrentlyRecording V = true
                     ∧ stopRecording V = Pending)).
    { unfold rB. destruct (isCurrentlyRecording V); [|by left].
      destruct (stopRecording V) as [|e|]; [by left| |by right; right].
      destruct (message_includes "not recording" e); [by left|right; left; by eauto]. }
    clearbody rB.
    destruct HrB as [->|[[e ->]|(-> & Hrec & Hpend)]].
    - (* the recorder has settled: steps 2 to 5 *)
      destruct Hdone as [Hsettled _]. specialize (Hsettled eq_refl).
      set (sB := {| context := context s; calls := (calls s ++ tA) ++ tB |}).
      destruct (parallel_steps_run sB)
        as (s3 & H3 & (t3 & Ht3 & Hsub3 & _) & _ & Hpage & Hbrowser & _).
      rewrite H3. cbn [snd].
      destruct (cleanupBrowserResources_run s3)
        as (r4 & s4 & H4 & _ & (t4 & Ht4 & Hsub4) & Hr4).
      exists r4, s4, (tA ++ tB), (t3 ++ t4). split; [exact H4|].
      split; [rewrite Ht4, Ht3; cbn [calls sB]; by rewrite <- !app_assoc|].
      split; [exact HB|].
      split; [exact (sublist_app t3 [StopStreaming; StopObserving; StopHtmlCleaner] t4
                       [KillBranding; StopVideoContext; StopSoundContext; ClosePage;
                        CloseBrowserContext; ClearMeetingTimeout] Hsub3 Hsub4)|].
      split; [apply HinB|]. split; [intros _; split; [exact Hsettled|apply HinB]|].
      cbn [context sB] in Hpage, Hbrowser. rewrite Hpage, Hbrowser in Hr4.
      destruct Hr4 as [->|[-> Hp]]; [by left|right]. split; [done|]. by right.
    - exists (Done tt). eexists _, (tA ++ tB), []. split; [reflexivity|]. cbn [calls].
      split; [by rewrite app_nil_r, <- app_assoc|]. split; [exact HB|].
      split; [apply sublist_nil_l|]. split; [apply HinB|]. split; [done|]. by left.
    - exists Stuck. eexists _, (tA ++ tB), []. split; [reflexivity|]. cbn [calls].
      split; [by rewrite app_nil_r, <- app_assoc|]. split; [exact HB|].
      split; [apply sublist_nil_l|]. split; [apply HinB|]. split; [done|].
      right. split; [done|]. by left. }
  apply Hstop. destruct (stopGlobalDialogObserver V) as [|e]; [by left|].
  destruct (dialogObserver (context s)); [right; by eauto|by left].
Qed.

(** Step 5 when nothing fails. *)
Lemma cleanupBrowserResources_well (s : state) :
  all_well V →
  cleanupBrowserResources V s =
    (Done tt,
     {| context := context s;
        calls := calls s
                 ++ opt (brandingProcess (context s)) KillBranding
                 ++ opt (has_instance (VideoContext_stop V)) StopVideoContext
                 ++ opt (has_instance (SoundContext_stop V)) StopSoundContext
                 ++ opt (playwrightPage (context s)) ClosePage
                 ++ opt (browserContext (context s)) CloseBrowserContext
                 ++ opt (meetingTimeoutInterval (context s)) ClearMeetingTimeout |}).
Proof.
  intros (_ & _ & _ & _ & _ & Hkill & Hvideo & Hsound & Hpage & Hbrowser).
  unfold cleanupBrowserResources, ctry, getContext, cwhen, optional_stop,
    close_quietly, mbind, CM_bind, mret, CM_ret.
  unfold invoke, called, opt.
  rewrite Hkill, Hpage, Hbrowser.
  destruct s as [c l]. cbn [context calls].
  destruct Hvideo as [-> | ->], Hsound as [-> | ->];
    destruct (brandingProcess c), (playwrightPage c), (browserContext c),
      (meetingTimeoutInterval c);
    cbn [context calls has_instance app];
    repeat rewrite <- app_assoc; rewrite ?app_nil_r; reflexivity.
Qed.

End CleanupFacts.

(** X25. The cleanup state always moves on to [Terminated]. Whatever the
    collaborators do, including a stop of the recorder or a close of the
    browser that never settles, [execute] returns the transition to the
    final state, made exactly once and as the last call. *)
Theorem cleanup_always_terminates (V : Cleanup.Env) (s : Cleanup.state) :
  ∃ s' t,
    Cleanup.execute V s = (Cleanup.Done Cleanup.Terminated, s')
    ∧ Cleanup.calls s' = Cleanup.calls s ++ t ++ [Cleanup.Transition Cleanup.Terminated]
    ∧ Forall (λ c, ∀ next, c ≠ Cleanup.Transition next) t.
Proof.
  destruct (performCleanup_frame V s)
    as (r & s1 & t1 & t2 & Hrun & Hcalls & Hsub1 & Hsub2 & _ & _ & Hr).
  assert (Hno : Forall (λ c, ∀ next, c ≠ Cleanup.Transition next) (t1 ++ t2)).
  { apply Forall_app. split; apply Forall_forall; intros c Hc next ->.
    - apply (elem_of_sublist _ _ _ Hc) in Hsub1.
      rewrite !elem_of_cons, elem_of_nil in Hsub1.
      destruct Hsub1 as [?|[?|[]]]; discriminate.
    - apply (elem_of_sublist _ _ _ Hc) in Hsub2. unfold Cleanup.later_steps in Hsub2.
      rewrite !elem_of_cons, elem_of_nil in Hsub2.
      repeat (destruct Hsub2 as [?|Hsub2]; [discriminate|]). done. }
  exists (Cleanup.called (Cleanup.Transition Cleanup.Terminated) s1), (t1 ++ t2).
  split.
  - unfold Cleanup.execute, Cleanup.ctry, Cleanup.race_timeout, mbind, Cleanup.CM_bind.
    rewrite Hrun. by destruct Hr as [->|[-> _]].
  - split; [|exact Hno]. cbn [Cleanup.calls Cleanup.called]. rewrite Hcalls.
    by rewrite <- !app_assoc.
Qed.

(** X26. The recorder is stopped first. In every run of [performCleanup]
    the calls are made in the order of the source, each at most once. The
    recorder is asked to stop only if it is recording; and no call of steps
    2 to 5, in particular no close of the page or of the browser, is made
    unless the recorder has settled: it was not recording, or its stop has
    resolved, or was rejected as not recording. *)
Theorem recorder_stops_first (V : Cleanup.Env) (s : Cleanup.state) :
  ∃ t1 t2,
    Cleanup.calls (Cleanup.performCleanup V s).2 = Cleanup.calls s ++ t1 ++ t2
    ∧ sublist t1 [Cleanup.StopGlobalDialogObserver; Cleanup.StopRecording]
    ∧ sublist t2 Cleanup.later_steps
    ∧ (Cleanup.StopRecording ∈ t1 → Cleanup.isCurrentlyRecording V = true)
    ∧ (t2 ≠ [] →
       Cleanup.recorder_settled V
       ∧ (Cleanup.isCurrentlyRecording V = true → Cleanup.StopRecording ∈ t1)).
Proof.
  destruct (performCleanup_frame V s)
    as (r & s1 & t1 & t2 & Hrun & Hcalls & Hsub1 & Hsub2 & Hrec & Hlater & _).
  exists t1, t2. rewrite Hrun. done.
Qed.

(** X27. What the cleanup can wait for. [performCleanup] never throws. It
    fails to settle only if the stop of a recording recorder never settles,
    or the close of the page or of the browser context never settles: the
    streaming service, the two observers and the branding process cannot
    block it. *)
Theorem cleanup_blocks_only_on (V : Cleanup.Env) (s : Cleanup.state) :
  let r := (Cleanup.performCleanup V s).1 in
  (r = Cleanup.Done tt ∨ r = Cleanup.Stuck)
  ∧ (r = Cleanup.Stuck →
     (Cleanup.isCurrentlyRecording V = true ∧ Cleanup.stopRecording V = Cleanup.Pending)
     ∨ (Cleanup.playwrightPage (Cleanup.context s) = true
        ∧ Cleanup.page_close V = Cleanup.Pending)
     ∨ (Cleanup.browserContext (Cleanup.context s) = true
        ∧ Cleanup.browserContext_close V = Cleanup.Pending)).
Proof.
  cbv zeta.
  destruct (performCleanup_frame V s) as (r & s1 & t1 & t2 & Hrun & _ & _ & _ & _ & _ & Hr).
  rewrite Hrun. cbn [fst]. destruct Hr as [->|[-> Hwhy]].
  - split; [by left|discriminate].
  - split; [by right|done].
Qed.

(** X28. The observers never hold up the cleanup. [stopSpeakersObserver]
    and [stopHtmlCleaner] always return. The speakers observer is cleared
    unless [stopObserving] threw something that is not a timeout; the HTML
    cleaner is dropped when its [stop] resolves, when it has not settled
    after 3 s, and when it is rejected with a timeout, and kept only when
    it is rejected with something else. *)
Theorem observers_never_block (V : Cleanup.Env) (s : Cleanup.state) :
  let s1 := (Cleanup.stopSpeakersObserver V s).2 in
  let s2 := (Cleanup.stopHtmlCleaner V s).2 in
  (Cleanup.stopSpeakersObserver V s).1 = Cleanup.Done tt
  ∧ (Cleanup.stopHtmlCleaner V s).1 = Cleanup.Done tt
  ∧ (Cleanup.speakersObserver (Cleanup.context s1) = true ↔
       Cleanup.speakersObserver (Cleanup.context s) = true
       ∧ ∃ e, Cleanup.stopObserving V = Cleanup.Throws e
              ∧ Cleanup.message_includes "timeout" e = false)
  ∧ (Cleanup.htmlCleaner (Cleanup.context s2) = true ↔
       Cleanup.htmlCleaner (Cleanup.context s) = true
       ∧ ∃ e, Cleanup.htmlCleaner_stop V = Cleanup.Rejects e
              ∧ Cleanup.message_includes "timeout" e = false)
  ∧ Cleanup.htmlCleaner (Cleanup.context s1) = Cleanup.htmlCleaner (Cleanup.context s)
  ∧ Cleanup.speakersObserver (Cleanup.context s2)
    = Cleanup.speakersObserver (Cleanup.context s).
Proof.
  cbv zeta. rewrite stopSpeakersObserver_run, stopHtmlCleaner_run.
  cbn [fst snd Cleanup.context].
  split; [done|]. split; [done|].
  split; [|split; [|split]].
  - destruct (Cleanup.speakersObserver (Cleanup.context s)) eqn:Hs.
    + destruct (Cleanup.stopObserving V) as [|e].
      * cbn. split; [done|]. by intros (_ & e & He & _).
      * destruct (Cleanup.message_includes "timeout" e) eqn:Hm.
        -- cbn. split; [done|]. intros (_ & e' & [= <-] & He'). congruence.
        -- rewrite Hs. split; [|done]. intros _. split; [done|]. by exists e.
    + rewrite Hs. split; [done|]. by intros [? _].
  - destruct (Cleanup.htmlCleaner (Cleanup.context s)) eqn:Hh.
    + destruct (Cleanup.htmlCleaner_stop V) as [|e|].
      * cbn. split; [done|]. by intros (_ & e & He & _).
      * destruct (Cleanup.message_includes "timeout" e) eqn:Hm.
        -- cbn. split; [done|]. intros (_ & e' & [= <-] & He'). congruence.
        -- rewrite Hh. split; [|done]. intros _. split; [done|]. by exists e.
      * cbn. split; [done|]. by intros (_ & e & He & _).
    + rewrite Hh. split; [done|]. by intros [? _].
  - destruct (Cleanup.speakersObserver (Cleanup.context s)); [|done].
    destruct (Cleanup.stopObserving V) as [|e]; [done|].
    by destruct (Cleanup.message_includes "timeout" e).
  - destruct (Cleanup.htmlCleaner (Cleanup.context s)); [|done].
    destruct (Cleanup.htmlCleaner_stop V) as [|e|]; [done| |done].
    by destruct (Cleanup.message_includes "timeout" e).
Qed.

(** X29. A cleanup that meets no failure does everything. When every call
    returns and every promise resolves, [performCleanup] returns after
    having stopped, in this order, the dialog observer, the recorder if it
    is recording, the streaming service, the speakers observer, the HTML
    cleaner, the branding process, the video and sound contexts, and after
    having closed the page and the browser context and cleared the meeting
    timeout, each if it is there; the two observers are cleared. *)
Theorem cleanup_complete (V : Cleanup.Env) (s : Cleanup.state) :
  Cleanup.all_well V →
  let c := Cleanup.context s in
  Cleanup.performCleanup V s =
    (Cleanup.Done tt,
     {| Cleanup.context :=
          (if Cleanup.htmlCleaner c then Cleanup.set_htmlCleaner false else id)
            ((if Cleanup.speakersObserver c then Cleanup.set_speakersObserver false
              else id) c);
        Cleanup.calls :=
          Cleanup.calls s
          ++ Cleanup.opt (Cleanup.dialogObserver c) Cleanup.StopGlobalDialogObserver
          ++ Cleanup.opt (Cleanup.isCurrentlyRecording V) Cleanup.StopRecording
          ++ Cleanup.opt (Cleanup.streamingService c) Cleanup.StopStreaming
          ++ Cleanup.opt (Cleanup.speakersObserver c) Cleanup.StopObserving
          ++ Cleanup.opt (Cleanup.htmlCleaner c) Cleanup.StopHtmlCleaner
          ++ Cleanup.opt (Cleanup.brandingProcess c) Cleanup.KillBranding
          ++ Cleanup.opt (Cleanup.has_instance (Cleanup.VideoContext_stop V))
               Cleanup.StopVideoContext
          ++ Cleanup.opt (Cleanup.has_instance (Cleanup.SoundContext_stop V))
               Cleanup.StopSoundContext
          ++ Cleanup.opt (Cleanup.playwrightPage c) Cleanup.ClosePage
          ++ Cleanup.opt (Cleanup.browserContext c) Cleanup.CloseBrowserContext
          ++ Cleanup.opt (Cleanup.meetingTimeoutInterval c) Cleanup.ClearMeetingTimeout
     |}).
Proof.
  intros Hwell. cbv zeta.
  pose proof Hwell as (Hrec & Hdialog & _).
  rewrite performCleanup_run, stopDialogObserver_run, Hdialog. cbv zeta.
  rewrite stopScreenRecorder_run, Hrec. cbv zeta. cbn [Cleanup.context Cleanup.calls].
  assert (Hr : (if Cleanup.isCurrentlyRecording V then Cleanup.Done ()
                else Cleanup.Done ()) = Cleanup.Done tt)
    by (by destruct (Cleanup.isCurrentlyRecording V)).
  rewrite Hr. clear Hr.
  match goal with |- context [Cleanup.allSettled _ ?x] => set (sB := x) end.
  destruct (parallel_steps_run V sB)
    as (s3 & H3 & (t3 & Ht3 & _ & Hexact) & Hbrand & Hpage & Hbrowser & Hint & Hctx).
  rewrite H3. cbn [snd]. rewrite (cleanupBrowserResources_well V s3 Hwell).
  rewrite Hbrand, Hpage, Hbrowser, Hint, (Hctx Hwell), Ht3, (Hexact Hwell).
  cbn [Cleanup.context Cleanup.calls sB]. f_equal. f_equal.
  by rewrite <- !app_assoc.
Qed.

Lemma cleanup_complete_witness :
  Cleanup.performCleanup Cleanup.calm_env Cleanup.meeting_state =
    (Cleanup.Done tt,
     {| Cleanup.context :=
          Cleanup.set_htmlCleaner false
            (Cleanup.set_speakersObserver false Cleanup.full_context);
        Cleanup.calls :=
          [Cleanup.StopGlobalDialogObserver; Cleanup.StopRecording;
           Cleanup.StopStreaming; Cleanup.StopObserving; Cleanup.StopHtmlCleaner;
           Cleanup.StopVideoContext; Cleanup.ClosePage; Cleanup.CloseBrowserContext;
           Cleanup.ClearMeetingTimeout] |}).
Proof.
  apply (cleanup_complete Cleanup.calm_env Cleanup.meeting_state).
  unfold Cleanup.all_well. cbn. repeat split; auto.
Defined.

(** X30. A recorder that does not settle costs the rest of the cleanup.
    When the recorder is recording and its stop is rejected with anything
    but 'not recording', or has not settled when the cleanup times out, the
    state still moves on to [Terminated], but nothing of steps 2 to 5 has
    been done: the streaming service and the observers are not stopped, the
    page and the browser context are not closed, the context is
    untouched. *)
Theorem unsettled_recorder_skips_cleanup (V : Cleanup.Env) (s : Cleanup.state) :
  Cleanup.isCurrentlyRecording V = true →
  ¬ Cleanup.recorder_settled V →
  Cleanup.stopGlobalDialogObserver V = Cleanup.Returns →
  Cleanup.execute V s =
    (Cleanup.Done Cleanup.Terminated,
     {| Cleanup.context := Cleanup.context s;
        Cleanup.calls :=
          Cleanup.calls s
          ++ Cleanup.opt (Cleanup.dialogObserver (Cleanup.context s))
               Cleanup.StopGlobalDialogObserver
          ++ [Cleanup.StopRecording; Cleanup.Transition Cleanup.Terminated] |}).
Proof.
  intros Hrec Hns Hdialog.
  unfold Cleanup.execute, Cleanup.ctry, Cleanup.race_timeout, mbind, Cleanup.CM_bind.
  rewrite performCleanup_run, stopDialogObserver_run, Hdialog. cbv zeta.
  rewrite stopScreenRecorder_run, Hrec. cbv zeta. cbn [Cleanup.context Cleanup.calls].
  unfold Cleanup.recorder_settled in Hns.
  destruct (Cleanup.stopRecording V) as [|e|] eqn:Hstop.
  - exfalso. apply Hns. right. by left.
  - destruct (Cleanup.message_includes "not recording" e) eqn:Hmsg.
    + exfalso. apply Hns. right. right. by exists e.
    + unfold Cleanup.transition, Cleanup.called, Cleanup.opt, mret, Cleanup.CM_ret.
      cbn [Cleanup.context Cleanup.calls]. f_equal. f_equal.
      repeat rewrite <- app_assoc. reflexivity.
  - unfold Cleanup.transition, Cleanup.called, Cleanup.opt, mret, Cleanup.CM_ret.
    cbn [Cleanup.context Cleanup.calls]. f_equal. f_equal.
    repeat rewrite <- app_assoc. reflexivity.
Qed.

Lemma unsettled_recorder_skips_cleanup_witness :
  Cleanup.execute Cleanup.hung_recorder_env Cleanup.meeting_state =
    (Cleanup.Done Cleanup.Terminated,
     {| Cleanup.context := Cleanup.full_context;
        Cleanup.calls := [Cleanup.StopGlobalDialogObserver; Cleanup.StopRecording;
                          Cleanup.Transition Cleanup.Terminated] |}).
Proof.
  apply (unsettled_recorder_skips_cleanup Cleanup.hung_recorder_env Cleanup.meeting_state);
    [reflexivity| |reflexivity].
  intros [H|[H|(e & H & _)]]; discriminate.
Defined.
